(** * Material loading and atlas merging (src/material.py)

    A shallow embedding of [load_mtl], [save_mtl] and [merge_materials].

    - Python dictionaries are [gmap]s; a material is a [gmap string value].
    - Exceptions are an explicit error monad ([result]); [save_mtl], which
      writes files before it may raise, also threads what is on disk ([io]).
    - A character is a code point below 256 (one [ascii]); [str.strip] and
      [str.lower] are modelled on that whole range, text with other
      characters is outside the embedding.
    - In-place mutation is state passing: [merge_materials] returns the
      mutated material list and the rewritten face table next to its result.
    - Texture coordinates are rationals ([Q]); numpy's integer arrays of
      resolutions are pairs of [Z].
    - A tensor (one NHWC image, batch size one) is a shape and a function from
      (row, column, channel) to a value. *)

From Stdlib Require Import ZArith QArith Lia String Ascii.
From stdpp Require Import base option list gmap strings.

Local Open Scope Z_scope.

(** ** Python runtime: exceptions and sequence indexing *)

Inductive exn : Type :=
  | AssertionError (msg : option string)
  | KeyError (key : string)
  | IndexError
  | ValueError
  | AttributeError
  | TypeError
  | OSError
  | RuntimeError.

Inductive result (A : Type) : Type :=
  | Ok (a : A)
  | Raise (e : exn).
Arguments Ok {A} a.
Arguments Raise {A} e.

Definition rbind {A B} (r : result A) (k : A → result B) : result B :=
  match r with
  | Ok a => k a
  | Raise e => Raise e
  end.

Notation "x ←! r ; k" := (rbind r (λ x, k))
  (at level 20, r at level 100, k at level 200, right associativity,
   format "x  ←!  r ;  '/' k").
Notation "' p ←! r ; k" := (rbind r (λ x, let 'p := x in k))
  (at level 20, p pattern, r at level 100, k at level 200,
   right associativity).

Definition assert (b : bool) (msg : option string) : result unit :=
  if b then Ok tt else Raise (AssertionError msg).

(** [for x in l: ...] with a loop-carried state and early exit on a raise. *)
Fixpoint for_each {A S} (body : S → A → result S) (l : list A) (s : S)
  : result S :=
  match l with
  | [] => Ok s
  | x :: l' => s' ←! body s x; for_each body l' s'
  end.

(** [for i, x in enumerate(l)] starting at index [i]. *)
Fixpoint for_enum {A S} (body : S → nat → A → result S) (i : nat)
  (l : list A) (s : S) : result S :=
  match l with
  | [] => Ok s
  | x :: l' => s' ←! body s i x; for_enum body (Datatypes.S i) l' s'
  end.

Fixpoint mapM {A B} (f : A → result B) (l : list A) : result (list B) :=
  match l with
  | [] => Ok []
  | x :: l' => y ←! f x; ys ←! mapM f l'; Ok (y :: ys)
  end.

(** [l[i]] for a Python list: negative indices count from the end, anything
    outside [-len, len) raises [IndexError]. *)
Definition py_index {A} (l : list A) (i : Z) : result A :=
  let n := Z.of_nat (length l) in
  let j := if i <? 0 then i + n else i in
  if (j <? 0) || (n <=? j) then Raise IndexError
  else match l !! Z.to_nat j with
       | Some x => Ok x
       | None => Raise IndexError
       end.

(** [d[k]] for a dictionary. *)
Definition py_getitem {V} (d : gmap string V) (k : string) : result V :=
  match d !! k with
  | Some v => Ok v
  | None => Raise (KeyError k)
  end.

(** [k in d]. *)
Definition py_in {V} (k : string) (d : gmap string V) : bool :=
  bool_decide (is_Some (d !! k)).

(** ** Text: [str.lower], [str.strip], [re.split] and [in] on strings *)

Module Text.

(** [str.lower()] on one character: the capital letters below 256 are
    A-Z and U+00C0-U+00DE without the multiplication sign U+00D7; each has
    its small letter 32 places further. *)
Definition lower_ascii (c : ascii) : ascii :=
  let n := nat_of_ascii c in
  if (((65 <=? n) && (n <=? 90)) ||
      ((192 <=? n) && (n <=? 222) && negb (n =? 215)))%nat
  then ascii_of_nat (n + 32) else c.

Fixpoint lower (s : string) : string :=
  match s with
  | EmptyString => EmptyString
  | String c s' => String (lower_ascii c) (lower s')
  end.

(** Characters removed by [str.strip()]: the white space below 256, which
    is U+0009-U+000D, U+001C-U+0020, U+0085 and U+00A0. *)
Definition is_space (c : ascii) : bool :=
  let n := nat_of_ascii c in
  (((9 <=? n) && (n <=? 13)) || ((28 <=? n) && (n <=? 32)) ||
   (n =? 133) || (n =? 160))%nat.

Fixpoint lstrip (s : string) : string :=
  match s with
  | EmptyString => EmptyString
  | String c s' => if is_space c then lstrip s' else s
  end.

Fixpoint rstrip (s : string) : string :=
  match s with
  | EmptyString => EmptyString
  | String c s' =>
      match rstrip s' with
      | EmptyString => if is_space c then EmptyString else String c EmptyString
      | r => String c r
      end
  end.

Definition strip (s : string) : string := rstrip (lstrip s).

(** The three separator characters of the pattern [' +|\t+|\n+']. *)
Definition is_sep (c : ascii) : bool :=
  let n := nat_of_ascii c in ((n =? 32) || (n =? 9) || (n =? 10))%nat.

Fixpoint rev_string (acc : list ascii) (s : string) : string :=
  match acc with
  | [] => s
  | c :: acc' => rev_string acc' (String c s)
  end.

(** [re.split(' +|\t+|\n+', s)]: a maximal run of one and the same separator
    character is a single match; two adjacent runs of different separators
    are two matches with an empty field in between.  [prev] is the separator
    of the run being consumed, [cur] the field read so far, reversed. *)
Fixpoint split_go (prev : option ascii) (cur : list ascii) (s : string)
  : list string :=
  match s with
  | EmptyString => [rev_string cur EmptyString]
  | String c s' =>
      if is_sep c then
        if bool_decide (prev = Some c) then split_go (Some c) cur s'
        else rev_string cur EmptyString :: split_go (Some c) [] s'
      else split_go None (c :: cur) s'
  end.

Definition re_split (s : string) : list string := split_go None [] s.

Fixpoint is_prefix (p s : string) : bool :=
  match p, s with
  | EmptyString, _ => true
  | String a p', String b s' => bool_decide (a = b) && is_prefix p' s'
  | String _ _, EmptyString => false
  end.

(** [needle in hay] for strings: substring test. *)
Fixpoint contains (needle hay : string) : bool :=
  is_prefix needle hay ||
  match hay with
  | EmptyString => false
  | String _ hay' => contains needle hay'
  end.

End Text.


Local Open Scope string_scope.
Local Open Scope Z_scope.
Local Open Scope list_scope.

(** ** Tensors and textures *)

(** One image of an NHWC tensor with batch size one: its height, width and
    channel count, and the value stored at (row, column, channel). *)
Record tensor : Type := mkTensor {
  t_h : Z;
  t_w : Z;
  t_c : Z;
  t_at : Z → Z → Z → Q
}.

(** Modelled from the spec: the Texture Buffer object [texture.Texture2D]
    (module [texture] is not among the sources).  A texture is its image
    [data] together with its further resolution levels; [getMips] lists all
    levels, base first, and [getRes] is the (height, width) of the base. *)
Record Texture2D : Type := mkTexture2D {
  data : tensor;
  lower_mips : list tensor
}.

Definition getMips (t : Texture2D) : list tensor := data t :: lower_mips t.
Definition getRes (t : Texture2D) : Z * Z := (t_h (data t), t_w (data t)).

(** [texture.Texture2D(x)] for a 4-dimensional tensor [x]. *)
Definition Texture2D_of_tensor (x : tensor) : Texture2D := mkTexture2D x [].

(** [torch.tensor(v)[None, None, None, :]]: a constant as a 1x1 image. *)
Definition const_tensor (v : list Q) : tensor :=
  mkTensor 1 1 (Z.of_nat (length v))
           (λ _ _ ch, if ch <? 0 then 0%Q else nth (Z.to_nat ch) v 0%Q).

(** The values a material dictionary holds: a string, a vector of numbers
    (a one-dimensional tensor) or a texture. *)
Inductive value : Type :=
  | VStr (s : string)
  | VVec (v : list Q)
  | VTex (t : Texture2D).

Abbreviation material := (gmap string value).

(** Modelled from the spec: the constructor [texture.Texture2D(init)] applied
    to a stored constant materialises it as a 1x1 buffer; only a tensor has
    the shape the constructor asks for. *)
Definition Texture2D_of_value (v : value) : result Texture2D :=
  match v with
  | VVec c => Ok (Texture2D_of_tensor (const_tensor c))
  | _ => Raise AttributeError
  end.

(** [v.getRes()] and [v.data] exist on textures only. *)
Definition as_texture (v : value) : result Texture2D :=
  match v with
  | VTex t => Ok t
  | _ => Raise AttributeError
  end.

(** [v.data.device]: defined on textures and on tensors, not on strings. *)
Definition data_device (v : value) : result unit :=
  match v with
  | VStr _ => Raise AttributeError
  | _ => Ok tt
  end.

(** [mip[..., 0] = 0.0]: overwrite channel 0 of every pixel in place; a
    tensor without channels has no index 0. *)
Definition zero_channel0 (mip : tensor) : result tensor :=
  if t_c mip <=? 0 then Raise IndexError
  else Ok (mkTensor (t_h mip) (t_w mip) (t_c mip)
                    (λ r c ch, if ch =? 0 then 0%Q else t_at mip r c ch)).

(** [b] laid out to the right of [a], for two images of one height and
    one channel count. *)
Definition cat2 (a b : tensor) : tensor :=
  mkTensor (t_h a) (t_w a + t_w b) (t_c a)
           (λ r c ch, if c <? t_w a then t_at a r c ch
                      else t_at b r (c - t_w a) ch).

(** The sizes [torch.cat(..., dim=2)] asks to be equal: every dimension
    but the width. *)
Definition same_shape (a b : tensor) : bool :=
  (t_h a =? t_h b) && (t_c a =? t_c b).

(** [torch.cat(ts, dim=2)]: the images side by side.  Torch raises
    [RuntimeError] for the empty tuple and for images that differ in
    height or in channel count.  (Tensors have neither a device nor an
    element type in the embedding: all are taken to share them.) *)
Definition cat_width (ts : list tensor) : result tensor :=
  match ts with
  | [] => Raise RuntimeError
  | t :: ts' =>
      if forallb (same_shape t) ts' then Ok (foldl cat2 t ts')
      else Raise RuntimeError
  end.

(** [_upscale_replicate(x, full_res)]: pad to the right by
    [full_res[1] - width] and at the bottom by [full_res[0] - height],
    every new pixel repeating the nearest border pixel. *)
Definition _upscale_replicate (x : tensor) (full_res : Z * Z) : tensor :=
  mkTensor (t_h x + (full_res.1 - t_h x)) (t_w x + (full_res.2 - t_w x))
           (t_c x)
           (λ r c ch, t_at x (Z.min r (t_h x - 1)) (Z.min c (t_w x - 1)) ch).

(** ** External collaborators

    Everything the module calls but does not define: the file system, the
    [float] builtin, [os.path], and the [texture] and [util] modules. *)
Class Externals : Type := {
  (** [open(fn).readlines()] *)
  read_lines : string → result (list string);
  (** [float(d)], rounded to float32; [None] when [d] is not a number *)
  py_float : string → option Q;
  os_path_dirname : string → string;
  os_path_join : string → string → string;
  (** [texture.load_texture2D(path, lambda_fn=..., channels=...)] *)
  load_texture2D : string → option (Q → Q) → option Z → result Texture2D;
  (** [texture.srgb_to_rgb] *)
  srgb_to_rgb : Texture2D → Texture2D;
  (** [util.scale_img_nhwc(x, size)] *)
  scale_img_nhwc : tensor → Z * Z → tensor;
  (** the truth value of [a == b] for two values that are not both
      strings (tensors compare element by element, textures by identity);
      [None] when it has none, as for a tensor of several elements *)
  py_eq : value → value → option bool
}.

(** ** load_mtl *)

Section load_mtl.
Context `{!Externals}.

Definition string_keys : list string :=
  ["bsdf"; "map_kd"; "map_ks"; "bump"; "map_ns"; "ns"; "ka"; "refl"].

Definition to_float (d : string) : result Q :=
  match py_float d with
  | Some q => Ok q
  | None => Raise ValueError
  end.

(** [material[prefix] = v], where [material] is the dictionary appended
    last to [materials]. *)
Definition set_current (prefix : string) (v : value)
  (materials : list material) : list material :=
  alter (<[prefix := v]>) (pred (length materials)) materials.

(** The body of the parsing loop, for one line. *)
Definition parse_line (materials : list material) (line : string)
  : result (list material) :=
  let split_line := Text.re_split (Text.strip line) in
  p ←! py_index split_line 0;
  let prefix := Text.lower p in
  let data := drop 1 split_line in
  if Text.contains "newmtl" prefix then
    name ←! py_index data 0;
    Ok (materials ++ [ {[ "name" := VStr name ]} ])
  else if bool_decide (materials ≠ []) then
    if existsb (λ k, Text.contains k prefix) string_keys then
      d0 ←! py_index data 0;
      Ok (set_current prefix (VStr d0) materials)
    else
      v ←! mapM to_float data;
      Ok (set_current prefix (VVec v) materials)
  else Ok materials.

Definition parse_lines (lines : list string) : result (list material) :=
  for_each parse_line lines [].

(** [os.path.join(mtl_path, mat[key])] *)
Definition texture_path (mtl_path : string) (v : value) : result string :=
  match v with
  | VStr s => Ok (os_path_join mtl_path s)
  | _ => Raise TypeError
  end.

(** The clearing loop over the resolution levels of [ks].  [getMips] hands
    out the stored tensors themselves, so overwriting them changes the
    texture the material holds. *)
Definition clear_occlusion (t : Texture2D) : result Texture2D :=
  mips ←! mapM zero_channel0 (getMips t);
  match mips with
  | [] => Ok t
  | d :: ms => Ok (mkTexture2D d ms)
  end.

(** The body of the conversion loop, for one material. *)
Definition convert_material (mtl_path : string) (clear_ks : bool)
  (mat : material) : result material :=
  let mat := if negb (py_in "bsdf" mat) then <["bsdf" := VStr "pbr"]> mat
             else mat in
  mat ←! (if py_in "map_kd" mat then
            v ←! py_getitem mat "map_kd";
            path ←! texture_path mtl_path v;
            t ←! load_texture2D path None None;
            Ok (<["kd" := VTex t]> mat)
          else
            v ←! py_getitem mat "kd";
            t ←! Texture2D_of_value v;
            Ok (<["kd" := VTex t]> mat));
  mat ←! (if py_in "map_ks" mat then
            v ←! py_getitem mat "map_ks";
            path ←! texture_path mtl_path v;
            t ←! load_texture2D path None (Some 3);
            Ok (<["ks" := VTex t]> mat)
          else
            v ←! py_getitem mat "ks";
            t ←! Texture2D_of_value v;
            Ok (<["ks" := VTex t]> mat));
  mat ←! (if py_in "bump" mat then
            v ←! py_getitem mat "bump";
            path ←! texture_path mtl_path v;
            t ←! load_texture2D path (Some (λ x, x * 2 - 1)%Q) (Some 3);
            Ok (<["normal" := VTex t]> mat)
          else Ok mat);
  kd ←! py_getitem mat "kd";
  kd ←! as_texture kd;
  let mat := <["kd" := VTex (srgb_to_rgb kd)]> mat in
  if clear_ks then
    ks ←! py_getitem mat "ks";
    ks ←! as_texture ks;
    ks' ←! clear_occlusion ks;
    Ok (<["ks" := VTex ks']> mat)
  else Ok mat.

Definition load_mtl (fn : string) (clear_ks : bool) : result (list material) :=
  let mtl_path := os_path_dirname fn in
  lines ←! read_lines fn;
  materials ←! parse_lines lines;
  mapM (convert_material mtl_path clear_ks) materials.

End load_mtl.

(** ** merge_materials *)

Abbreviation face := (Z * Z * Z)%type.

(** The dictionary [new_tverts] and the list [new_tverts_data]. *)
Record tverts : Type := mkTverts {
  new_tverts : gmap Z (gmap Z Z);
  new_tverts_data : list (Q * Q)
}.

(** What a call leaves behind: the returned triple, and the list
    [materials] as the caller finds it afterwards ([merge_materials] writes
    into the dictionaries it is given). *)
Record merged : Type := mkMerged {
  uber_material : material;
  ret_tverts_data : list (Q * Q);
  ret_tfaces : list face;
  materials_after : list material
}.

Section merge_materials.
Context `{!Externals}.

Definition msg_bsdf : string :=
  "All materials must have the same BSDF (uber shader)".
Definition msg_normal : string :=
  "All materials must have either normal map enabled or disabled".

(** [torch.tensor([[[[0.0, 0.0, 1.0]]]])] wrapped in a texture. *)
Definition flat_normal : Texture2D :=
  Texture2D_of_tensor (const_tensor [0%Q; 0%Q; 1%Q]).

Definition inject_normal (m : material) : result material :=
  if negb (py_in "normal" m) then
    kd ←! py_getitem m "kd";
    dev ←! data_device kd;
    Ok (<["normal" := VTex flat_normal]> m)
  else Ok m.

Definition has_norm (materials : list material) : list bool :=
  map (py_in "normal") materials.

Definition mixed_normals (materials : list material) : bool :=
  existsb id (has_norm materials) && negb (forallb id (has_norm materials)).

(** The patch loop.  It writes into the dictionaries of the list it is
    given, so what it has written stays written when a later material makes
    it raise: the result is the list as the loop leaves it, and whether the
    loop ran to its end. *)
Fixpoint patch_loop (materials : list material)
  : list material * result unit :=
  match materials with
  | [] => ([], Ok tt)
  | m :: ms =>
      match inject_normal m with
      | Ok m' => let p := patch_loop ms in (m' :: p.1, p.2)
      | Raise e => (m :: ms, Raise e)
      end
  end.

Definition normalize_normals (materials : list material)
  : result (list material) :=
  if mixed_normals materials then
    let p := patch_loop materials in
    done ←! p.2; Ok p.1
  else Ok materials.

(** The list [materials] as the caller finds it after a call, whether the
    call returned or raised: the patch is the only code that writes into
    it, and it runs right after the first assertion, before every other
    check. *)
Definition materials_left (materials : list material) : list material :=
  if mixed_normals materials then (patch_loop materials).1 else materials.

(** The truth value of [a == b] on shader tags.  Two strings are compared
    as strings; every other comparison is the platform's, and taking the
    truth value of its result can raise [RuntimeError]. *)
Definition tag_eq (a b : value) : result bool :=
  match a, b with
  | VStr x, VStr y => Ok (bool_decide (x = y))
  | _, _ => match py_eq a b with
            | Some t => Ok t
            | None => Raise RuntimeError
            end
  end.

(** The two assertions checked for every material. *)
Definition check_material (first : material) (u : unit) (mat : material)
  : result unit :=
  a ←! py_getitem mat "bsdf";
  b ←! py_getitem first "bsdf";
  same ←! tag_eq a b;
  ok ←! assert same (Some msg_bsdf);
  assert (eqb (py_in "normal" mat) (py_in "normal" first)) (Some msg_normal).

Definition textures : list string := ["kd"; "ks"; "normal"].

(** [np.array(mat[tex].getRes()) if tex in mat else np.array([1, 1])] *)
Definition tex_res (mat : material) (tex : string) : result (Z * Z) :=
  if py_in tex mat then
    v ←! py_getitem mat tex;
    t ←! as_texture v;
    Ok (getRes t)
  else Ok (1, 1).

Definition np_maximum (a b : Z * Z) : Z * Z :=
  (Z.max a.1 b.1, Z.max a.2 b.2).

Definition max_res_step (mat : material) (max_res : option (Z * Z))
  (tex : string) : result (option (Z * Z)) :=
  r ←! tex_res mat tex;
  Ok (Some (match max_res with
            | Some m => np_maximum m r
            | None => r
            end)).

Definition find_max_res (materials : list material)
  : result (option (Z * Z)) :=
  for_each (λ acc mat, for_each (max_res_step mat) textures acc)
           materials None.

(** [2 ** np.ceil(np.log2(x)).astype(np.int64)] for one component.  The
    logarithm is taken exactly and the integers are unbounded; for [x <= 0]
    the exponent becomes the most negative int64 and numpy refuses the
    negative integer power. *)
Definition pot_ceil (x : Z) : result Z :=
  if x <=? 0 then Raise ValueError else Ok (2 ^ Z.log2_up x).

Definition compute_full_res (max_res : Z * Z) (count : nat)
  : result (Z * Z) :=
  h ←! pot_ceil (max_res.1 * 1);
  w ←! pot_ceil (max_res.2 * Z.of_nat count);
  Ok (h, w).

(** One cell of the atlas: [util.scale_img_nhwc(mat[tex].data, max_res)]. *)
Definition atlas_cell (max_res : Z * Z) (tex : string) (mat : material)
  : result tensor :=
  v ←! py_getitem mat tex;
  t ←! as_texture v;
  Ok (scale_img_nhwc (data t) max_res).

(** The body of the loop that builds the merged texture of one slot. *)
Definition merge_slot (materials : list material) (max_res full_res : Z * Z)
  (uber : material) (tex : string) : result material :=
  first ←! py_index materials 0;
  if py_in tex first then
    cells ←! mapM (atlas_cell max_res tex) materials;
    tex_data ←! cat_width cells;
    Ok (<[tex := VTex (Texture2D_of_tensor
                         (_upscale_replicate tex_data full_res))]> uber)
  else Ok uber.

Definition s_coeff (max_res full_res : Z * Z) : Q * Q :=
  (inject_Z full_res.1 / inject_Z max_res.1,
   inject_Z full_res.2 / inject_Z max_res.2)%Q.

(** The coordinate appended for UV pair [tc] under material [matIdx].  The
    embedding computes in the rationals; what floating-point arithmetic
    makes of the same expression is [rounded_coord]. *)
Definition new_coord (sc : Q * Q) (matIdx : Z) (tc : Q * Q) : Q * Q :=
  ((inject_Z matIdx + tc.1) / sc.2, tc.2 / sc.1)%Q.

(** The body of the innermost loop: one corner [ti] of a face whose
    material is [matIdx]; returns the index written back into the face. *)
Definition rewrite_corner (texcoords : list (Q * Q)) (sc : Q * Q)
  (matIdx : Z) (st : tverts) (ti : Z) : result (tverts * Z) :=
  let tv := if bool_decide (is_Some (new_tverts st !! ti)) then new_tverts st
            else <[ti := ∅]> (new_tverts st) in
  let inner := default ∅ (tv !! ti) in
  if bool_decide (is_Some (inner !! matIdx)) then
    Ok (mkTverts tv (new_tverts_data st), default 0 (inner !! matIdx))
  else
    tc ←! py_index texcoords ti;
    let dat := new_tverts_data st ++ [new_coord sc matIdx tc] in
    let idx := Z.of_nat (length dat) - 1 in
    Ok (mkTverts (<[ti := <[matIdx := idx]> inner]> tv) dat, idx).

(** The body of the loop over faces. *)
Definition rewrite_face (texcoords : list (Q * Q)) (sc : Q * Q)
  (mfaces : list Z) (acc : tverts * list face) (fi : nat) (f : face)
  : result (tverts * list face) :=
  matIdx ←! py_index mfaces (Z.of_nat fi);
  '(s1, a) ←! rewrite_corner texcoords sc matIdx acc.1 f.1.1;
  '(s2, b) ←! rewrite_corner texcoords sc matIdx s1 f.1.2;
  '(s3, c) ←! rewrite_corner texcoords sc matIdx s2 f.2;
  Ok (s3, acc.2 ++ [(a, b, c)]).

Definition rewrite_faces (texcoords : list (Q * Q)) (sc : Q * Q)
  (tfaces : list face) (mfaces : list Z) : result (tverts * list face) :=
  for_enum (rewrite_face texcoords sc mfaces) 0%nat tfaces
           (mkTverts ∅ [], []).

Definition merge_materials (materials : list material)
  (texcoords : list (Q * Q)) (tfaces : list face) (mfaces : list Z)
  : result merged :=
  nonempty ←! assert (bool_decide (0 < length materials)%nat) None;
  materials ←! normalize_normals materials;
  first ←! py_index materials 0;
  checked ←! for_each (check_material first) materials tt;
  bsdf ←! py_getitem first "bsdf";
  let uber := <["bsdf" := bsdf]> {[ "name" := VStr "uber_material" ]} in
  max_res ←! find_max_res materials;
  max_res ←! match max_res with
             | Some r => Ok r
             | None => Raise TypeError
             end;
  full_res ←! compute_full_res max_res (length materials);
  uber ←! for_each (merge_slot materials max_res full_res) textures uber;
  let sc := s_coeff max_res full_res in
  '(st, tfaces') ←! rewrite_faces texcoords sc tfaces mfaces;
  Ok (mkMerged uber (new_tverts_data st) tfaces' materials).

End merge_materials.

(** ** A concrete platform, used to run the definitions on examples *)

Module Demo.

Fixpoint digits (s : string) (acc : Z) : option Z :=
  match s with
  | EmptyString => Some acc
  | String c s' =>
      let n := Z.of_nat (nat_of_ascii c) in
      if (48 <=? n) && (n <=? 57) then digits s' (10 * acc + (n - 48))
      else None
  end.

(** Unsigned decimal integers only. *)
Definition float_of (s : string) : option Q :=
  match s with
  | EmptyString => None
  | _ => inject_Z <$> digits s 0
  end.

(** A 2x2 image with [c] channels whose value encodes its position. *)
Definition image (c : Z) : tensor :=
  mkTensor 2 2 c (λ r col ch, inject_Z (100 * r + 10 * col + ch + 1)).

(** Resampling by nearest neighbour. *)
Definition nearest (x : tensor) (size : Z * Z) : tensor :=
  mkTensor size.1 size.2 (t_c x)
           (λ r c ch, t_at x (r * t_h x / size.1) (c * t_w x / size.2) ch).

Definition file : list string :=
  ["Kd 9 9 9";
   "newmtl A";
   "Kd 1 0 0";
   "Ks 5 6 7";
   "newmtl B";
   "map_Kd b.png";
   "map_Ks b_orm.png"].

#[local] Instance platform : Externals := {|
  read_lines fn := if bool_decide (fn = "scene/m.mtl") then Ok file
                   else Raise OSError;
  py_float := float_of;
  os_path_dirname fn := "scene";
  os_path_join d f := (d ++ "/" ++ f)%string;
  load_texture2D path fn ch := Ok (mkTexture2D (image (default 4 ch))
                                               [const_tensor [7%Q; 8%Q; 9%Q]]);
  srgb_to_rgb t := t;
  scale_img_nhwc := nearest;
  py_eq a b := None
|}.

(** Two materials, one without and one with a normal map, and a mesh of two
    faces over the same three UV pairs, one face per material. *)
Definition matA : material :=
  <["kd" := VTex (Texture2D_of_tensor (const_tensor [1%Q; 0%Q; 0%Q]))]>
  (<["ks" := VTex (Texture2D_of_tensor (const_tensor [0%Q; 1%Q; 0%Q]))]>
  (<["bsdf" := VStr "pbr"]> {[ "name" := VStr "A" ]})).

Definition matB : material :=
  <["normal" := VTex (Texture2D_of_tensor (image 3))]>
  (<["kd" := VTex (Texture2D_of_tensor (image 3))]>
  (<["ks" := VTex (Texture2D_of_tensor (image 3))]>
  (<["bsdf" := VStr "pbr"]> {[ "name" := VStr "B" ]}))).

Definition texcoords : list (Q * Q) := [(0, 0); (1, 0); (0, 1)]%Q.
Definition tfaces : list face := [(0, 1, 2); (0, 1, 2)].
Definition mfaces : list Z := [0; 1].

End Demo.

(** ** Vocabulary of the statements *)

Section vocabulary.
Context `{!Externals}.

(** The fields of a line, its lowercased key and its value tokens. *)
Definition line_tokens (line : string) : list string :=
  Text.re_split (Text.strip line).
Definition line_key (line : string) : string :=
  Text.lower (hd "" (line_tokens line)).
Definition line_data (line : string) : list string :=
  drop 1 (line_tokens line).

(** A line is a [newmtl] directive when its key contains that word. *)
Definition is_newmtl (line : string) : bool :=
  Text.contains "newmtl" (line_key line).

(** The test that selects the string-valued keys. *)
Definition string_valued (key : string) : bool :=
  existsb (λ k, Text.contains k key) string_keys.

(** The lines of a file cut at its [newmtl] directives: the lines before the
    first directive, and one block per directive, the directive first. *)
Fixpoint split_records (lines : list string)
  : list string * list (list string) :=
  match lines with
  | [] => ([], [])
  | l :: ls =>
      let '(pre, recs) := split_records ls in
      if is_newmtl l then ([], (l :: pre) :: recs) else (l :: pre, recs)
  end.

(** A block read on its own yields exactly the record [mat]. *)
Definition record_of (block : list string) (mat : material) : Prop :=
  parse_lines block = Ok [mat].

End vocabulary.

(** [cleared mip0 mip]: [mip] is [mip0] with channel 0 overwritten by zero. *)
Definition cleared (mip0 mip : tensor) : Prop :=
  t_h mip = t_h mip0 ∧ t_w mip = t_w mip0 ∧ t_c mip = t_c mip0 ∧
  ∀ r c ch, t_at mip r c ch = if ch =? 0 then 0%Q else t_at mip0 r c ch.

(** The three corners of a face, and the (UV index, material index) pairs
    they stand for under material [mi]. *)
Definition corners (f : face) : list Z := [f.1.1; f.1.2; f.2].
Definition face_keys (f : face) (mi : Z) : list (Z * Z) :=
  (λ ti, (ti, mi)) <$> corners f.

(** All pairs of a mesh in the order of the scan: face by face, corner by
    corner. *)
Definition corner_keys (tfaces : list face) (mfaces : list Z)
  : list (Z * Z) :=
  concat (zip_with face_keys tfaces mfaces).

(** The distinct elements of a list in the order of their first
    occurrence. *)
Definition add_new {A} `{EqDecision A} (seen : list A) (x : A) : list A :=
  if decide (x ∈ seen) then seen else seen ++ [x].
Definition distinct_in_order {A} `{EqDecision A} (l : list A) : list A :=
  foldl add_new [] l.

(** The entry of [new_tverts] for a pair. *)
Definition tv_lookup (st : tverts) (k : Z * Z) : option Z :=
  new_tverts st !! k.1 ≫= (.!! k.2).

(** Index [idx] is the position of pair [k] in the list [keys]. *)
Definition placed (keys : list (Z * Z)) (k : Z * Z) (idx : Z) : Prop :=
  ∃ n : nat, idx = Z.of_nat n ∧ keys !! n = Some k.

(** The loop invariant: [keys] are the pairs met so far, without
    repetition, in the order they were first met; [new_tverts] maps each to
    its position, where [new_tverts_data] holds its coordinate. *)
Record tv_inv (texcoords : list (Q * Q)) (sc : Q * Q) (st : tverts)
  (keys : list (Z * Z)) : Prop := {
  inv_nodup : NoDup keys;
  inv_index : ∀ k idx,
    tv_lookup st k = Some idx ↔ ∃ n : nat, keys !! n = Some k ∧ idx = Z.of_nat n;
  inv_data :
    Forall2 (λ k d, ∃ tc, py_index texcoords k.1 = Ok tc ∧
                          d = new_coord sc k.2 tc)
            keys (new_tverts_data st)
}.

(** The resolution a slot of a material counts with: that of its texture,
    1x1 without one. *)
Definition slot_resolution (mat : material) (tex : string) : Z * Z :=
  match mat !! tex with
  | Some (VTex t) => getRes t
  | _ => (1, 1)
  end.

Definition all_resolutions (materials : list material) : list (Z * Z) :=
  mat ← materials; slot_resolution mat <$> textures.

(** [r] is the element-wise maximum of the pairs in [l]. *)
Definition elementwise_max (r : Z * Z) (l : list (Z * Z)) : Prop :=
  (∀ x, x ∈ l → x.1 ≤ r.1 ∧ x.2 ≤ r.2) ∧
  (∃ x, x ∈ l ∧ x.1 = r.1) ∧ (∃ x, x ∈ l ∧ x.2 = r.2).

Definition power_of_two (n : Z) : Prop := ∃ e, 0 ≤ e ∧ n = 2 ^ e.

(** Every [kd], [ks] and [normal] entry is a texture with at least one
    pixel. *)
Definition textures_ok (mat : material) : Prop :=
  ∀ tex v, tex ∈ textures → mat !! tex = Some v →
    ∃ t, v = VTex t ∧ 0 < (getRes t).1 ∧ 0 < (getRes t).2.

(** What the patch leaves in place of a material. *)
Definition with_normal (m : material) : material :=
  if py_in "normal" m then m else <["normal" := VTex flat_normal]> m.

(** One step of the running maximum kept in [max_res]. *)
Definition max_step (acc : option (Z * Z)) (r : Z * Z) : option (Z * Z) :=
  Some (match acc with
        | Some m => np_maximum m r
        | None => r
        end).

(** A mesh the rewrite can walk: every face has a material index, and every
    corner addresses the texture-coordinate table (from the front or, with a
    negative index, from the back). *)
Definition mesh_ok (texcoords : list (Q * Q)) (tfaces : list face)
  (mfaces : list Z) : Prop :=
  (length tfaces ≤ length mfaces)%nat ∧
  ∀ f ti, f ∈ tfaces → ti ∈ corners f →
    - Z.of_nat (length texcoords) ≤ ti < Z.of_nat (length texcoords).

(** The texture built for slot [tex] of the merged material: the cells of
    all materials side by side, padded to the canvas. *)
Definition atlas_of `{!Externals} (materials : list material)
  (max_res full_res : Z * Z) (tex : string) (t : Texture2D) : Prop :=
  ∃ cells cat,
    mapM (atlas_cell max_res tex) materials = Ok cells ∧
    cat_width cells = Ok cat ∧
    t = Texture2D_of_tensor (_upscale_replicate cat full_res).

(** A computation that may fail, but never on an [assert]. *)
Definition no_assert {A} (r : result A) : Prop :=
  ∀ msg, r ≠ Raise (AssertionError msg).

(** The contract of the resampling primitive: the result has exactly the
    requested height and width. *)
Definition scale_exact `{!Externals} : Prop :=
  ∀ x size, t_h (scale_img_nhwc x size) = size.1 ∧
            t_w (scale_img_nhwc x size) = size.2.

(** Materials as the loader hands them over: a shader tag that is a
    string, and a [kd] entry that carries a tensor. *)
Definition tagged (m : material) : Prop :=
  (∃ s, m !! "bsdf" = Some (VStr s)) ∧
  ∃ v, m !! "kd" = Some v ∧ data_device v = Ok tt.

(** ** Further vocabulary of merge_materials *)

(** The materials as the patch leaves them when it runs to its end. *)
Definition normalized (materials : list material) : list material :=
  if mixed_normals materials then with_normal <$> materials else materials.

(** The resampling primitive keeps the channels of the image. *)
Definition scale_keeps_channels `{!Externals} : Prop :=
  ∀ x size, t_c (scale_img_nhwc x size) = t_c x.

(** In every slot, the textures of all materials have one channel count. *)
Definition channels_agree (materials : list material) : Prop :=
  ∀ tex m1 m2 t1 t2,
    tex ∈ textures → m1 ∈ materials → m2 ∈ materials →
    m1 !! tex = Some (VTex t1) → m2 !! tex = Some (VTex t2) →
    t_c (data t1) = t_c (data t2).

(** Shader tags that are strings. *)
Definition string_tags (materials : list material) : Prop :=
  ∀ m, m ∈ materials → ∃ s, m !! "bsdf" = Some (VStr s).

(** A rounding onto the numbers of a floating-point format: it keeps the
    order, and it keeps the integers up to [n]. *)
Definition monotone (fl : Q → Q) : Prop :=
  ∀ x y, (x <= y)%Q → (fl x <= fl y)%Q.

Definition keeps_integers (fl : Q → Q) (n : Z) : Prop :=
  ∀ z, 0 ≤ z ≤ n → (fl (inject_Z z) == inject_Z z)%Q.

(** [new_coord] as floating-point arithmetic evaluates it: every operation
    is followed by the rounding [fl]. *)
Definition rounded_coord (fl : Q → Q) (sc : Q * Q) (matIdx : Z) (tc : Q * Q)
  : Q * Q :=
  (fl (fl (inject_Z matIdx + tc.1) / sc.2), fl (tc.2 / sc.1))%Q.

(** ** Vocabulary of the further properties *)

Section more_vocabulary.
Context `{!Externals}.

(** The ways a single line can stop the parser: a [newmtl] directive
    without a name, a string-valued key without a value, a numeric key with
    a token that is not a number. *)
Inductive line_fault (materials : list material) (line : string)
  : exn → Prop :=
  | fault_no_name :
      is_newmtl line = true → line_data line = [] →
      line_fault materials line IndexError
  | fault_no_value :
      materials ≠ [] → is_newmtl line = false →
      string_valued (line_key line) = true → line_data line = [] →
      line_fault materials line IndexError
  | fault_not_a_number d :
      materials ≠ [] → is_newmtl line = false →
      string_valued (line_key line) = false →
      d ∈ line_data line → py_float d = None →
      line_fault materials line ValueError.

(** What the parser stores: a string under a string-valued key, a vector
    under any other key (the name given by [newmtl] apart). *)
Definition parsed_entry_ok (k : string) (v : value) : Prop :=
  if string_valued k then ∃ s, v = VStr s
  else (∃ qs, v = VVec qs) ∨ (k = "name" ∧ ∃ s, v = VStr s).

Definition parsed_record_ok (mat : material) : Prop :=
  ∀ k v, mat !! k = Some v → parsed_entry_ok k v.

End more_vocabulary.

(** A string made of characters that [str.strip()] removes. *)
Fixpoint all_space (s : string) : bool :=
  match s with
  | EmptyString => true
  | String c s' => Text.is_space c && all_space s'
  end.

(** A token: no character that [str.strip()] removes. *)
Fixpoint no_space (s : string) : bool :=
  match s with
  | EmptyString => true
  | String c s' => negb (Text.is_space c) && no_space s'
  end.

(** A token of printable ASCII: every character has a code from 33 to
    126, so that it is neither white space nor a character outside
    ASCII. *)
Fixpoint printable (s : string) : bool :=
  match s with
  | EmptyString => true
  | String c s' =>
      let n := nat_of_ascii c in
      ((33 <=? n) && (n <=? 126))%nat && printable s'
  end.

(** A run of [n] copies of one character. *)
Fixpoint run (c : ascii) (n : nat) : string :=
  match n with
  | O => EmptyString
  | S n' => String c (run c n')
  end.

(** A field of a line: no separator character of the split pattern. *)
Fixpoint no_sep (s : string) : bool :=
  match s with
  | EmptyString => true
  | String c s' => negb (Text.is_sep c) && no_sep s'
  end.

(** The text of a sequence of fields, each written after a run of [S n]
    copies of the separator [c]. *)
Fixpoint fields_text (fs : list (ascii * nat * string)) : string :=
  match fs with
  | [] => EmptyString
  | (c, n, tok) :: fs' => (run c (S n) ++ tok ++ fields_text fs')%string
  end.

(** The runs are runs of separators, the fields hold none, and a run that
    directly follows another one (the field between them is empty) is of a
    different character; [prev] is the separator of the run just read. *)
Fixpoint fields_wf (prev : option ascii) (fs : list (ascii * nat * string))
  : bool :=
  match fs with
  | [] => true
  | (c, n, tok) :: fs' =>
      Text.is_sep c && negb (bool_decide (prev = Some c)) && no_sep tok &&
      fields_wf (match tok with EmptyString => Some c | _ => None end) fs'
  end.

(** A second platform, whose material file has a material without [Kd]. *)
Module Samples.

Definition bare_file : list string := ["newmtl A"; "Ks 1 1 1"].

#[local] Instance platform : Externals := {|
  read_lines fn := Ok bare_file;
  py_float := Demo.float_of;
  os_path_dirname fn := "scene";
  os_path_join d f := (d ++ "/" ++ f)%string;
  load_texture2D path fn ch := Raise OSError;
  srgb_to_rgb t := t;
  scale_img_nhwc := Demo.nearest;
  py_eq a b := None
|}.

(** Carriage return and line feed. *)
Definition crlf : string := String "013" (String "010" EmptyString).

End Samples.

(** ** save_mtl *)

(** What a call leaves on disk: the chunks written to the material file,
    in order, and the texture files saved, each with its path, the object
    handed to [texture.save_texture2D] and its [lambda_fn]. *)
Record saved : Type := mkSaved {
  file_text : list string;
  texture_files : list (string * value * option (Q → Q))
}.

(** The collaborators of [save_mtl] that the loader does not use. *)
Class SaveExternals : Type := {
  (** [open(fn, "w")] *)
  open_write : string → result unit;
  (** [bool(x)] of a tensor or of a texture *)
  object_bool : value → result bool;
  (** [str(x)] of a tensor or of a texture *)
  object_str : value → string;
  (** [texture.rgb_to_srgb] *)
  rgb_to_srgb : Texture2D → Texture2D;
  (** whether [texture.save_texture2D(path, tex, lambda_fn=...)] succeeds *)
  save_texture2D : string → value → option (Q → Q) → result unit
}.

(** Effects on the disk next to the exceptions: what has been written
    stays written when a later step raises. *)
Definition io (A : Type) : Type := saved → saved * result A.

Definition io_ret {A} (a : A) : io A := λ s, (s, Ok a).

Definition io_bind {A B} (m : io A) (k : A → io B) : io B :=
  λ s, match m s with
       | (s', Ok a) => k a s'
       | (s', Raise e) => (s', Raise e)
       end.

Notation "x ←~ m ; k" := (io_bind m (λ x, k))
  (at level 20, m at level 100, k at level 200, right associativity,
   format "x  ←~  m ;  '/' k").

Definition io_lift {A} (r : result A) : io A := λ s, (s, r).

(** [f.write(chunk)] *)
Definition f_write (chunk : string) : io unit :=
  λ s, (mkSaved (file_text s ++ [chunk]) (texture_files s), Ok tt).

(** The line feed. *)
Definition nl : string := String "010" EmptyString.

Section save_mtl.
Context `{!Externals} `{!SaveExternals}.

(** [texture.save_texture2D(path, tex, lambda_fn)] *)
Definition io_save (path : string) (tex : value) (lambda_fn : option (Q → Q))
  : io unit :=
  λ s, match save_texture2D path tex lambda_fn with
       | Ok _ => (mkSaved (file_text s)
                          (texture_files s ++ [(path, tex, lambda_fn)]), Ok tt)
       | Raise e => (s, Raise e)
       end.

(** [bool(v)]: a string is true unless empty. *)
Definition py_bool (v : value) : result bool :=
  match v with
  | VStr s => Ok (negb (bool_decide (s = "")))
  | _ => object_bool v
  end.

(** [str(v)], as an f-string inserts it. *)
Definition py_format (v : value) : string :=
  match v with
  | VStr s => s
  | _ => object_str v
  end.

(** The condition [material and material.get(key)]: [None] and the empty
    dictionary are false, a missing key gives [None]. *)
Definition has_entry (material : option material) (key : string)
  : result bool :=
  match material with
  | None => Ok false
  | Some m =>
      if bool_decide (size m = 0%nat) then Ok false
      else match m !! key with
           | None => Ok false
           | Some v => py_bool v
           end
  end.

(** [material[key]] *)
Definition subscript (material : option material) (key : string)
  : result value :=
  match material with
  | None => Raise TypeError
  | Some m => py_getitem m key
  end.

Definition save_mtl_body (fn : string) (material : option material)
  : io unit :=
  let folder := os_path_dirname fn in
  _ ←~ io_lift (open_write fn);
  _ ←~ f_write ("newmtl defaultMat" ++ nl)%string;
  b ←~ io_lift (has_entry material "bsdf");
  _ ←~ (if b : bool then
          v ←~ io_lift (subscript material "bsdf");
          f_write ("bsdf " ++ py_format v ++ nl)%string
        else io_ret tt);
  b ←~ io_lift (has_entry material "kd");
  _ ←~ (if b : bool then
          _ ←~ f_write ("map_Kd texture_kd.png" ++ nl)%string;
          kd ←~ io_lift (subscript material "kd");
          kd ←~ io_lift (as_texture kd);
          io_save (os_path_join folder "texture_kd.png")
                  (VTex (rgb_to_srgb kd)) None
        else f_write ("Kd 1 1 1" ++ nl)%string);
  _ ←~ f_write ("Ka 0 0 0" ++ nl)%string;
  b ←~ io_lift (has_entry material "ks");
  _ ←~ (if b : bool then
          _ ←~ f_write ("map_Ks texture_ks.png" ++ nl)%string;
          ks ←~ io_lift (subscript material "ks");
          io_save (os_path_join folder "texture_ks.png") ks None
        else f_write ("Ks 0 0 0" ++ nl)%string);
  _ ←~ f_write ("Ns 0" ++ nl)%string;
  _ ←~ f_write ("Ni 1" ++ nl)%string;
  _ ←~ f_write ("Tf 1 1 1" ++ nl)%string;
  b ←~ io_lift (has_entry material "normal");
  if b : bool then
    _ ←~ f_write ("bump texture_n.png" ++ nl)%string;
    n ←~ io_lift (subscript material "normal");
    io_save (os_path_join folder "texture_n.png") n
            (Some (λ x, (x + 1) * (1 # 2))%Q)
  else io_ret tt.

(** [save_mtl(fn, material)]: what the call leaves on disk, and whether it
    returns or raises. *)
Definition save_mtl (fn : string) (material : option material)
  : saved * result unit :=
  save_mtl_body fn material (mkSaved [] []).

End save_mtl.

(** ** Vocabulary of the statements on save_mtl *)

(** The shader tag a material is saved with. *)
Definition saved_tag (material : option material) : option string :=
  match material with
  | Some m =>
      match m !! "bsdf" with
      | Some (VStr tag) => if bool_decide (tag = "") then None else Some tag
      | _ => None
      end
  | None => None
  end.

(** The lines of a material file with the given shader tag and texture
    references. *)
Definition mtl_lines (tag : option string) (kd ks normal : bool)
  : list string :=
  [("newmtl defaultMat" ++ nl)%string] ++
  match tag with Some t => [("bsdf " ++ t ++ nl)%string] | None => [] end ++
  [if kd then ("map_Kd texture_kd.png" ++ nl)%string
   else ("Kd 1 1 1" ++ nl)%string;
   ("Ka 0 0 0" ++ nl)%string;
   if ks then ("map_Ks texture_ks.png" ++ nl)%string
   else ("Ks 0 0 0" ++ nl)%string;
   ("Ns 0" ++ nl)%string;
   ("Ni 1" ++ nl)%string;
   ("Tf 1 1 1" ++ nl)%string] ++
  (if normal then [("bump texture_n.png" ++ nl)%string] else []).

(** The record the parser makes of such a file; [q0] and [q1] are the
    numbers [float] reads from "0" and "1". *)
Definition reread (tag : option string) (kd ks normal : bool) (q0 q1 : Q)
  : material :=
  let m : material := {[ "name" := VStr "defaultMat" ]} in
  let m := match tag with Some t => <["bsdf" := VStr t]> m | None => m end in
  let m := if kd then <["map_kd" := VStr "texture_kd.png"]> m
           else <["kd" := VVec [q1; q1; q1]]> m in
  let m := <["ka" := VStr "0"]> m in
  let m := if ks then <["map_ks" := VStr "texture_ks.png"]> m
           else <["ks" := VVec [q0; q0; q0]]> m in
  let m := <["ns" := VStr "0"]> m in
  let m := <["ni" := VVec [q1]]> m in
  let m := <["tf" := VVec [q1; q1; q1]]> m in
  if normal then <["bump" := VStr "texture_n.png"]> m else m.

(** A shader tag that survives the trip through a file: a string of
    printable ASCII characters. *)
Definition plain_tag (material : option material) : Prop :=
  ∀ m v, material = Some m → m !! "bsdf" = Some v →
    ∃ tag, v = VStr tag ∧ printable tag = true.

(** A parsed record the conversion loop can complete: colour and specular
    entries are given as a constant or as a readable texture file, and a
    bump map, if named, is readable. *)
Definition loadable `{!Externals} (mtl_path : string) (p : material) : Prop :=
  ((∃ name t, p !! "map_kd" = Some (VStr name) ∧
              load_texture2D (os_path_join mtl_path name) None None = Ok t) ∨
   (p !! "map_kd" = None ∧ ∃ c, p !! "kd" = Some (VVec c))) ∧
  ((∃ name t, p !! "map_ks" = Some (VStr name) ∧
              load_texture2D (os_path_join mtl_path name) None (Some 3) = Ok t ∧
              Forall (λ mip, 0 < t_c mip) (getMips t)) ∨
   (p !! "map_ks" = None ∧ ∃ c, p !! "ks" = Some (VVec c) ∧ c ≠ [])) ∧
  (p !! "bump" = None ∨
   ∃ name t, p !! "bump" = Some (VStr name) ∧
             load_texture2D (os_path_join mtl_path name)
                            (Some (λ x, x * 2 - 1)%Q) (Some 3) = Ok t).

(** The lines of a material file that name a texture file, and those among
    the lines of a file. *)
Definition texture_lines : list string :=
  [("map_Kd texture_kd.png" ++ nl)%string;
   ("map_Ks texture_ks.png" ++ nl)%string;
   ("bump texture_n.png" ++ nl)%string].

Definition is_texture_line (line : string) : bool :=
  existsb (String.eqb line) texture_lines.

Definition references (lines : list string) : list string :=
  List.filter is_texture_line lines.

(** A disk that takes every file, and a platform that finds on it the
    material file written for [Demo.matB]. *)
Module SaveDemo.

#[local] Instance disk : SaveExternals := {|
  open_write fn := Ok tt;
  object_bool v := Ok true;
  object_str v := "object";
  rgb_to_srgb t := t;
  save_texture2D path v lambda_fn :=
    match v with
    | VTex _ => Ok tt
    | _ => Raise AttributeError
    end
|}.

#[local] Instance reader : Externals := {|
  read_lines fn :=
    Ok (file_text (@save_mtl Demo.platform disk fn (Some Demo.matB)).1);
  py_float := Demo.float_of;
  os_path_dirname fn := "scene";
  os_path_join d f := (d ++ "/" ++ f)%string;
  load_texture2D path fn ch :=
    Ok (mkTexture2D (Demo.image (default 4 ch))
                    [const_tensor [7%Q; 8%Q; 9%Q]]);
  srgb_to_rgb t := t;
  scale_img_nhwc := Demo.nearest;
  py_eq a b := None
|}.

(** A material whose [ks] is the name of a file, not a texture. *)
Definition by_name : material :=
  <["ks" := VStr "ks.png"]> {[ "bsdf" := VStr "pbr" ]}.

End SaveDemo.

(** * Stripping and splitting text *)


Lemma append_cons c (s t : string) :
  (String c s ++ t)%string = String c (s ++ t)%string.
Proof. reflexivity. Qed.

Lemma append_nil_l (t : string) : ("" ++ t)%string = t.
Proof. reflexivity. Qed.

Lemma append_nil_r (s : string) : (s ++ "")%string = s.
Proof.
  induction s as [|c s IH]; [done|]. by rewrite append_cons, IH.
Qed.

Lemma append_assoc (a b c : string) :
  ((a ++ b) ++ c)%string = (a ++ (b ++ c))%string.
Proof.
  induction a as [|x a IH]; [done|]. by rewrite !append_cons, IH.
Qed.

Lemma lstrip_all_space s : all_space s = true → Text.lstrip s = "".
Proof.
  induction s as [|c s IH]; [done|]. cbn.
  intros [Hc Hs]%andb_true_iff. rewrite Hc. by apply IH.
Qed.

Lemma rstrip_all_space s : all_space s = true → Text.rstrip s = "".
Proof.
  induction s as [|c s IH]; [done|]. cbn.
  intros [Hc Hs]%andb_true_iff. by rewrite IH, Hc.
Qed.

Lemma lstrip_app pre s :
  all_space pre = true → Text.lstrip (pre ++ s)%string = Text.lstrip s.
Proof.
  induction pre as [|c pre IH]; [done|]. rewrite append_cons. cbn.
  intros [Hc Hs]%andb_true_iff. rewrite Hc. by apply IH.
Qed.

Lemma rstrip_app s post :
  all_space post = true → Text.rstrip (s ++ post)%string = Text.rstrip s.
Proof.
  intros Hpost. induction s as [|c s IH].
  - by apply rstrip_all_space.
  - rewrite append_cons. cbn. by rewrite IH.
Qed.

Lemma rstrip_lstrip_app s post :
  all_space post = true →
  Text.rstrip (Text.lstrip (s ++ post)%string) = Text.rstrip (Text.lstrip s).
Proof.
  intros Hpost. induction s as [|c s IH].
  - rewrite append_nil_l. by rewrite lstrip_all_space.
  - rewrite append_cons. cbn [Text.lstrip].
    destruct (Text.is_space c); [done|].
    rewrite <- append_cons. by apply rstrip_app.
Qed.

Lemma strip_app pre s post :
  all_space pre = true → all_space post = true →
  Text.strip (pre ++ s ++ post)%string = Text.strip s.
Proof.
  intros Hpre Hpost. unfold Text.strip.
  rewrite lstrip_app by done. by apply rstrip_lstrip_app.
Qed.

Lemma rstrip_no_space v :
  no_space v = true → Text.rstrip v = v.
Proof.
  induction v as [|c v IH]; [done|]. cbn.
  intros [Hc Hv]%andb_true_iff. rewrite IH by done.
  apply negb_true_iff in Hc. rewrite Hc. by destruct v.
Qed.

Lemma rstrip_app_token s v :
  no_space v = true → v ≠ "" → Text.rstrip (s ++ v)%string = (s ++ v)%string.
Proof.
  intros Hv Hne. induction s as [|c s IH].
  - by apply rstrip_no_space.
  - rewrite append_cons. cbn. rewrite IH.
    destruct (s ++ v)%string eqn:Hsv; [|done].
    destruct s; [|done]. by destruct v.
Qed.

Lemma no_space_no_sep s : no_space s = true → no_sep s = true.
Proof.
  induction s as [|c s IH]; [done|]. cbn.
  intros [Hc Hs]%andb_true_iff. rewrite IH by done.
  rewrite andb_true_r. apply negb_true_iff. apply negb_true_iff in Hc.
  revert Hc. unfold Text.is_space, Text.is_sep. cbv zeta.
  generalize (nat_of_ascii c) as n. intros n Hc.
  destruct (Nat.eqb_spec n 32) as [->|H32]; [by cbn in Hc|].
  destruct (Nat.eqb_spec n 9) as [->|H9]; [by cbn in Hc|].
  destruct (Nat.eqb_spec n 10) as [->|H10]; [by cbn in Hc|].
  done.
Qed.

Lemma printable_no_space s : printable s = true → no_space s = true.
Proof.
  induction s as [|c s IH]; [done|]. cbn [printable no_space]. cbv zeta.
  intros [[Hlo Hhi]%andb_true_iff Hs]%andb_true_iff.
  rewrite IH by done. rewrite andb_true_r. apply negb_true_iff.
  apply Nat.leb_le in Hlo. apply Nat.leb_le in Hhi.
  unfold Text.is_space. cbv zeta.
  repeat (apply orb_false_intro); try (apply andb_false_iff).
  - right. apply Nat.leb_gt. lia.
  - right. apply Nat.leb_gt. lia.
  - apply Nat.eqb_neq. lia.
  - apply Nat.eqb_neq. lia.
Qed.

Lemma rev_string_spec acc s :
  Text.rev_string acc s = (string_of_list_ascii (rev acc) ++ s)%string.
Proof.
  revert s. induction acc as [|c acc IH]; intros s; [done|].
  cbn [Text.rev_string rev]. rewrite IH.
  clear IH. induction (rev acc) as [|x l IH]; [done|].
  cbn [app string_of_list_ascii]. by rewrite !append_cons, IH.
Qed.

Lemma rev_string_token tok :
  Text.rev_string (rev (list_ascii_of_string tok)) "" = tok.
Proof.
  rewrite rev_string_spec, rev_involutive, append_nil_r.
  apply string_of_list_ascii_of_string.
Qed.

Lemma split_go_token tok prev cur s :
  no_sep tok = true →
  Text.split_go prev cur (tok ++ s)%string =
  Text.split_go (match tok with EmptyString => prev | _ => None end)
                (rev (list_ascii_of_string tok) ++ cur) s.
Proof.
  revert prev cur. induction tok as [|a tok IH]; intros prev cur; [done|].
  rewrite append_cons.
  cbn [no_sep Text.split_go list_ascii_of_string rev].
  intros [Ha Htok]%andb_true_iff. apply negb_true_iff in Ha. rewrite Ha.
  rewrite IH by done. rewrite <- app_assoc. cbn [app]. by destruct tok.
Qed.

Lemma split_go_run c n cur s :
  Text.is_sep c = true →
  Text.split_go (Some c) cur (run c n ++ s)%string =
  Text.split_go (Some c) cur s.
Proof.
  intros Hc. induction n as [|n IH]; [done|].
  cbn [run]. rewrite append_cons. cbn [Text.split_go]. rewrite Hc.
  by rewrite bool_decide_eq_true_2.
Qed.

Lemma split_go_sep prev c n cur s :
  Text.is_sep c = true → prev ≠ Some c →
  Text.split_go prev cur (run c (S n) ++ s)%string =
  Text.rev_string cur "" :: Text.split_go (Some c) [] s.
Proof.
  intros Hc Hprev. cbn [run]. rewrite append_cons. cbn [Text.split_go].
  rewrite Hc.
  rewrite bool_decide_eq_false_2 by done. by rewrite split_go_run.
Qed.

Lemma split_go_fields fs prev tok :
  fields_wf prev fs = true →
  Text.split_go prev (rev (list_ascii_of_string tok)) (fields_text fs) =
  tok :: map snd fs.
Proof.
  revert prev tok. induction fs as [|[[c n] t] fs IH]; intros prev tok.
  - intros _. cbn. by rewrite rev_string_token.
  - cbn [fields_wf fields_text map snd].
    intros [[[Hc Hprev]%andb_true_iff Ht]%andb_true_iff Hwf]%andb_true_iff.
    apply negb_true_iff, bool_decide_eq_false in Hprev.
    rewrite split_go_sep, rev_string_token by done.
    rewrite split_go_token by done. rewrite app_nil_r.
    f_equal. apply IH. by destruct t.
Qed.

Lemma re_split_fields first fs :
  no_sep first = true → fields_wf None fs = true →
  Text.re_split (first ++ fields_text fs)%string = first :: map snd fs.
Proof.
  intros Hfirst Hwf. unfold Text.re_split.
  rewrite split_go_token by done. rewrite app_nil_r.
  apply split_go_fields. by destruct first.
Qed.
(** * Properties *)

(** ** The error monad *)

Lemma rbind_Ok {A B} (r : result A) (k : A → result B) (b : B) :
  rbind r k = Ok b ↔ ∃ a, r = Ok a ∧ k a = Ok b.
Proof.
  destruct r as [a|e]; simpl; split.
  - eauto.
  - intros (a' & [= ->] & Hk). exact Hk.
  - discriminate.
  - intros (a' & Hr & _). discriminate.
Qed.

Lemma Ok_inj {A} (a b : A) : Ok a = Ok b → a = b.
Proof. by intros [= ->]. Qed.

Lemma assert_Ok (b : bool) (msg : option string) (u : unit) :
  assert b msg = Ok u ↔ b = true.
Proof. destruct b, u; simpl; split; congruence. Qed.

Ltac inv_ok :=
  repeat match goal with
  | H : rbind _ _ = Ok _ |- _ =>
      let a := fresh "a" in
      let Ha := fresh "Ha" in
      apply rbind_Ok in H as (a & Ha & H)
  | H : Ok _ = Ok _ |- _ => apply Ok_inj in H
  | H : Raise _ = Ok _ |- _ => discriminate H
  | H : match ?x with (_, _) => _ end = Ok _ |- _ => destruct x
  end.

Lemma py_index_0_cons {A} (x : A) (l : list A) : py_index (x :: l) 0 = Ok x.
Proof.
  unfold py_index. cbv zeta. cbn [length]. change (0 <? 0) with false.
  cbn [orb].
  destruct (Z.leb_spec (Z.of_nat (S (length l))) 0) as [Hle|_]; [lia|].
  reflexivity.
Qed.

Lemma py_index_0_nil {A} : py_index (@nil A) 0 = Raise IndexError.
Proof. reflexivity. Qed.

Lemma py_index_nat {A} (l : list A) (i : nat) :
  py_index l (Z.of_nat i) =
  match l !! i with Some x => Ok x | None => Raise IndexError end.
Proof.
  unfold py_index. cbv zeta.
  replace (Z.of_nat i <? 0) with false by (symmetry; apply Z.ltb_ge; lia).
  replace (Z.of_nat i <? 0) with false by (symmetry; apply Z.ltb_ge; lia).
  cbn [orb]. rewrite Nat2Z.id.
  destruct (Z.leb_spec (Z.of_nat (length l)) (Z.of_nat i)) as [Hle|Hlt].
  - rewrite lookup_ge_None_2 by lia. reflexivity.
  - reflexivity.
Qed.

Lemma py_index_0 {A} (l : list A) :
  py_index l 0 =
  match l !! 0%nat with Some x => Ok x | None => Raise IndexError end.
Proof. apply (py_index_nat l 0). Qed.

Lemma mapM_Ok {A B} (f : A → result B) (l : list A) (l' : list B) :
  mapM f l = Ok l' ↔ Forall2 (λ x y, f x = Ok y) l l'.
Proof.
  revert l'. induction l as [|x l IH]; intros l'; simpl.
  - split.
    + intros [= <-]. constructor.
    + intros Hf. inversion Hf. reflexivity.
  - rewrite rbind_Ok. split.
    + intros (y & Hy & Hrest). apply rbind_Ok in Hrest as (ys & Hys & [= <-]).
      constructor; [assumption|]. by apply IH.
    + intros Hf. inversion Hf as [|? y ? ys Hy Hys]; subst.
      exists y. split; [assumption|]. apply IH in Hys. by rewrite Hys.
Qed.

(** ** The parser *)

Section parser.
Context `{!Externals}.

Lemma split_go_nonempty prev cur s : Text.split_go prev cur s ≠ [].
Proof.
  revert prev cur. induction s as [|c s IH]; intros prev cur; simpl.
  - discriminate.
  - destruct (Text.is_sep c); [case_bool_decide|]; try apply IH; discriminate.
Qed.

Lemma line_tokens_cons line :
  line_tokens line = hd "" (line_tokens line) :: drop 1 (line_tokens line).
Proof.
  unfold line_tokens, Text.re_split.
  pose proof (split_go_nonempty None [] (Text.strip line)) as Hne.
  destruct (Text.split_go None [] (Text.strip line)); [done|].
  simpl. by rewrite drop_0.
Qed.

(** The loop body, phrased over the fields of the line. *)
Lemma parse_line_eq materials line :
  parse_line materials line =
  if is_newmtl line then
    name ←! py_index (line_data line) 0;
    Ok (materials ++ [ {[ "name" := VStr name ]} ])
  else if bool_decide (materials ≠ []) then
    if string_valued (line_key line) then
      d0 ←! py_index (line_data line) 0;
      Ok (set_current (line_key line) (VStr d0) materials)
    else
      v ←! mapM to_float (line_data line);
      Ok (set_current (line_key line) (VVec v) materials)
  else Ok materials.
Proof.
  unfold parse_line, is_newmtl, string_valued, line_key, line_data.
  cbv zeta. fold (line_tokens line). rewrite (line_tokens_cons line) at 1.
  rewrite py_index_0_cons. reflexivity.
Qed.

Lemma set_current_snoc key v rest (cur : material) :
  set_current key v (rest ++ [cur]) = rest ++ [<[key := v]> cur].
Proof.
  unfold set_current. rewrite length_app. cbn [length].
  replace (pred (length rest + 1)) with (length rest + 0)%nat by lia.
  rewrite alter_app_r. reflexivity.
Qed.

Lemma nonempty_snoc {A} (l : list A) :
  l ≠ [] → ∃ rest cur, l = rest ++ [cur].
Proof.
  intros Hne. destruct (decide (l = [])) as [|_]; [done|].
  induction l as [|x l IH] using rev_ind; [done|]. eauto.
Qed.

Lemma parse_line_length materials line materials' :
  parse_line materials line = Ok materials' →
  length materials' =
    (length materials + if is_newmtl line then 1 else 0)%nat.
Proof.
  rewrite parse_line_eq. destruct (is_newmtl line).
  - intros Hp. inv_ok. subst. rewrite length_app. reflexivity.
  - case_bool_decide as Hne; [|intros [= <-]; lia].
    unfold set_current.
    destruct (string_valued (line_key line)); intros Hp; inv_ok; subst;
      rewrite length_alter; lia.
Qed.

(** Records read earlier are out of reach of the loop body. *)
Lemma parse_line_frame pre materials line :
  materials ≠ [] →
  parse_line (pre ++ materials) line =
  (r ←! parse_line materials line; Ok (pre ++ r)).
Proof.
  intros Hne. rewrite !parse_line_eq.
  destruct (is_newmtl line).
  - destruct (py_index (line_data line) 0); simpl; [|done].
    by rewrite <- app_assoc.
  - rewrite !bool_decide_eq_true_2; [|done|by destruct pre].
    destruct (nonempty_snoc materials Hne) as (rest & cur & ->).
    rewrite app_assoc.
    destruct (string_valued (line_key line)).
    + destruct (py_index (line_data line) 0); simpl; [|done].
      by rewrite !set_current_snoc, app_assoc.
    + destruct (mapM to_float (line_data line)); simpl; [|done].
      by rewrite !set_current_snoc, app_assoc.
Qed.

Lemma parse_lines_frame lines pre materials :
  materials ≠ [] →
  for_each parse_line lines (pre ++ materials) =
  (r ←! for_each parse_line lines materials; Ok (pre ++ r)).
Proof.
  revert materials. induction lines as [|l ls IH]; intros materials Hne.
  - reflexivity.
  - cbn [for_each]. rewrite parse_line_frame by done.
    destruct (parse_line materials l) as [m1|e] eqn:Hl; simpl; [|done].
    apply IH. apply parse_line_length in Hl.
    destruct m1; [|done]. destruct materials; [done|]. simpl in Hl. lia.
Qed.

Lemma split_records_pre lines :
  Forall (λ l, is_newmtl l = false) (split_records lines).1.
Proof.
  induction lines as [|l ls IH]; simpl; [constructor|].
  destruct (split_records ls) as [pre recs]. simpl in IH.
  destruct (is_newmtl l) eqn:Hl; simpl; [constructor|]. by constructor.
Qed.

Lemma split_records_blocks lines :
  Forall (λ block, ∃ l body, block = l :: body ∧ is_newmtl l = true ∧
                             Forall (λ l, is_newmtl l = false) body)
         (split_records lines).2.
Proof.
  induction lines as [|l ls IH]; simpl; [constructor|].
  pose proof (split_records_pre ls) as Hpre.
  destruct (split_records ls) as [pre recs]. simpl in *.
  destruct (is_newmtl l) eqn:Hl; simpl; [|done].
  constructor; [|done]. eauto.
Qed.

Lemma split_records_count lines :
  length (split_records lines).2 =
  length (filter (λ l, is_newmtl l = true) lines).
Proof.
  induction lines as [|l ls IH]; simpl; [done|].
  destruct (split_records ls) as [pre recs]. simpl in IH.
  destruct (is_newmtl l) eqn:Hl; simpl.
  - rewrite filter_cons_True by done. simpl. by rewrite IH.
  - rewrite filter_cons_False by congruence. done.
Qed.

(** Lines that are not directives leave the number of records alone, and
    without a record to write to they do nothing at all. *)
Lemma parse_plain_nil lines :
  Forall (λ l, is_newmtl l = false) lines →
  for_each parse_line lines [] = Ok [].
Proof.
  induction 1 as [|l ls Hl _ IH]; [done|].
  cbn [for_each]. rewrite parse_line_eq, Hl. simpl. exact IH.
Qed.

Lemma parse_plain_single lines (m0 : material) materials' :
  Forall (λ l, is_newmtl l = false) lines →
  for_each parse_line lines [m0] = Ok materials' →
  ∃ m, materials' = [m] ∧
       dom m = dom m0 ∪ list_to_set (line_key <$> lines).
Proof.
  intros Hplain. revert m0.
  induction Hplain as [|l ls Hl _ IH]; intros m0 Hp.
  - injection Hp as Hp. subst. exists m0. split; [done|].
    simpl. by rewrite (right_id_L ∅ (∪)).
  - cbn [for_each] in Hp. apply rbind_Ok in Hp as (m1 & H1 & Hp).
    rewrite parse_line_eq, Hl in H1. rewrite bool_decide_eq_true_2 in H1 by done.
    assert (∃ v, m1 = [<[line_key l := v]> m0]) as (v & ->).
    { destruct (string_valued (line_key l)); inv_ok; subst;
        eexists; apply (set_current_snoc _ _ []). }
    apply IH in Hp as (m & -> & Hdom). exists m. split; [done|].
    rewrite Hdom, dom_insert_L, fmap_cons, list_to_set_cons.
    rewrite (comm_L (∪) {[line_key l]} (dom m0)). by rewrite (assoc_L (∪)).
Qed.

(** Reading on from a non-empty state: the pending lines up to the next
    directive extend the state, every later block adds its own record. *)
Lemma parse_lines_blocks lines materials result :
  materials ≠ [] →
  for_each parse_line lines materials = Ok result →
  ∃ materials' rest,
    for_each parse_line (split_records lines).1 materials = Ok materials' ∧
    result = materials' ++ rest ∧
    Forall2 record_of (split_records lines).2 rest.
Proof.
  revert materials result.
  induction lines as [|l ls IH]; intros materials result Hne Hp.
  - injection Hp as <-. exists materials, []. simpl.
    rewrite app_nil_r. repeat split. constructor.
  - cbn [for_each] in Hp. apply rbind_Ok in Hp as (m1 & H1 & Hp).
    pose proof (split_records_pre ls) as Hpre.
    simpl. destruct (split_records ls) as [pre recs] eqn:Hsr. simpl in *.
    destruct (is_newmtl l) eqn:Hl.
    + pose proof H1 as H1'. rewrite parse_line_eq, Hl in H1'.
      apply rbind_Ok in H1' as (name & Hname & [= <-]).
      rewrite parse_lines_frame in Hp by done.
      apply rbind_Ok in Hp as (r & Hr & [= <-]).
      apply IH in Hr as (m' & rest & Hm' & -> & Hrest); [|done].
      apply parse_plain_single in Hm' as Hsingle; [|done].
      destruct Hsingle as (m & -> & _).
      exists materials, (m :: rest). simpl. repeat split.
      constructor; [|done].
      unfold record_of, parse_lines. cbn [for_each].
      rewrite parse_line_eq, Hl, Hname. simpl. exact Hm'.
    + assert (m1 ≠ []) as Hne1.
      { apply parse_line_length in H1. rewrite Hl in H1.
        destruct m1; [|done]. destruct materials; [done|]. simpl in H1. lia. }
      destruct (IH _ _ Hne1 Hp) as (m' & rest & Hm' & -> & Hrest).
      exists m', rest. simpl. rewrite H1. simpl. done.
Qed.

Lemma parse_lines_records lines result :
  parse_lines lines = Ok result →
  Forall2 record_of (split_records lines).2 result.
Proof.
  unfold parse_lines. revert result.
  induction lines as [|l ls IH]; intros result Hp.
  - injection Hp as <-. constructor.
  - cbn [for_each] in Hp. apply rbind_Ok in Hp as (m1 & H1 & Hp).
    pose proof (split_records_pre ls) as Hpre.
    simpl. destruct (split_records ls) as [pre recs] eqn:Hsr. simpl in *.
    destruct (is_newmtl l) eqn:Hl.
    + pose proof H1 as H1'. rewrite parse_line_eq, Hl in H1'.
      apply rbind_Ok in H1' as (name & Hname & [= <-]). simpl in Hp.
      apply parse_lines_blocks in Hp as (m' & rest & Hm' & -> & Hrest); [|done].
      rewrite Hsr in Hm', Hrest. simpl in Hm', Hrest.
      apply parse_plain_single in Hm' as Hsingle; [|done].
      destruct Hsingle as (m & -> & _). simpl.
      constructor; [|done].
      unfold record_of, parse_lines. cbn [for_each].
      rewrite parse_line_eq, Hl, Hname. simpl. exact Hm'.
    + rewrite parse_line_eq, Hl in H1. simpl in H1. injection H1 as <-.
      by apply IH.
Qed.

Lemma record_of_dom l body mat :
  is_newmtl l = true →
  Forall (λ l, is_newmtl l = false) body →
  record_of (l :: body) mat →
  dom mat = {["name"]} ∪ list_to_set (line_key <$> body).
Proof.
  intros Hl Hbody. unfold record_of, parse_lines. cbn [for_each].
  rewrite parse_line_eq, Hl. intros Hp.
  apply rbind_Ok in Hp as (m1 & H1 & Hp).
  apply rbind_Ok in H1 as (name & Hname & [= <-]). simpl in Hp.
  apply parse_plain_single in Hp as (m & [= <-] & Hdom); [|done].
  rewrite Hdom, dom_singleton_L. done.
Qed.

Lemma for_each_app {A S} (body : S → A → result S) (l1 l2 : list A) (s : S) :
  for_each body (l1 ++ l2) s = (s' ←! for_each body l1 s; for_each body l2 s').
Proof.
  revert s. induction l1 as [|x l1 IH]; intros s; simpl; [done|].
  destruct (body s x); simpl; [apply IH|done].
Qed.

Lemma is_prefix_refl s : Text.is_prefix s s = true.
Proof.
  induction s as [|c s IH]; simpl; [done|].
  by rewrite bool_decide_eq_true_2.
Qed.

Lemma contains_refl s : Text.contains s s = true.
Proof. destruct s; simpl; [done|]. by rewrite bool_decide_eq_true_2, is_prefix_refl. Qed.

Lemma is_prefix_spec p s :
  Text.is_prefix p s = true ↔ ∃ t, s = (p ++ t)%string.
Proof.
  revert s. induction p as [|a p IH]; intros s; simpl.
  - split; [eauto|done].
  - destruct s as [|b s].
    + split; [done|]. by intros [t [=]].
    + rewrite andb_true_iff, bool_decide_eq_true, IH. split.
      * intros [-> [t ->]]. eauto.
      * intros [t [= -> ->]]. eauto.
Qed.

(** [Text.contains] is the substring test. *)
Lemma contains_spec needle hay :
  Text.contains needle hay = true ↔
  ∃ before after, hay = (before ++ needle ++ after)%string.
Proof.
  induction hay as [|c hay IH].
  - simpl. rewrite orb_false_r, is_prefix_spec. split.
    + intros [t Ht]. exists EmptyString, t. exact Ht.
    + intros ([|b before] & after & Heq); [eauto|]. discriminate.
  - cbn [Text.contains]. rewrite orb_true_iff, is_prefix_spec, IH. split.
    + intros [[t Ht]|(before & after & ->)].
      * exists EmptyString, t. exact Ht.
      * exists (String c before), after. reflexivity.
    + intros ([|b before] & after & Heq); [left; eauto|].
      right. injection Heq as -> ->. eauto.
Qed.

Lemma string_valued_spec key :
  string_valued key = true ↔
  ∃ k, k ∈ string_keys ∧ Text.contains k key = true.
Proof.
  unfold string_valued. rewrite existsb_exists.
  by setoid_rewrite list_elem_of_In.
Qed.

(** C8 (amended).  On a key-value line that follows a [newmtl] directive the
    value is stored under the lowercased key of the line, in the record read
    last.  It is the first field after the key, kept as a string, exactly
    when the key contains one of the names bsdf, map_kd, map_ks, bump,
    map_ns, ns, ka, refl as a substring (each of these names itself
    included); otherwise it is the vector of all fields after the key read
    as numbers.  The fields are those of the stripped line split at its
    runs of spaces, of tabs and of newlines: a run of one separator
    character ends a field, and two runs of different characters next to
    each other enclose an empty field, so that the first field after the
    key is the first token where one run separates it from the key and the
    empty string where a run of spaces is followed by a run of tabs. *)
Theorem string_valued_by_substring materials line materials' :
  materials ≠ [] →
  is_newmtl line = false →
  parse_line materials line = Ok materials' →
  (string_valued (line_key line) = true ↔
     ∃ k before after, k ∈ string_keys ∧
                       line_key line = (before ++ k ++ after)%string) ∧
  (line_key line ∈ string_keys → string_valued (line_key line) = true) ∧
  (∃ rest cur v,
    materials = rest ++ [cur] ∧
    materials' = rest ++ [<[line_key line := v]> cur] ∧
    if string_valued (line_key line)
    then ∃ d0, head (line_data line) = Some d0 ∧ v = VStr d0
    else ∃ qs, v = VVec qs ∧
               Forall2 (λ d q, py_float d = Some q) (line_data line) qs) ∧
  (∀ first fs,
     Text.strip line = (first ++ fields_text fs)%string →
     no_sep first = true → fields_wf None fs = true →
     line_key line = Text.lower first ∧ line_data line = map snd fs).
Proof.
  intros Hne Hl Hp. split; [|split; [|split]].
  4: { intros first fs Hstrip Hfirst Hwf.
       unfold line_key, line_data, line_tokens.
       by rewrite Hstrip, re_split_fields. }
  - rewrite string_valued_spec. split.
    + intros (k & Hk & Hc). apply contains_spec in Hc as (b & a & Hc). eauto 6.
    + intros (k & b & a & Hk & Hc). exists k. split; [done|].
      apply contains_spec. eauto.
  - intros Hin. apply string_valued_spec. eauto using contains_refl.
  - destruct (nonempty_snoc materials Hne) as (rest & cur & ->).
    rewrite parse_line_eq, Hl in Hp.
    rewrite bool_decide_eq_true_2 in Hp by done.
    exists rest, cur.
    destruct (string_valued (line_key line)); inv_ok; subst.
    + exists (VStr a). rewrite set_current_snoc. repeat split.
      exists a. split; [|done].
      destruct (line_data line) as [|d0 ds]; [done|].
      rewrite py_index_0_cons in Ha. by injection Ha as ->.
    + exists (VVec a). rewrite set_current_snoc. repeat split.
      exists a. split; [done|]. apply mapM_Ok in Ha.
      eapply Forall2_impl; [exact Ha|]. intros d q. unfold to_float.
      destruct (py_float d); [|done]. by intros [= ->].
Qed.

End parser.

(** C8 (as stated) fails: the key [map_bump] is none of the eight names and
    its tokens are numbers, yet the first token is stored as a string. *)
Lemma map_bump_stored_as_string :
  let A : material := {[ "name" := VStr "A" ]} in
  let line := "map_bump 1 2" in
  line_key line = "map_bump" ∧
  (line_key line ∉ string_keys) ∧
  is_newmtl line = false ∧
  mapM (@to_float Demo.platform) (line_data line) = Ok [1%Q; 2%Q] ∧
  @parse_line Demo.platform [A] line = Ok [<["map_bump" := VStr "1"]> A] ∧
  @parse_line Demo.platform [A] line ≠ Ok [<["map_bump" := VVec [1%Q; 2%Q]]> A].
Proof.
  cbv zeta. split; [reflexivity|]. split.
  { change (line_key "map_bump 1 2") with "map_bump".
    unfold string_keys. rewrite !elem_of_cons, elem_of_nil.
    intros H. repeat destruct H as [H|H]; discriminate || done. }
  split; [reflexivity|]. split; [reflexivity|].
  assert (@parse_line Demo.platform [{[ "name" := VStr "A" ]}] "map_bump 1 2"
          = Ok [<["map_bump" := VStr "1"]> {[ "name" := VStr "A" ]}]) as ->.
  { vm_compute. reflexivity. }
  split; [reflexivity|].
  intros H.
  apply (f_equal (λ r, match r with
                       | Ok [m] => m !! "map_bump"
                       | _ => None
                       end)) in H.
  vm_compute in H. discriminate.
Qed.

Lemma string_valued_by_substring_witness :
  ∃ rest cur v,
    [ ({[ "name" := VStr "A" ]} : material) ] = rest ++ [cur] ∧
    [ (<["map_bump" := VStr "1"]> {[ "name" := VStr "A" ]} : material) ] =
      rest ++ [<["map_bump" := v]> cur] ∧ v = VStr "1".
Proof.
  destruct (@string_valued_by_substring Demo.platform
              [ {[ "name" := VStr "A" ]} ] "map_bump 1 2"
              [ <["map_bump" := VStr "1"]> {[ "name" := VStr "A" ]} ])
    as (_ & _ & (rest & cur & v & H1 & H2 & H3) & _).
  - discriminate.
  - reflexivity.
  - vm_compute. reflexivity.
  - exists rest, cur, v. split; [exact H1|]. split; [exact H2|].
    destruct H3 as (d0 & Hd & ->). by injection Hd as <-.
Defined.

(** The first field after the key is empty where a space is followed by a
    tab: the file name is not what is stored. *)
Lemma empty_first_field :
  let A : material := {[ "name" := VStr "A" ]} in
  let line := ("map_Kd " ++ String "009" "tex.png")%string in
  line_data line = [""; "tex.png"] ∧
  @parse_line Demo.platform [A] line = Ok [<["map_kd" := VStr ""]> A].
Proof. cbv zeta. split; vm_compute; reflexivity. Qed.

(** ** Clearing the occlusion channel *)

Section load.
Context `{!Externals}.

Lemma zero_channel0_cleared mip0 mip :
  zero_channel0 mip0 = Ok mip → cleared mip0 mip.
Proof.
  unfold zero_channel0. destruct (t_c mip0 <=? 0); [done|].
  intros [= <-]. by repeat split.
Qed.

Lemma clear_occlusion_cleared ks0 ks :
  clear_occlusion ks0 = Ok ks → Forall2 cleared (getMips ks0) (getMips ks).
Proof.
  unfold clear_occlusion. intros Hc.
  apply rbind_Ok in Hc as (mips & Hmips & Hc).
  apply mapM_Ok in Hmips.
  assert (getMips ks = mips) as ->.
  { destruct mips as [|d ms].
    - inversion Hmips.
    - by injection Hc as <-. }
  eapply Forall2_impl; [exact Hmips|]. apply zero_channel0_cleared.
Qed.

(** With the option on, the loop body does what it does with the option
    off and then overwrites [ks]. *)
Lemma convert_material_clear mtl_path mat m :
  convert_material mtl_path true mat = Ok m →
  ∃ m0 ks0 ks,
    convert_material mtl_path false mat = Ok m0 ∧
    m0 !! "ks" = Some (VTex ks0) ∧
    clear_occlusion ks0 = Ok ks ∧
    m = <["ks" := VTex ks]> m0.
Proof.
  unfold convert_material. intros Hc.
  apply rbind_Ok in Hc as (m1 & H1 & Hc). rewrite H1. cbn [rbind].
  apply rbind_Ok in Hc as (m2 & H2 & Hc). rewrite H2. cbn [rbind].
  apply rbind_Ok in Hc as (m3 & H3 & Hc). rewrite H3. cbn [rbind].
  apply rbind_Ok in Hc as (kd & Hkd & Hc). rewrite Hkd. cbn [rbind].
  apply rbind_Ok in Hc as (kdt & Hkdt & Hc). rewrite Hkdt. cbn [rbind].
  apply rbind_Ok in Hc as (ksv & Hks & Hc).
  apply rbind_Ok in Hc as (ks0 & Hks0 & Hc).
  apply rbind_Ok in Hc as (ks & Hclear & Hc). apply Ok_inj in Hc.
  exists (<["kd" := VTex (srgb_to_rgb kdt)]> m3), ks0, ks.
  split; [done|]. split; [|done].
  unfold py_getitem in Hks.
  destruct (<["kd" := VTex (srgb_to_rgb kdt)]> m3 !! "ks") as [v|]; [|done].
  injection Hks as ->. destruct ksv; try done. simpl in Hks0. congruence.
Qed.

(** C9.  When the file is loaded with [clear_ks] on, every returned material
    has a [ks] texture whose channel 0 is zero at every pixel of every
    resolution level; level by level the other channels, the shape and every
    other entry of the material are what the same load returns with the
    option off. *)
Theorem load_mtl_clears_occlusion fn materials :
  load_mtl fn true = Ok materials →
  ∃ loaded,
    load_mtl fn false = Ok loaded ∧
    Forall2 (λ m0 m,
      ∃ ks0 ks,
        m0 !! "ks" = Some (VTex ks0) ∧
        m !! "ks" = Some (VTex ks) ∧
        (∀ k, k ≠ "ks" → m !! k = m0 !! k) ∧
        Forall2 cleared (getMips ks0) (getMips ks) ∧
        ∀ mip, mip ∈ getMips ks → ∀ r c, t_at mip r c 0 = 0%Q)
      loaded materials.
Proof.
  unfold load_mtl. intros Hl.
  apply rbind_Ok in Hl as (lines & Hlines & Hl). rewrite Hlines. cbn [rbind].
  apply rbind_Ok in Hl as (parsed & Hparsed & Hl). rewrite Hparsed.
  cbn [rbind]. clear Hlines Hparsed.
  revert materials Hl. generalize (os_path_dirname fn) as mtl_path.
  intros mtl_path.
  induction parsed as [|mat parsed IH]; intros materials Hl.
  - injection Hl as <-. exists []. split; [done|]. constructor.
  - cbn [mapM] in *.
    apply rbind_Ok in Hl as (m & Hm & Hl).
    apply rbind_Ok in Hl as (ms & Hms & Hl). apply Ok_inj in Hl. subst.
    apply convert_material_clear in Hm as (m0 & ks0 & ks & Hm0 & Hks0 & Hc & ->).
    destruct (IH _ Hms) as (loaded & Hloaded & Hall).
    rewrite Hm0, Hloaded. cbn [rbind]. eexists. split; [done|].
    constructor; [|done].
    apply clear_occlusion_cleared in Hc.
    exists ks0, ks. split; [done|]. split; [apply lookup_insert_eq|].
    split; [by intros k Hk; rewrite lookup_insert_ne|]. split; [done|].
    intros mip Hmip r c.
    apply list_elem_of_lookup in Hmip as [i Hi].
    destruct (Forall2_lookup_r _ _ _ _ _ Hc Hi) as (mip0 & _ & Hcl).
    destruct Hcl as (_ & _ & _ & Hat). by rewrite Hat.
Qed.

End load.

Section load_records.
Context `{!Externals}.

Lemma dom_insert_within k v (m : material) (X : gset string) :
  dom m ⊆ X → k ∈ X → dom (<[k := v]> m) ⊆ X.
Proof.
  intros Hm Hk. rewrite dom_insert_L. apply union_least; [|done].
  by apply singleton_subseteq_l.
Qed.

(** The conversion adds the four entries it computes and nothing else. *)
Lemma convert_material_dom mtl_path clear_ks mat m :
  convert_material mtl_path clear_ks mat = Ok m →
  dom m ⊆ dom mat ∪ {[ "bsdf"; "kd"; "ks"; "normal" ]}.
Proof.
  set (X := dom mat ∪ {[ "bsdf"; "kd"; "ks"; "normal" ]}).
  assert (∀ k, k ∈ [ "bsdf"; "kd"; "ks"; "normal" ] → k ∈ X) as Hin.
  { intros k Hk. apply elem_of_union_r.
    rewrite !elem_of_cons, elem_of_nil in Hk.
    rewrite !elem_of_union, !elem_of_singleton. tauto. }
  assert ("bsdf" ∈ X ∧ "kd" ∈ X ∧ "ks" ∈ X ∧ "normal" ∈ X)
    as (Hbsdf & Hkd & Hks & Hnormal).
  { repeat split; apply Hin; rewrite !elem_of_cons; auto 10. }
  assert (dom mat ⊆ X) as Hmat by apply union_subseteq_l.
  clear Hin. unfold convert_material. intros Hc.
  apply rbind_Ok in Hc as (m1 & H1 & Hc).
  apply rbind_Ok in Hc as (m2 & H2 & Hc).
  apply rbind_Ok in Hc as (m3 & H3 & Hc).
  apply rbind_Ok in Hc as (kd & Hkd' & Hc).
  apply rbind_Ok in Hc as (kdt & Hkdt & Hc).
  assert (dom m1 ⊆ X) as Hd1.
  { destruct (negb (py_in "bsdf" mat)), (py_in "map_kd" _);
      inv_ok; subst; repeat apply dom_insert_within; done. }
  assert (dom m2 ⊆ X) as Hd2.
  { destruct (py_in "map_ks" m1); inv_ok; subst;
      by apply dom_insert_within. }
  assert (dom m3 ⊆ X) as Hd3.
  { destruct (py_in "bump" m2); inv_ok; subst;
      [by apply dom_insert_within|done]. }
  destruct clear_ks; inv_ok; subst; repeat apply dom_insert_within; done.
Qed.

Lemma load_mtl_records fn clear_ks lines result :
  read_lines fn = Ok lines →
  load_mtl fn clear_ks = Ok result →
  ∃ parsed,
    parse_lines lines = Ok parsed ∧
    Forall2 (λ p m, dom m ⊆ dom p ∪ {[ "bsdf"; "kd"; "ks"; "normal" ]})
            parsed result.
Proof.
  unfold load_mtl. intros -> Hl. cbn [rbind] in Hl.
  apply rbind_Ok in Hl as (parsed & Hparsed & Hl).
  exists parsed. split; [done|]. apply mapM_Ok in Hl.
  eapply Forall2_impl; [exact Hl|]. intros p m. apply convert_material_dom.
Qed.

(** C10.  Lines ahead of the first [newmtl] directive leave no trace: read
    alone they give no record and no error, and a file reads the same with
    or without them.  The records of the parsing loop are one per [newmtl]
    directive, each the record its own block gives when read on its own,
    with the name and the keys of the lines of that block; the materials
    the loader returns are as many, each with no key beyond those and the
    four entries the conversion computes. *)
Theorem lines_before_first_newmtl_discarded pre rest :
  Forall (λ l, is_newmtl l = false) pre →
  parse_lines pre = Ok [] ∧
  parse_lines (pre ++ rest) = parse_lines rest ∧
  (∀ result, parse_lines rest = Ok result →
     length result = length (filter (λ l, is_newmtl l = true) rest) ∧
     Forall2 (λ block mat,
                record_of block mat ∧
                dom mat = {["name"]} ∪ list_to_set (line_key <$> tail block))
             (split_records rest).2 result) ∧
  ∀ fn clear_ks result,
    read_lines fn = Ok (pre ++ rest) →
    load_mtl fn clear_ks = Ok result →
    length result = length (filter (λ l, is_newmtl l = true) rest) ∧
    Forall2 (λ block mat,
               dom mat ⊆ {["name"]} ∪ list_to_set (line_key <$> tail block)
                         ∪ {[ "bsdf"; "kd"; "ks"; "normal" ]})
            (split_records rest).2 result.
Proof.
  intros Hpre.
  assert (parse_lines (pre ++ rest) = parse_lines rest) as Hsame.
  { unfold parse_lines. rewrite for_each_app.
    rewrite (parse_plain_nil pre Hpre). reflexivity. }
  assert (∀ result, parse_lines rest = Ok result →
     length result = length (filter (λ l, is_newmtl l = true) rest) ∧
     Forall2 (λ block mat,
                record_of block mat ∧
                dom mat = {["name"]} ∪ list_to_set (line_key <$> tail block))
             (split_records rest).2 result) as Hrecords.
  { intros result Hp. apply parse_lines_records in Hp. split.
    - rewrite <- split_records_count. symmetry. by eapply Forall2_length.
    - pose proof (split_records_blocks rest) as Hblocks.
      revert Hblocks Hp. generalize (split_records rest).2 as blocks.
      intros blocks Hblocks Hp. induction Hp as [|b m bs ms Hb _ IH].
      + constructor.
      + inversion Hblocks as [|? ? (l & body & -> & Hl & Hbody) Hbs]. subst.
        constructor; [|by apply IH]. split; [done|].
        by apply (record_of_dom l body). }
  split; [by apply parse_plain_nil|]. split; [done|]. split; [done|].
  intros fn clear_ks result Hread Hload.
  destruct (load_mtl_records _ _ _ _ Hread Hload) as (parsed & Hparsed & Hdom).
  rewrite Hsame in Hparsed. destruct (Hrecords _ Hparsed) as [Hlen Hblocks].
  split; [by rewrite <- (Forall2_length _ _ _ Hdom)|].
  eapply Forall2_trans; [|exact Hblocks|exact Hdom].
  intros block p m [_ Hp] Hm. cbv beta in Hm. rewrite Hp in Hm. exact Hm.
Qed.

End load_records.

Lemma load_mtl_clears_occlusion_witness :
  ∃ loaded, @load_mtl Demo.platform "scene/m.mtl" false = Ok loaded ∧
            length loaded = 2%nat.
Proof.
  destruct (@load_mtl Demo.platform "scene/m.mtl" true) as [ms|e] eqn:Hload.
  - destruct (@load_mtl_clears_occlusion Demo.platform "scene/m.mtl" ms Hload)
      as (loaded & Hl & Hall).
    exists loaded. split; [exact Hl|].
    apply Forall2_length in Hall. rewrite Hall.
    revert Hload. vm_compute. intros [= <-]. reflexivity.
  - exfalso. revert Hload. vm_compute. discriminate.
Defined.

Lemma lines_before_first_newmtl_discarded_witness :
  @parse_lines Demo.platform ["Kd 9 9 9"] = Ok [] ∧
  @parse_lines Demo.platform Demo.file =
  @parse_lines Demo.platform (drop 1 Demo.file).
Proof.
  destruct (@lines_before_first_newmtl_discarded Demo.platform
              ["Kd 9 9 9"] (drop 1 Demo.file)) as (H1 & H2 & _).
  - repeat constructor.
  - split; [exact H1|exact H2].
Defined.

(** ** The texture-coordinate rewrite *)

Lemma add_new_prefix {A} `{EqDecision A} (seen : list A) x :
  ∃ ext, add_new seen x = seen ++ ext.
Proof.
  unfold add_new. case_decide.
  - exists []. by rewrite app_nil_r.
  - eauto.
Qed.

Lemma foldl_add_new_prefix {A} `{EqDecision A} (l seen : list A) :
  ∃ ext, foldl add_new seen l = seen ++ ext.
Proof.
  revert seen. induction l as [|x l IH]; intros seen; simpl.
  - exists []. by rewrite app_nil_r.
  - destruct (add_new_prefix seen x) as [e1 ->].
    destruct (IH (seen ++ e1)) as [e2 ->].
    exists (e1 ++ e2). by rewrite app_assoc.
Qed.

Lemma foldl_add_new_spec {A} `{EqDecision A} (l seen : list A) :
  NoDup seen →
  NoDup (foldl add_new seen l) ∧
  ∀ x, x ∈ foldl add_new seen l ↔ x ∈ seen ∨ x ∈ l.
Proof.
  revert seen. induction l as [|y l IH]; intros seen Hnd; simpl.
  - split; [done|]. intros x. rewrite elem_of_nil. tauto.
  - assert (NoDup (add_new seen y)) as Hnd'.
    { unfold add_new. case_decide; [done|].
      apply NoDup_app. split; [done|]. split; [|apply NoDup_singleton].
      intros z Hz ->%list_elem_of_singleton. done. }
    destruct (IH _ Hnd') as [Hnd'' Hin]. split; [done|].
    intros x. rewrite Hin, elem_of_cons. unfold add_new.
    case_decide as Hy.
    + split; [tauto|]. intros [?|[->|?]]; auto.
    + rewrite elem_of_app, list_elem_of_singleton. tauto.
Qed.

(** [distinct_in_order] read from the front: the first element stays, the
    rest is the distinct remainder without it. *)
Lemma foldl_add_new_head {A} `{EqDecision A} (x : A) (l seen : list A) :
  foldl add_new (x :: seen) l
  = x :: foldl add_new seen (filter (λ y, y ≠ x) l).
Proof.
  revert seen. induction l as [|y l IH]; intros seen; [done|].
  cbn [foldl]. destruct (decide (y = x)) as [->|Hne].
  - rewrite filter_cons_False by (by intros ?).
    unfold add_new at 2. rewrite decide_True by (by left). apply IH.
  - rewrite filter_cons_True by done. cbn [foldl]. rewrite <- IH.
    f_equal. unfold add_new.
    destruct (decide (y ∈ seen)) as [Hin|Hnin].
    + by rewrite decide_True by (by right).
    + by rewrite decide_False by (by intros [?|?]%elem_of_cons).
Qed.

Lemma foldl_add_new_filter {A} `{EqDecision A} (x : A) (l seen : list A) :
  foldl add_new (filter (λ y, y ≠ x) seen) (filter (λ y, y ≠ x) l)
  = filter (λ y, y ≠ x) (foldl add_new seen l).
Proof.
  revert seen. induction l as [|y l IH]; intros seen; [done|].
  cbn [foldl]. rewrite <- IH. destruct (decide (y = x)) as [->|Hne].
  - rewrite filter_cons_False by (by intros ?). f_equal.
    unfold add_new. case_decide; [done|].
    rewrite filter_app, filter_cons_False by (by intros ?).
    by rewrite filter_nil, app_nil_r.
  - rewrite filter_cons_True by done. cbn [foldl]. f_equal.
    unfold add_new.
    destruct (decide (y ∈ seen)) as [Hin|Hnin].
    + by rewrite decide_True by (by apply list_elem_of_filter).
    + rewrite decide_False by (by intros [_ ?]%list_elem_of_filter).
      rewrite filter_app, filter_cons_True by done. done.
Qed.

Lemma distinct_in_order_cons {A} `{EqDecision A} (x : A) (l : list A) :
  distinct_in_order (x :: l)
  = x :: filter (λ y, y ≠ x) (distinct_in_order l).
Proof.
  unfold distinct_in_order. cbn [foldl].
  change (add_new [] x) with [x].
  rewrite foldl_add_new_head. f_equal.
  apply (foldl_add_new_filter x l []).
Qed.

Lemma Forall2_concat_concat {A B} (P : A → B → Prop) ls ks :
  Forall2 (Forall2 P) ls ks → Forall2 P (concat ls) (concat ks).
Proof.
  induction 1 as [|l k ls ks Hlk _ IH]; simpl; [constructor|].
  by apply Forall2_app.
Qed.

Lemma distinct_in_order_size (l : list (Z * Z)) :
  length (distinct_in_order l) = size (list_to_set l : gset (Z * Z)).
Proof.
  destruct (foldl_add_new_spec l [] (NoDup_nil_2)) as [Hnd Hin].
  fold (distinct_in_order l) in Hnd, Hin.
  rewrite <- (size_list_to_set (C := gset (Z * Z)) _ Hnd).
  f_equal. apply set_eq. intros x. rewrite !elem_of_list_to_set, Hin.
  rewrite elem_of_nil. tauto.
Qed.

Section tverts.
Context (texcoords : list (Q * Q)) (sc : Q * Q).

Lemma tv_inv_init : tv_inv texcoords sc (mkTverts ∅ []) [].
Proof.
  split.
  - constructor.
  - intros k idx. unfold tv_lookup. simpl. rewrite lookup_empty. simpl.
    split; [done|]. by intros (n & Hn & _).
  - constructor.
Qed.

(** Making sure [new_tverts[ti]] exists changes no entry. *)
Lemma ensure_lookup (tv : gmap Z (gmap Z Z)) ti k :
  (if bool_decide (is_Some (tv !! ti)) then tv else <[ti := ∅]> tv) !! k.1
    ≫= (.!! k.2) = tv !! k.1 ≫= (.!! k.2).
Proof.
  case_bool_decide as Hs; [done|].
  destruct (decide (ti = k.1)) as [->|Hne].
  - rewrite lookup_insert_eq. simpl. rewrite lookup_empty.
    destruct (tv !! k.1) eqn:Heq; [|done]. exfalso. apply Hs. eauto.
  - by rewrite lookup_insert_ne.
Qed.

Lemma ensure_inner (tv : gmap Z (gmap Z Z)) ti mi :
  default ∅ ((if bool_decide (is_Some (tv !! ti)) then tv
              else <[ti := ∅]> tv) !! ti) !! mi
  = tv !! ti ≫= (.!! mi).
Proof.
  pose proof (ensure_lookup tv ti (ti, mi)) as Hk. simpl in Hk.
  rewrite <- Hk. clear Hk.
  destruct ((if bool_decide (is_Some (tv !! ti)) then tv
             else <[ti:=∅]> tv) !! ti); simpl; [done|].
  apply lookup_empty.
Qed.

(** One corner: the pair is added if new, and the index written back is the
    position of the pair. *)
Lemma rewrite_corner_inv mi st ti st' idx keys :
  tv_inv texcoords sc st keys →
  rewrite_corner texcoords sc mi st ti = Ok (st', idx) →
  tv_inv texcoords sc st' (add_new keys (ti, mi)) ∧
  placed (add_new keys (ti, mi)) (ti, mi) idx.
Proof.
  unfold placed.
  intros [Hnd Hidx Hdat]. unfold rewrite_corner. cbv zeta.
  case_bool_decide as Hin.
  - intros [= <- <-]. rewrite ensure_inner in Hin |- *.
    destruct Hin as [i Hi]. rewrite Hi. simpl.
    pose proof Hi as Hk. apply (Hidx (ti, mi)) in Hk as (n & Hn & ->).
    assert (add_new keys (ti, mi) = keys) as ->.
    { unfold add_new. rewrite decide_True; [done|].
      apply list_elem_of_lookup. eauto. }
    split; [|eauto]. split; [done| |done].
    intros k idx. unfold tv_lookup. simpl. rewrite ensure_lookup.
    apply Hidx.
  - intros Hc. apply rbind_Ok in Hc as (tc & Htc & Hc).
    apply Ok_inj in Hc. injection Hc as <- <-.
    rewrite ensure_inner in Hin.
    assert ((ti, mi) ∉ keys) as Hnew.
    { intros (n & Hn)%list_elem_of_lookup. apply Hin.
      exists (Z.of_nat n). apply (Hidx (ti, mi)). eauto. }
    assert (add_new keys (ti, mi) = keys ++ [(ti, mi)]) as ->.
    { unfold add_new. by rewrite decide_False. }
    pose proof (Forall2_length _ _ _ Hdat) as Hlen.
    rewrite length_app. cbn [length].
    replace (Z.of_nat (length (new_tverts_data st) + 1) - 1)
      with (Z.of_nat (length keys)) by lia.
    split.
    + split.
      * apply NoDup_app. split; [done|]. split; [|apply NoDup_singleton].
        intros z Hz ->%list_elem_of_singleton. done.
      * intros k idx. unfold tv_lookup. cbn [new_tverts].
        destruct (decide (k = (ti, mi))) as [->|Hne].
        -- simpl. rewrite lookup_insert_eq. simpl. rewrite lookup_insert_eq.
           split.
           ++ intros [= <-]. exists (length keys).
              rewrite lookup_app_r by lia. by rewrite Nat.sub_diag.
           ++ intros (n & Hn & ->). f_equal. f_equal.
              destruct (decide (n < length keys)%nat) as [Hlt|Hge].
              ** rewrite lookup_app_l in Hn by done. exfalso. apply Hnew.
                 apply list_elem_of_lookup. eauto.
              ** apply lookup_lt_Some in Hn. rewrite length_app in Hn.
                 simpl in Hn. lia.
        -- assert (<[ti := <[mi := Z.of_nat (length keys)]>
                     (default ∅ ((if bool_decide (is_Some (new_tverts st !! ti))
                                  then new_tverts st
                                  else <[ti:=∅]> (new_tverts st)) !! ti))]>
                     (if bool_decide (is_Some (new_tverts st !! ti))
                      then new_tverts st else <[ti:=∅]> (new_tverts st))
                     !! k.1 ≫= (.!! k.2)
                   = new_tverts st !! k.1 ≫= (.!! k.2)) as ->.
           { destruct (decide (ti = k.1)) as [->|Hti].
             - rewrite lookup_insert_eq. simpl.
               rewrite lookup_insert_ne by (destruct k; simpl in *; congruence).
               apply ensure_inner.
             - rewrite lookup_insert_ne by done. apply ensure_lookup. }
           rewrite (Hidx k idx). split.
           ++ intros (n & Hn & ->). exists n. split; [|done].
              by apply lookup_app_l_Some.
           ++ intros (n & Hn & ->). exists n. split; [|done].
              apply lookup_app_Some in Hn as [Hn|[_ Hn]]; [done|].
              destruct (n - length keys)%nat; [|done]. simpl in Hn. congruence.
      * cbn [new_tverts_data]. apply Forall2_app; [done|].
        constructor; [|constructor]. eauto.
    + exists (length keys). split; [done|].
      rewrite lookup_app_r by lia. by rewrite Nat.sub_diag.
Qed.

Lemma placed_app keys ext k idx :
  placed keys k idx → placed (keys ++ ext) k idx.
Proof.
  intros (n & -> & Hn). exists n. split; [done|]. by apply lookup_app_l_Some.
Qed.

Lemma placed_foldl keys l k idx :
  placed keys k idx → placed (foldl add_new keys l) k idx.
Proof.
  destruct (foldl_add_new_prefix l keys) as [ext ->]. apply placed_app.
Qed.

(** One face: its three pairs are added in corner order. *)
Lemma rewrite_face_inv mfaces st out fi f res keys :
  tv_inv texcoords sc st keys →
  rewrite_face texcoords sc mfaces (st, out) fi f = Ok res →
  ∃ mi f',
    mfaces !! fi = Some mi ∧
    res.2 = out ++ [f'] ∧
    tv_inv texcoords sc res.1 (foldl add_new keys (face_keys f mi)) ∧
    Forall2 (placed (foldl add_new keys (face_keys f mi)))
            (face_keys f mi) (corners f').
Proof.
  intros Hinv. unfold rewrite_face. rewrite py_index_nat.
  destruct (mfaces !! fi) as [mi|]; [|done]. cbn [rbind fst snd].
  intros Hf.
  apply rbind_Ok in Hf as ([s1 a] & H1 & Hf).
  apply rbind_Ok in Hf as ([s2 b] & H2 & Hf).
  apply rbind_Ok in Hf as ([s3 c] & H3 & Hf). apply Ok_inj in Hf. subst res.
  destruct (rewrite_corner_inv _ _ _ _ _ _ Hinv H1) as [Hi1 Hp1].
  destruct (rewrite_corner_inv _ _ _ _ _ _ Hi1 H2) as [Hi2 Hp2].
  destruct (rewrite_corner_inv _ _ _ _ _ _ Hi2 H3) as [Hi3 Hp3].
  exists mi, (a, b, c). split; [done|]. split; [done|].
  destruct f as [[ta tb] tc]. unfold face_keys, corners. simpl in *.
  split; [done|].
  repeat constructor; [| |done].
  - destruct (add_new_prefix (add_new (add_new keys (ta, mi)) (tb, mi))
                             (tc, mi)) as [e2 ->].
    destruct (add_new_prefix (add_new keys (ta, mi)) (tb, mi)) as [e1 ->].
    by do 2 apply placed_app.
  - destruct (add_new_prefix (add_new (add_new keys (ta, mi)) (tb, mi))
                             (tc, mi)) as [e2 ->].
    by apply placed_app.
Qed.

Lemma corner_keys_cons f tfaces mi mfaces :
  corner_keys (f :: tfaces) (mi :: mfaces) =
  face_keys f mi ++ corner_keys tfaces mfaces.
Proof. reflexivity. Qed.

(** The loop over the faces, entered at face index [i]. *)
Lemma rewrite_faces_from mfaces tfaces i st out res keys :
  tv_inv texcoords sc st keys →
  for_enum (rewrite_face texcoords sc mfaces) i tfaces (st, out) = Ok res →
  let keys' := foldl add_new keys (corner_keys tfaces (drop i mfaces)) in
  (length tfaces ≤ length (drop i mfaces))%nat ∧
  tv_inv texcoords sc res.1 keys' ∧
  ∃ new,
    res.2 = out ++ new ∧
    Forall2 (λ fm f', Forall2 (placed keys') (face_keys fm.1 fm.2)
                              (corners f'))
            (zip tfaces (drop i mfaces)) new.
Proof.
  revert i st out keys.
  induction tfaces as [|f tfaces IH]; intros i st out keys Hinv Hloop.
  - apply Ok_inj in Hloop. subst res. cbn. split; [lia|]. split; [done|].
    exists []. rewrite app_nil_r. split; [done|]. constructor.
  - cbn [for_enum] in Hloop. apply rbind_Ok in Hloop as ([s1 o1] & Hf & Hloop).
    apply rewrite_face_inv with (keys := keys) in Hf as
      (mi & f' & Hmi & Ho1 & Hinv1 & Hpl); [|done]. simpl in Ho1, Hinv1.
    subst o1.
    destruct (IH _ _ _ _ Hinv1 Hloop) as (Hlen & Hinv' & new & Hres & Hall).
    rewrite (drop_S _ _ _ Hmi). rewrite corner_keys_cons, foldl_app.
    cbn [length zip zip_with]. split; [lia|]. split; [done|].
    exists (f' :: new). split; [by rewrite Hres, <- app_assoc|].
    constructor; [|done]. simpl.
    eapply Forall2_impl; [exact Hpl|]. intros k idx. apply placed_foldl.
Qed.

Lemma rewrite_faces_inv tfaces mfaces st out :
  rewrite_faces texcoords sc tfaces mfaces = Ok (st, out) →
  let keys := distinct_in_order (corner_keys tfaces mfaces) in
  (length tfaces ≤ length mfaces)%nat ∧
  tv_inv texcoords sc st keys ∧
  Forall2 (λ fm f', Forall2 (placed keys) (face_keys fm.1 fm.2) (corners f'))
          (zip tfaces mfaces) out.
Proof.
  unfold rewrite_faces. intros Hloop.
  apply rewrite_faces_from with (keys := []) in Hloop; [|apply tv_inv_init].
  rewrite drop_0 in Hloop. simpl in Hloop.
  destruct Hloop as (Hlen & Hinv & new & -> & Hall). done.
Qed.

(** Where an index is placed, the data holds the coordinate of its pair. *)
Lemma placed_data st keys k idx :
  tv_inv texcoords sc st keys → placed keys k idx →
  ∃ tc, py_index texcoords k.1 = Ok tc ∧
        new_tverts_data st !! Z.to_nat idx = Some (new_coord sc k.2 tc).
Proof.
  intros [_ _ Hdat] (n & -> & Hn). rewrite Nat2Z.id.
  destruct (Forall2_lookup_l _ _ _ _ _ Hdat Hn) as (d & Hd & tc & Htc & ->).
  eauto.
Qed.

Lemma placed_inj st keys k1 k2 idx1 idx2 :
  tv_inv texcoords sc st keys → placed keys k1 idx1 → placed keys k2 idx2 →
  idx1 = idx2 ↔ k1 = k2.
Proof.
  intros [Hnd _ _] (n1 & -> & H1) (n2 & -> & H2). split.
  - intros Heq. assert (n1 = n2) as -> by lia. congruence.
  - intros <-. f_equal. by eapply NoDup_lookup.
Qed.

End tverts.

(** ** Normalising the presence of normal maps *)

Section merge.
Context `{!Externals}.

Lemma py_in_true {V} k (d : gmap string V) :
  py_in k d = true ↔ is_Some (d !! k).
Proof. unfold py_in. apply bool_decide_eq_true. Qed.

Lemma py_in_false {V} k (d : gmap string V) :
  py_in k d = false ↔ d !! k = None.
Proof.
  unfold py_in. rewrite bool_decide_eq_false, eq_None_not_Some. done.
Qed.

Lemma inject_normal_Ok m m' :
  inject_normal m = Ok m' → m' = with_normal m.
Proof.
  unfold inject_normal, with_normal.
  destruct (py_in "normal" m); simpl.
  - by intros [= <-].
  - intros Hi. inv_ok. by subst.
Qed.

Lemma with_normal_has m : py_in "normal" (with_normal m) = true.
Proof.
  unfold with_normal. destruct (py_in "normal" m) eqn:Hn; [done|].
  apply py_in_true. rewrite lookup_insert_eq. eauto.
Qed.

Lemma with_normal_other m k :
  k ≠ "normal" → with_normal m !! k = m !! k.
Proof.
  intros Hk. unfold with_normal. destruct (py_in "normal" m); [done|].
  by rewrite lookup_insert_ne.
Qed.

Lemma existsb_forallb_false (l : list bool) :
  existsb id l && negb (forallb id l) = false →
  Forall (λ b, b = true) l ∨ Forall (λ b, b = false) l.
Proof.
  induction l as [|b l IH]; [by left|].
  destruct b; simpl.
  - destruct (forallb id l) eqn:Hall; [|done]. intros _. left.
    constructor; [done|]. apply Forall_forall.
    intros x Hx%list_elem_of_In.
    by apply (proj1 (forallb_forall id l) Hall) in Hx.
  - intros Hl. apply andb_false_iff in Hl as [Hl|?]; [|done]. right.
    constructor; [done|]. apply Forall_forall. intros x Hx.
    destruct x; [|done]. exfalso.
    assert (existsb id l = true); [|congruence].
    apply existsb_exists. exists true. by rewrite <- list_elem_of_In.
Qed.

(** The patch loop raises where a plain traversal raises, and completes
    with the same list. *)
Lemma patch_loop_mapM materials :
  (done ←! (patch_loop materials).2; Ok (patch_loop materials).1)
  = mapM inject_normal materials.
Proof.
  induction materials as [|m ms IH]; [done|]. cbn [patch_loop mapM].
  destruct (inject_normal m) as [m'|e]; [|done]. cbn [rbind fst snd].
  rewrite <- IH. by destruct (patch_loop ms).2 as [[]|].
Qed.

Lemma normalize_normals_eq materials :
  normalize_normals materials
  = if mixed_normals materials then mapM inject_normal materials
    else Ok materials.
Proof.
  unfold normalize_normals. destruct (mixed_normals materials); [|done].
  cbv zeta. apply patch_loop_mapM.
Qed.

Lemma normalize_normals_Ok materials materials' :
  normalize_normals materials = Ok materials' →
  materials' = (if mixed_normals materials then with_normal <$> materials
                else materials).
Proof.
  rewrite normalize_normals_eq. destruct (mixed_normals materials).
  - intros Hm%mapM_Ok. induction Hm as [|m m' ms ms' Hm _ IH]; [done|].
    rewrite fmap_cons. f_equal; [|done]. by apply inject_normal_Ok.
  - by intros [= <-].
Qed.

(** After the patch, presence of a normal map is the same for all. *)
Lemma normalize_normals_uniform materials materials' m1 m2 :
  normalize_normals materials = Ok materials' →
  m1 ∈ materials' → m2 ∈ materials' →
  py_in "normal" m1 = py_in "normal" m2.
Proof.
  intros Hn%normalize_normals_Ok. subst materials'.
  destruct (mixed_normals materials) eqn:Hmix.
  - intros (x1 & -> & _)%list_elem_of_fmap (x2 & -> & _)%list_elem_of_fmap.
    by rewrite !with_normal_has.
  - unfold mixed_normals, has_norm in Hmix.
    apply existsb_forallb_false in Hmix. intros H1 H2.
    destruct Hmix as [Hall|Hall]; rewrite Forall_fmap, Forall_forall in Hall;
      simpl in Hall; by rewrite (Hall _ H1), (Hall _ H2).
Qed.

Lemma normalize_normals_length materials materials' :
  normalize_normals materials = Ok materials' →
  length materials' = length materials.
Proof.
  intros ->%normalize_normals_Ok.
  destruct (mixed_normals materials); [apply length_fmap|done].
Qed.

Lemma normalize_normals_lookup materials materials' i m' :
  normalize_normals materials = Ok materials' →
  materials' !! i = Some m' →
  ∃ m, materials !! i = Some m ∧ (m' = m ∨ m' = with_normal m) ∧
       ∀ k, k ≠ "normal" → m' !! k = m !! k.
Proof.
  intros ->%normalize_normals_Ok.
  destruct (mixed_normals materials).
  - rewrite list_lookup_fmap. destruct (materials !! i) as [m|]; [|done].
    intros [= <-]. exists m. split; [done|]. split; [by right|].
    apply with_normal_other.
  - intros Hm. exists m'. eauto.
Qed.

(** The patch completes when every material it has to touch has a [kd]
    entry that carries a tensor. *)
Lemma normalize_normals_succeeds materials :
  (mixed_normals materials = true →
   ∀ m, m ∈ materials → m !! "normal" = None →
        ∃ v, m !! "kd" = Some v ∧ data_device v = Ok tt) →
  normalize_normals materials =
  Ok (if mixed_normals materials then with_normal <$> materials
      else materials).
Proof.
  rewrite normalize_normals_eq. destruct (mixed_normals materials); [|done].
  intros Hkd. specialize (Hkd eq_refl). apply mapM_Ok.
  apply Forall2_fmap_r, Forall_Forall2_diag, Forall_forall.
  intros m Hm. unfold compose, inject_normal, with_normal.
  destruct (py_in "normal" m) eqn:Hn; simpl; [done|].
  apply py_in_false in Hn. destruct (Hkd m Hm Hn) as (v & Hv & Hdev).
  unfold py_getitem. rewrite Hv. simpl. by rewrite Hdev.
Qed.

(** ** The assertions *)

Lemma check_material_Ok first mat u :
  check_material first tt mat = Ok u ↔
  ∃ a b, mat !! "bsdf" = Some a ∧ first !! "bsdf" = Some b ∧
         tag_eq a b = Ok true ∧
         py_in "normal" mat = py_in "normal" first.
Proof.
  unfold check_material, py_getitem. split.
  - intros Hc.
    destruct (mat !! "bsdf") as [a|]; [|done].
    destruct (first !! "bsdf") as [b|]; [|done]. cbn [rbind] in Hc.
    destruct (tag_eq a b) as [[|]|e] eqn:Heq; try done.
    cbn [assert rbind] in Hc. apply assert_Ok, eqb_prop in Hc.
    by exists a, b.
  - intros (a & b & -> & -> & Heq & ->). cbn [rbind]. rewrite Heq.
    cbn [assert rbind]. rewrite eqb_reflx. by destruct u.
Qed.

Lemma tag_eq_strings x y : tag_eq (VStr x) (VStr y) = Ok true ↔ x = y.
Proof.
  cbn. split.
  - intros [= Hxy]. by apply bool_decide_eq_true in Hxy.
  - intros ->. by rewrite bool_decide_eq_true_2.
Qed.

Lemma no_assert_tag_eq a b : no_assert (tag_eq a b).
Proof.
  intros msg. unfold tag_eq.
  destruct a, b; try done; by destruct (py_eq _ _).
Qed.

Lemma for_each_unit_Ok {A} (body : unit → A → result unit) (l : list A) :
  for_each body l tt = Ok tt ↔ ∀ x, x ∈ l → body tt x = Ok tt.
Proof.
  induction l as [|x l IH]; simpl.
  - split; [|done]. intros _ x Hx. by apply elem_of_nil in Hx.
  - rewrite rbind_Ok. split.
    + intros ([] & Hx & Hl) y [->|Hy]%elem_of_cons; [done|]. by apply IH.
    + intros Hall. exists tt. split.
      * apply Hall. by left.
      * apply IH. intros y Hy. apply Hall. by right.
Qed.

(** The first failing check decides how the loop over the assertions
    ends. *)
Lemma for_each_unit_Raise {A} (body : unit → A → result unit) (l : list A) e :
  for_each body l tt = Raise e → ∃ x, x ∈ l ∧ body tt x = Raise e.
Proof.
  induction l as [|x l IH]; simpl; [done|].
  destruct (body tt x) as [[]|e'] eqn:Hx; simpl.
  - intros (y & Hy & He)%IH. exists y. split; [by right|done].
  - intros [= ->]. exists x. split; [by left|done].
Qed.

(** ** The maximum resolution *)

Lemma tex_res_Ok mat tex r :
  tex_res mat tex = Ok r → r = slot_resolution mat tex.
Proof.
  unfold tex_res, slot_resolution, py_getitem.
  destruct (py_in tex mat) eqn:Hin.
  - destruct (mat !! tex) as [[| |t]|]; try done. simpl. by intros [= <-].
  - apply py_in_false in Hin. rewrite Hin. by intros [= <-].
Qed.

Lemma tex_res_textures_ok mat tex :
  textures_ok mat → tex ∈ textures →
  tex_res mat tex = Ok (slot_resolution mat tex).
Proof.
  intros Hok Htex. unfold tex_res, slot_resolution, py_getitem.
  destruct (py_in tex mat) eqn:Hin.
  - apply py_in_true in Hin as [v Hv]. rewrite Hv.
    destruct (Hok tex v Htex Hv) as (t & -> & _). done.
  - apply py_in_false in Hin. by rewrite Hin.
Qed.

Lemma max_res_inner mat texs acc acc' :
  for_each (max_res_step mat) texs acc = Ok acc' →
  acc' = foldl max_step acc (slot_resolution mat <$> texs).
Proof.
  revert acc. induction texs as [|tex texs IH]; intros acc; simpl.
  - by intros [= <-].
  - intros Hl. apply rbind_Ok in Hl as (a1 & H1 & Hl).
    unfold max_res_step in H1. apply rbind_Ok in H1 as (r & Hr & H1).
    apply tex_res_Ok in Hr. apply Ok_inj in H1. subst. by apply IH.
Qed.

Lemma find_max_res_from materials acc acc' :
  for_each (λ acc mat, for_each (max_res_step mat) textures acc)
           materials acc = Ok acc' →
  acc' = foldl max_step acc (all_resolutions materials).
Proof.
  revert acc. induction materials as [|mat mats IH]; intros acc;
    cbn [for_each].
  - by intros [= <-].
  - intros Hl. apply rbind_Ok in Hl as (a1 & H1 & Hl).
    apply max_res_inner in H1. subst a1. apply IH in Hl.
    unfold all_resolutions. rewrite bind_cons, foldl_app. exact Hl.
Qed.

Lemma find_max_res_Ok materials r :
  find_max_res materials = Ok r →
  r = foldl max_step None (all_resolutions materials).
Proof. apply find_max_res_from. Qed.

Lemma find_max_res_textures_ok materials :
  Forall textures_ok materials →
  find_max_res materials = Ok (foldl max_step None (all_resolutions materials)).
Proof.
  intros Hall. unfold find_max_res. generalize (@None (Z * Z)).
  induction Hall as [|mat mats Hok _ IH]; intros acc; [done|].
  cbn [for_each]. unfold all_resolutions. rewrite bind_cons, foldl_app.
  fold (all_resolutions mats). rewrite <- IH.
  assert (for_each (max_res_step mat) textures acc
          = Ok (foldl max_step acc (slot_resolution mat <$> textures))) as ->;
    [|done].
  assert (∀ tex, tex ∈ textures → tex ∈ textures) as Hsub by done.
  revert acc Hsub. generalize textures at 1 3 4 as texs.
  induction texs as [|tex texs IHt]; intros acc Hsub; [done|].
  cbn [for_each]. unfold max_res_step at 1.
  rewrite tex_res_textures_ok; [|done|apply Hsub; by left].
  cbn [rbind fmap list_fmap foldl]. apply IHt.
  intros t Ht. apply Hsub. by right.
Qed.

Lemma foldl_max_step_Some l a :
  ∃ r, foldl max_step (Some a) l = Some r ∧
       (a.1 ≤ r.1 ∧ a.2 ≤ r.2) ∧
       (∀ x, x ∈ l → x.1 ≤ r.1 ∧ x.2 ≤ r.2) ∧
       (r.1 = a.1 ∨ ∃ x, x ∈ l ∧ x.1 = r.1) ∧
       (r.2 = a.2 ∨ ∃ x, x ∈ l ∧ x.2 = r.2).
Proof.
  revert a. induction l as [|y l IH]; intros a.
  - exists a. simpl. split; [done|]. split; [lia|].
    split; [|by split; left]. intros x Hx. by apply elem_of_nil in Hx.
  - destruct (IH (np_maximum a y)) as (r & Hr & [Ha1 Ha2] & Hall & H1 & H2).
    exists r. simpl in *. split; [exact Hr|]. split; [lia|]. split.
    + intros x [->|Hx]%elem_of_cons; [lia|]. by apply Hall.
    + split.
      * destruct H1 as [H1|(x & Hx & H1)].
        -- destruct (Z.max_spec a.1 y.1) as [[_ Hm]|[_ Hm]].
           ++ right. exists y. split; [by left|lia].
           ++ left. lia.
        -- right. exists x. split; [by right|done].
      * destruct H2 as [H2|(x & Hx & H2)].
        -- destruct (Z.max_spec a.2 y.2) as [[_ Hm]|[_ Hm]].
           ++ right. exists y. split; [by left|lia].
           ++ left. lia.
        -- right. exists x. split; [by right|done].
Qed.

Lemma foldl_max_step_None l :
  l ≠ [] → ∃ r, foldl max_step None l = Some r ∧ elementwise_max r l.
Proof.
  destruct l as [|y l]; [done|]. intros _. simpl.
  destruct (foldl_max_step_Some l y) as (r & Hr & [Ha1 Ha2] & Hall & H1 & H2).
  exists r. split; [done|]. split; [|split].
  - intros x [->|Hx]%elem_of_cons; [done|]. by apply Hall.
  - destruct H1 as [H1|(x & Hx & H1)].
    + exists y. split; [by left|done].
    + exists x. split; [by right|done].
  - destruct H2 as [H2|(x & Hx & H2)].
    + exists y. split; [by left|done].
    + exists x. split; [by right|done].
Qed.

Lemma elementwise_max_unique r1 r2 l :
  elementwise_max r1 l → elementwise_max r2 l → r1 = r2.
Proof.
  intros (Hu1 & (x1 & Hx1 & Hy1) & (x1' & Hx1' & Hy1'))
         (Hu2 & (x2 & Hx2 & Hy2) & (x2' & Hx2' & Hy2')).
  destruct r1 as [a1 b1], r2 as [a2 b2]. simpl in *.
  pose proof (Hu1 _ Hx2). pose proof (Hu1 _ Hx2').
  pose proof (Hu2 _ Hx1). pose proof (Hu2 _ Hx1').
  f_equal; lia.
Qed.

Lemma all_resolutions_nonempty materials :
  materials ≠ [] → all_resolutions materials ≠ [].
Proof. by destruct materials. Qed.

Lemma slot_resolution_with_normal m tex :
  slot_resolution (with_normal m) tex = slot_resolution m tex.
Proof.
  unfold with_normal. destruct (py_in "normal" m) eqn:Hn; [done|].
  apply py_in_false in Hn. unfold slot_resolution.
  destruct (decide (tex = "normal")) as [->|Hne].
  - by rewrite lookup_insert_eq, Hn.
  - by rewrite lookup_insert_ne.
Qed.

Lemma all_resolutions_normalized materials materials' :
  normalize_normals materials = Ok materials' →
  all_resolutions materials' = all_resolutions materials.
Proof.
  intros ->%normalize_normals_Ok.
  destruct (mixed_normals materials); [|done].
  unfold all_resolutions. induction materials as [|m ms IH]; [done|].
  rewrite fmap_cons, !bind_cons, IH. f_equal.
  apply list_fmap_ext. intros _ tex _. apply slot_resolution_with_normal.
Qed.

Lemma textures_ok_with_normal m :
  textures_ok m → textures_ok (with_normal m).
Proof.
  intros Hok tex v Htex. unfold with_normal.
  destruct (py_in "normal" m) eqn:Hn; [by apply Hok|].
  destruct (decide (tex = "normal")) as [->|Hne].
  - rewrite lookup_insert_eq. intros [= <-]. exists flat_normal.
    split; [done|]. by compute.
  - rewrite lookup_insert_ne by done. by apply Hok.
Qed.

(** ** The size of the canvas *)

Lemma pot_ceil_Ok x p :
  pot_ceil x = Ok p ↔ 0 < x ∧ p = 2 ^ Z.log2_up x.
Proof.
  unfold pot_ceil. destruct (Z.leb_spec x 0).
  - split; [done|]. lia.
  - split; [by intros [= <-]|by intros [_ ->]].
Qed.

Lemma compute_full_res_Ok max_res count full_res :
  compute_full_res max_res count = Ok full_res ↔
  0 < max_res.1 ∧ 0 < max_res.2 * Z.of_nat count ∧
  full_res = (2 ^ Z.log2_up max_res.1,
              2 ^ Z.log2_up (max_res.2 * Z.of_nat count)).
Proof.
  unfold compute_full_res. rewrite Z.mul_1_r. split.
  - intros Hc. inv_ok. apply pot_ceil_Ok in Ha as [? ->].
    apply pot_ceil_Ok in Ha0 as [? ->]. by subst.
  - intros (H1 & H2 & ->).
    rewrite (proj2 (pot_ceil_Ok _ _) (conj H1 eq_refl)). cbn [rbind].
    rewrite (proj2 (pot_ceil_Ok _ _) (conj H2 eq_refl)). done.
Qed.

Lemma pot_ceil_bound x :
  0 < x →
  power_of_two (2 ^ Z.log2_up x) ∧ x ≤ 2 ^ Z.log2_up x ∧
  ∀ p, power_of_two p → x ≤ p → 2 ^ Z.log2_up x ≤ p.
Proof.
  intros Hx. split; [|split].
  - exists (Z.log2_up x). split; [apply Z.log2_up_nonneg|done].
  - apply Z.log2_up_le_pow2; [done|lia].
  - intros p (e & He & ->) Hle. apply Z.pow_le_mono_r; [lia|].
    by apply Z.log2_up_le_pow2.
Qed.

(** ** Building the atlas textures *)

Lemma merge_slot_Ok materials first max_res full_res uber tex uber' :
  materials !! 0%nat = Some first →
  merge_slot materials max_res full_res uber tex = Ok uber' →
  if py_in tex first
  then ∃ t, atlas_of materials max_res full_res tex t ∧
            uber' = <[tex := VTex t]> uber
  else uber' = uber.
Proof.
  intros Hfirst. unfold merge_slot.
  rewrite py_index_0, Hfirst. cbn [rbind].
  destruct (py_in tex first).
  - intros Hs. apply rbind_Ok in Hs as (cells & Hcells & Hs).
    apply rbind_Ok in Hs as (cat & Hcat & Hs). apply Ok_inj in Hs.
    eexists. split; [|by symmetry]. by exists cells, cat.
  - by intros [= <-].
Qed.

Lemma merge_slots_Ok materials first max_res full_res uber uber' :
  materials !! 0%nat = Some first →
  for_each (merge_slot materials max_res full_res) textures uber = Ok uber' →
  (∀ k, k ∉ textures → uber' !! k = uber !! k) ∧
  ∀ tex, tex ∈ textures →
    if py_in tex first
    then ∃ t, atlas_of materials max_res full_res tex t ∧
              uber' !! tex = Some (VTex t)
    else uber' !! tex = uber !! tex.
Proof.
  intros Hfirst. unfold textures. cbn [for_each]. intros Hl.
  apply rbind_Ok in Hl as (u1 & H1 & Hl).
  apply rbind_Ok in Hl as (u2 & H2 & Hl).
  apply rbind_Ok in Hl as (u3 & H3 & Hl). apply Ok_inj in Hl. subst u3.
  apply (merge_slot_Ok _ _ _ _ _ _ _ Hfirst) in H1, H2, H3.
  assert (∀ tex (u u' : material) (P : Texture2D → Prop),
            (if py_in tex first then ∃ t, P t ∧ u' = <[tex := VTex t]> u
             else u' = u) →
            ∀ k, k ≠ tex → u' !! k = u !! k) as Hother.
  { intros tex u u' P Hif k Hk. destruct (py_in tex first).
    - destruct Hif as (t & _ & ->). by rewrite lookup_insert_ne.
    - by subst. }
  split.
  - intros k Hk. rewrite !elem_of_cons, elem_of_nil in Hk.
    rewrite (Hother _ _ _ _ H3), (Hother _ _ _ _ H2), (Hother _ _ _ _ H1);
      [done|naive_solver..].
  - intros tex Htex. rewrite !elem_of_cons, elem_of_nil in Htex.
    destruct Htex as [->|[->|[->|[]]]].
    + rewrite (Hother _ _ _ _ H3), (Hother _ _ _ _ H2) by done.
      destruct (py_in "kd" first); [|by subst].
      destruct H1 as (t & Ht & ->). exists t. by rewrite lookup_insert_eq.
    + rewrite (Hother _ _ _ _ H3) by done.
      destruct (py_in "ks" first).
      * destruct H2 as (t & Ht & ->). exists t. by rewrite lookup_insert_eq.
      * subst u2. by apply (Hother _ _ _ _ H1).
    + destruct (py_in "normal" first).
      * destruct H3 as (t & Ht & ->). exists t. by rewrite lookup_insert_eq.
      * rewrite H3, (Hother _ _ _ _ H2) by done.
        by apply (Hother _ _ _ _ H1).
Qed.

Lemma atlas_of_res materials max_res full_res tex t :
  atlas_of materials max_res full_res tex t → getRes t = full_res.
Proof.
  intros (cells & cat & _ & _ & ->). unfold getRes. simpl.
  destruct full_res as [h w]. simpl. f_equal; lia.
Qed.

(** A slot is built whenever every material that has to contribute holds a
    texture in it. *)
Lemma merge_slot_succeeds materials first max_res full_res uber tex :
  scale_exact → scale_keeps_channels →
  materials !! 0%nat = Some first →
  (py_in tex first = true →
   ∀ m, m ∈ materials → ∃ t, m !! tex = Some (VTex t)) →
  (∀ m1 m2 t1 t2, m1 ∈ materials → m2 ∈ materials →
     m1 !! tex = Some (VTex t1) → m2 !! tex = Some (VTex t2) →
     t_c (data t1) = t_c (data t2)) →
  ∃ uber', merge_slot materials max_res full_res uber tex = Ok uber'.
Proof.
  intros Hscale Hchan Hfirst Hall Hagree. unfold merge_slot.
  rewrite py_index_0, Hfirst. cbn [rbind].
  destruct (py_in tex first); [|eauto]. specialize (Hall eq_refl).
  assert (∃ cells, mapM (atlas_cell max_res tex) materials = Ok cells ∧
            Forall2 (λ m cell, ∃ t, m !! tex = Some (VTex t) ∧
                                    cell = scale_img_nhwc (data t) max_res)
                    materials cells) as (cells & -> & Hcells).
  { clear Hfirst Hagree. induction materials as [|m ms IH]; [by exists []|].
    destruct IH as (cells & Hcells & Hlen).
    { intros m' Hm'. apply Hall. by right. }
    destruct (Hall m) as [t Ht]; [by left|].
    exists (scale_img_nhwc (data t) max_res :: cells).
    cbn [mapM]. unfold atlas_cell at 1, py_getitem. rewrite Ht. cbn.
    rewrite Hcells. cbn. split; [done|]. constructor; [eauto|done]. }
  cbn [rbind]. destruct cells as [|c cells].
  - destruct materials; [done|]. by apply Forall2_length in Hcells.
  - cbn [cat_width].
    assert (forallb (same_shape c) cells = true) as ->; [|cbn; eauto].
    apply forallb_forall. intros c' Hc'%list_elem_of_In.
    apply list_elem_of_lookup in Hc' as [k Hk].
    destruct (Forall2_lookup_r _ _ _ 0%nat c Hcells eq_refl)
      as (m0 & Hm0 & t0 & Ht0 & ->).
    destruct (Forall2_lookup_r _ _ _ (S k) c' Hcells Hk)
      as (m' & Hm' & t' & Ht' & ->).
    unfold same_shape.
    rewrite (proj1 (Hscale (data t0) max_res)),
            (proj1 (Hscale (data t') max_res)), !Hchan.
    rewrite (Hagree m0 m' t0 t' (proj2 (list_elem_of_lookup _ _) (ex_intro _ _ Hm0))
               (proj2 (list_elem_of_lookup _ _) (ex_intro _ _ Hm')) Ht0 Ht').
    by rewrite !Z.eqb_refl.
Qed.

(** A concatenation that is made joins images of one shape. *)
Lemma cat_width_Ok ts cat :
  cat_width ts = Ok cat →
  ∃ t ts', ts = t :: ts' ∧ Forall (λ c, same_shape t c = true) ts' ∧
           cat = foldl cat2 t ts'.
Proof.
  destruct ts as [|t ts']; [done|]. cbn.
  destruct (forallb (same_shape t) ts') eqn:Hall; [|done].
  intros [= <-]. exists t, ts'. split; [done|]. split; [|done].
  apply Forall_forall. intros c Hc%list_elem_of_In.
  by apply (proj1 (forallb_forall _ _) Hall).
Qed.

(** ** Walking the mesh *)

Lemma py_index_Ok_range {A} (l : list A) (i : Z) :
  - Z.of_nat (length l) ≤ i < Z.of_nat (length l) →
  ∃ x, py_index l i = Ok x.
Proof.
  intros Hi. unfold py_index. cbv zeta.
  set (j := if i <? 0 then i + Z.of_nat (length l) else i).
  assert (0 ≤ j < Z.of_nat (length l)) as Hj.
  { unfold j. destruct (Z.ltb_spec i 0); lia. }
  destruct (Z.ltb_spec j 0); [lia|].
  destruct (Z.leb_spec (Z.of_nat (length l)) j); [lia|]. cbn [orb].
  destruct (lookup_lt_is_Some_2 l (Z.to_nat j)) as [x ->]; [lia|]. eauto.
Qed.

Lemma rewrite_corner_succeeds texcoords sc mi st ti :
  - Z.of_nat (length texcoords) ≤ ti < Z.of_nat (length texcoords) →
  ∃ res, rewrite_corner texcoords sc mi st ti = Ok res.
Proof.
  intros Hti. unfold rewrite_corner. cbv zeta.
  case_bool_decide; [eauto|].
  destruct (py_index_Ok_range texcoords ti Hti) as [tc ->]. cbn. eauto.
Qed.

Lemma rewrite_faces_succeeds texcoords sc tfaces mfaces :
  mesh_ok texcoords tfaces mfaces →
  ∃ res, rewrite_faces texcoords sc tfaces mfaces = Ok res.
Proof.
  intros [Hlen Hix]. unfold rewrite_faces.
  generalize (mkTverts ∅ [], @nil face) as acc.
  assert (length tfaces + 0 ≤ length mfaces)%nat as Hlen' by lia.
  revert Hlen'. generalize 0%nat as i. clear Hlen.
  induction tfaces as [|f tfaces IH]; intros i Hlen acc; [by eexists|].
  cbn [for_enum]. unfold rewrite_face at 1. rewrite py_index_nat.
  destruct (lookup_lt_is_Some_2 mfaces i) as [mi ->];
    [cbn [length] in Hlen; lia|]. cbn [rbind].
  assert (∀ ti, ti ∈ corners f →
    - Z.of_nat (length texcoords) ≤ ti < Z.of_nat (length texcoords)) as Hf.
  { intros ti Hti. apply (Hix f); [by left|done]. }
  destruct f as [[a b] c]. unfold corners in Hf. simpl in Hf.
  cbn [fst snd].
  destruct (rewrite_corner_succeeds texcoords sc mi acc.1 a) as [[s1 a'] ->].
  { apply Hf. by left. }
  cbn [rbind fst snd].
  destruct (rewrite_corner_succeeds texcoords sc mi s1 b) as [[s2 b'] ->].
  { apply Hf. right. by left. }
  cbn [rbind].
  destruct (rewrite_corner_succeeds texcoords sc mi s2 c) as [[s3 c'] ->].
  { apply Hf. right. right. by left. }
  cbn [rbind]. apply IH.
  - intros f' ti Hf'. apply Hix. by right.
  - cbn [length] in Hlen. lia.
Qed.


(** ** Which stages can fail on an assertion *)

Lemma no_assert_Ok {A} (a : A) : no_assert (Ok a).
Proof. by intros msg. Qed.

Lemma no_assert_bind {A B} (r : result A) (k : A → result B) :
  no_assert r → (∀ a, no_assert (k a)) → no_assert (rbind r k).
Proof.
  intros Hr Hk msg. destruct r as [a|e]; simpl; [apply Hk|].
  intros [= ->]. by apply (Hr msg).
Qed.

Lemma no_assert_mapM {A B} (f : A → result B) (l : list A) :
  (∀ x, no_assert (f x)) → no_assert (mapM f l).
Proof.
  intros Hf. induction l as [|x l IH]; simpl; [apply no_assert_Ok|].
  apply no_assert_bind; [done|]. intros y.
  apply no_assert_bind; [done|]. intros ys. apply no_assert_Ok.
Qed.

Lemma no_assert_for_each {A S} (body : S → A → result S) (l : list A) s :
  (∀ s x, no_assert (body s x)) → no_assert (for_each body l s).
Proof.
  intros Hb. revert s. induction l as [|x l IH]; intros s; simpl.
  - apply no_assert_Ok.
  - by apply no_assert_bind.
Qed.

Lemma no_assert_for_enum {A S} (body : S → nat → A → result S) i l s :
  (∀ s i x, no_assert (body s i x)) → no_assert (for_enum body i l s).
Proof.
  intros Hb. revert i s. induction l as [|x l IH]; intros i s; simpl.
  - apply no_assert_Ok.
  - by apply no_assert_bind.
Qed.

Lemma no_assert_py_index {A} (l : list A) i : no_assert (py_index l i).
Proof.
  intros msg. unfold py_index. cbv zeta.
  repeat (case_match; try done).
Qed.

Lemma no_assert_py_getitem {V} (d : gmap string V) k :
  no_assert (py_getitem d k).
Proof. intros msg. unfold py_getitem. by case_match. Qed.

Lemma no_assert_as_texture v : no_assert (as_texture v).
Proof. intros msg. by destruct v. Qed.

Lemma no_assert_data_device v : no_assert (data_device v).
Proof. intros msg. by destruct v. Qed.

Lemma no_assert_pot_ceil x : no_assert (pot_ceil x).
Proof. intros msg. unfold pot_ceil. by case_match. Qed.

Lemma no_assert_cat_width ts : no_assert (cat_width ts).
Proof.
  intros msg. destruct ts as [|t ts]; [done|]. cbn.
  by destruct (forallb (same_shape t) ts).
Qed.

Ltac no_assert_tac :=
  repeat first
    [ apply no_assert_Ok
    | apply no_assert_py_index
    | apply no_assert_py_getitem
    | apply no_assert_as_texture
    | apply no_assert_data_device
    | apply no_assert_pot_ceil
    | apply no_assert_cat_width
    | apply no_assert_mapM; intros ?
    | apply no_assert_for_each; intros ? ?
    | apply no_assert_for_enum; intros ? ? ?
    | apply no_assert_bind; [|intros ?]
    | match goal with
      | |- no_assert (if ?b then _ else _) => destruct b
      | |- no_assert (match ?x with Some _ => _ | None => _ end) => destruct x
      | |- no_assert (let '(_, _) := ?x in _) => destruct x
      end ].

Lemma no_assert_normalize_normals materials :
  no_assert (normalize_normals materials).
Proof.
  rewrite normalize_normals_eq. unfold inject_normal. no_assert_tac.
Qed.

Lemma no_assert_find_max_res materials :
  no_assert (find_max_res materials).
Proof. unfold find_max_res, max_res_step, tex_res. no_assert_tac. Qed.

Lemma no_assert_compute_full_res max_res count :
  no_assert (compute_full_res max_res count).
Proof. unfold compute_full_res. no_assert_tac. Qed.

Lemma no_assert_merge_slots materials max_res full_res uber :
  no_assert (for_each (merge_slot materials max_res full_res) textures uber).
Proof. unfold merge_slot, atlas_cell. no_assert_tac. Qed.

Lemma no_assert_rewrite_faces texcoords sc tfaces mfaces :
  no_assert (rewrite_faces texcoords sc tfaces mfaces).
Proof.
  unfold rewrite_faces, rewrite_face, rewrite_corner. cbv zeta.
  no_assert_tac.
Qed.

(** A failed check names the assertion that failed. *)
Lemma check_material_normal_assert first mat :
  check_material first tt mat = Raise (AssertionError (Some msg_normal)) →
  py_in "normal" mat ≠ py_in "normal" first.
Proof.
  unfold check_material. intros Hc Heq.
  destruct (py_getitem mat "bsdf") as [a|e] eqn:Ha; [|by
    pose proof (no_assert_py_getitem mat "bsdf" (Some msg_normal));
    simpl in Hc; congruence].
  destruct (py_getitem first "bsdf") as [b|e] eqn:Hb; [|by
    pose proof (no_assert_py_getitem first "bsdf" (Some msg_normal));
    simpl in Hc; congruence].
  cbn [rbind] in Hc.
  destruct (tag_eq a b) as [[|]|e] eqn:Hab; cbn [assert rbind] in Hc.
  - rewrite Heq, eqb_reflx in Hc. done.
  - done.
  - injection Hc as ->. by apply (no_assert_tag_eq a b (Some msg_normal)).
Qed.

End merge.

(** ** merge_materials as a whole *)

Section merged.
Context `{!Externals}.

Lemma first_elem_of {A} (l : list A) x : l !! 0%nat = Some x → x ∈ l.
Proof. intros Hx. apply list_elem_of_lookup. eauto. Qed.

(** What a completed call went through. *)
Lemma merge_materials_Ok materials texcoords tfaces mfaces r :
  merge_materials materials texcoords tfaces mfaces = Ok r →
  ∃ first bsdf max_res full_res st,
    materials ≠ [] ∧
    normalize_normals materials = Ok (materials_after r) ∧
    materials_after r !! 0%nat = Some first ∧
    (∀ m, m ∈ materials_after r → check_material first tt m = Ok tt) ∧
    first !! "bsdf" = Some bsdf ∧
    find_max_res (materials_after r) = Ok (Some max_res) ∧
    compute_full_res max_res (length (materials_after r)) = Ok full_res ∧
    for_each (merge_slot (materials_after r) max_res full_res) textures
             (<["bsdf" := bsdf]> {[ "name" := VStr "uber_material" ]})
      = Ok (uber_material r) ∧
    rewrite_faces texcoords (s_coeff max_res full_res) tfaces mfaces
      = Ok (st, ret_tfaces r) ∧
    ret_tverts_data r = new_tverts_data st.
Proof.
  unfold merge_materials. intros Hm.
  apply rbind_Ok in Hm as ([] & Hne & Hm).
  apply assert_Ok, bool_decide_eq_true in Hne.
  apply rbind_Ok in Hm as (mats' & Hnorm & Hm).
  apply rbind_Ok in Hm as (first & Hfirst & Hm).
  apply rbind_Ok in Hm as ([] & Hcheck & Hm).
  apply rbind_Ok in Hm as (bsdf & Hbsdf & Hm).
  apply rbind_Ok in Hm as (mr & Hmr & Hm).
  apply rbind_Ok in Hm as (max_res & Hmax & Hm).
  apply rbind_Ok in Hm as (full_res & Hfull & Hm).
  apply rbind_Ok in Hm as (uber & Huber & Hm).
  apply rbind_Ok in Hm as ([st out] & Hfaces & Hm).
  apply Ok_inj in Hm. subst r. cbn.
  rewrite py_index_0 in Hfirst.
  destruct (mats' !! 0%nat) as [first'|] eqn:H0; [|done].
  apply Ok_inj in Hfirst. subst first'.
  destruct mr as [mr|]; [|done]. apply Ok_inj in Hmax. subst mr.
  unfold py_getitem in Hbsdf.
  destruct (first !! "bsdf") as [b|] eqn:Hb; [|done].
  apply Ok_inj in Hbsdf. subst b.
  exists first, bsdf, max_res, full_res, st.
  split; [by destruct materials; [simpl in Hne; lia|]|].
  repeat (split; [done|]). split; [|done].
  by apply for_each_unit_Ok.
Qed.

(** The resolutions a completed call worked with. *)
Lemma merge_materials_resolution materials texcoords tfaces mfaces r :
  merge_materials materials texcoords tfaces mfaces = Ok r →
  ∃ H W st,
    elementwise_max (H, W) (all_resolutions materials) ∧
    0 < H ∧ 0 < W ∧
    find_max_res (materials_after r) = Ok (Some (H, W)) ∧
    rewrite_faces texcoords
      (s_coeff (H, W)
         (2 ^ Z.log2_up H,
          2 ^ Z.log2_up (W * Z.of_nat (length materials))))
      tfaces mfaces = Ok (st, ret_tfaces r) ∧
    ret_tverts_data r = new_tverts_data st.
Proof.
  intros Hm. apply merge_materials_Ok in Hm as
    (first & bsdf & [mh mw] & full & st & Hne & Hnorm & Hfirst & Hcheck &
     Hbsdf & Hmax & Hfull & Huber & Hfaces & Hdata).
  apply compute_full_res_Ok in Hfull as (HH & HW & ->). simpl in HH, HW.
  rewrite (normalize_normals_length _ _ Hnorm) in HW, Hfaces.
  exists mh, mw, st. split.
  - pose proof (find_max_res_Ok _ _ Hmax) as Heq.
    rewrite (all_resolutions_normalized _ _ Hnorm) in Heq.
    destruct (foldl_max_step_None (all_resolutions materials)) as (r' & Hr' & Hmx).
    { by apply all_resolutions_nonempty. }
    rewrite Hr' in Heq. by injection Heq as ->.
  - split; [done|]. split; [lia|]. done.
Qed.

(** The entry a corner points at after the merge. *)
Lemma corner_entry materials texcoords tfaces mfaces r :
  merge_materials materials texcoords tfaces mfaces = Ok r →
  ∃ mh mw,
    elementwise_max (mh, mw) (all_resolutions materials) ∧
    0 < mh ∧ 0 < mw ∧
    length (ret_tfaces r) = length tfaces ∧
    ∀ fi f i f' vi ti ti',
      tfaces !! fi = Some f → mfaces !! fi = Some i →
      ret_tfaces r !! fi = Some f' →
      corners f !! vi = Some ti → corners f' !! vi = Some ti' →
      ∃ tc, py_index texcoords ti = Ok tc ∧
            ret_tverts_data r !! Z.to_nat ti' =
              Some (new_coord
                      (s_coeff (mh, mw)
                         (2 ^ Z.log2_up mh,
                          2 ^ Z.log2_up (mw * Z.of_nat (length materials))))
                      i tc).
Proof.
  intros Hm. apply merge_materials_resolution in Hm as
    (mh & mw & st & Hmax & HH & HW & _ & Hfaces & Hdata).
  exists mh, mw. repeat (split; [done|]).
  apply rewrite_faces_inv in Hfaces as (Hlen & Hinv & Hall).
  split.
  - apply Forall2_length in Hall. rewrite length_zip in Hall. lia.
  - intros fi f i f' vi ti ti' Hf Hi Hf' Hti Hti'.
    assert (zip tfaces mfaces !! fi = Some (f, i)) as Hz.
    { apply lookup_zip_with_Some. eauto. }
    pose proof (Forall2_lookup_lr _ _ _ _ _ _ Hall Hz Hf') as Hface.
    simpl in Hface.
    assert (face_keys f i !! vi = Some (ti, i)) as Hk.
    { unfold face_keys. by rewrite list_lookup_fmap, Hti. }
    pose proof (Forall2_lookup_lr _ _ _ _ _ _ Hface Hk Hti') as Hpl.
    destruct (placed_data _ _ _ _ _ _ Hinv Hpl) as (tc & Htc & Hd).
    exists tc. split; [done|]. by rewrite Hdata, Hd.
Qed.

(** C1.  After a merge, every corner of every face points at an entry
    [((i + u) / sCol, v / sRow)], where [(u, v)] is the UV pair the corner
    pointed at before, [i] the material index of the face,
    [sRow = fullRes.height / maxRes.height] and
    [sCol = fullRes.width / maxRes.width]. *)
Theorem rewritten_coordinates materials texcoords tfaces mfaces r :
  merge_materials materials texcoords tfaces mfaces = Ok r →
  ∃ H W,
    elementwise_max (H, W) (all_resolutions materials) ∧
    let fullH := 2 ^ Z.log2_up H in
    let fullW := 2 ^ Z.log2_up (W * Z.of_nat (length materials)) in
    let sRow := (inject_Z fullH / inject_Z H)%Q in
    let sCol := (inject_Z fullW / inject_Z W)%Q in
    length (ret_tfaces r) = length tfaces ∧
    ∀ fi f i f' vi ti ti',
      tfaces !! fi = Some f → mfaces !! fi = Some i →
      ret_tfaces r !! fi = Some f' →
      corners f !! vi = Some ti → corners f' !! vi = Some ti' →
      ∃ u v, py_index texcoords ti = Ok (u, v) ∧
             ret_tverts_data r !! Z.to_nat ti' =
               Some (((inject_Z i + u) / sCol)%Q, (v / sRow)%Q).
Proof.
  intros Hm. apply corner_entry in Hm as
    (mh & mw & Hmax & _ & _ & Hlen & Hall).
  exists mh, mw. split; [done|]. cbv zeta. split; [done|].
  intros fi f i f' vi ti ti' Hf Hi Hf' Hti Hti'.
  destruct (Hall fi f i f' vi ti ti' Hf Hi Hf' Hti Hti')
    as ([u v] & Htc & Hd).
  exists u, v. split; [done|]. exact Hd.
Qed.

(** C3.  After a merge, the new table has one entry per distinct
    (UV index, material index) pair met at the corners: its length is the
    number of distinct pairs, its entries are the coordinates of the
    distinct pairs in the order in which the scan first meets them, and two
    corners receive the same new index exactly when their pairs are
    equal. *)
Theorem one_entry_per_pair materials texcoords tfaces mfaces r :
  merge_materials materials texcoords tfaces mfaces = Ok r →
  let keys := corner_keys tfaces mfaces in
  let indices := concat (corners <$> ret_tfaces r) in
  (length tfaces ≤ length mfaces)%nat ∧
  length (ret_tverts_data r) = size (list_to_set keys : gset (Z * Z)) ∧
  (∃ sc, Forall2 (λ k d, ∃ tc, py_index texcoords k.1 = Ok tc ∧
                               d = new_coord sc k.2 tc)
                 (distinct_in_order keys) (ret_tverts_data r)) ∧
  Forall2 (placed (distinct_in_order keys)) keys indices ∧
  ∀ p q kp kq ip iq,
    keys !! p = Some kp → keys !! q = Some kq →
    indices !! p = Some ip → indices !! q = Some iq →
    (ip = iq ↔ kp = kq).
Proof.
  intros Hm keys indices. apply merge_materials_resolution in Hm as
    (mh & mw & st & _ & _ & _ & _ & Hfaces & Hdata).
  apply rewrite_faces_inv in Hfaces as (Hlen & Hinv & Hall).
  fold keys in Hinv, Hall.
  assert (Forall2 (placed (distinct_in_order keys)) keys indices) as Hpl.
  { assert (keys = concat (uncurry face_keys <$> zip tfaces mfaces)) as Hk.
    { unfold keys, corner_keys. by rewrite zip_with_zip. }
    revert Hall. generalize (distinct_in_order keys) as K. intros K Hall.
    rewrite Hk. unfold indices.
    apply Forall2_concat_concat, Forall2_fmap.
    eapply Forall2_impl; [exact Hall|]. by intros [f i] f'. }
  split; [done|]. split; [|split; [|split]].
  - rewrite Hdata, <- distinct_in_order_size. symmetry.
    apply (Forall2_length _ _ _ (inv_data _ _ _ _ Hinv)).
  - eexists. rewrite Hdata. apply (inv_data _ _ _ _ Hinv).
  - done.
  - intros p q kp kq ip iq Hkp Hkq Hip Hiq.
    eapply placed_inj; [exact Hinv| |].
    + apply (Forall2_lookup_lr _ _ _ _ _ _ Hpl Hkp Hip).
    + apply (Forall2_lookup_lr _ _ _ _ _ _ Hpl Hkq Hiq).
Qed.

Lemma s_col_pos mw n :
  0 < mw → (0 < inject_Z (2 ^ Z.log2_up n) / inject_Z mw)%Q.
Proof.
  intros HW. apply Qlt_shift_div_l.
  - change 0%Q with (inject_Z 0). rewrite <- Zlt_Qlt. done.
  - rewrite Qmult_0_l. change 0%Q with (inject_Z 0). rewrite <- Zlt_Qlt.
    apply Z.pow_pos_nonneg; [lia|apply Z.log2_up_nonneg].
Qed.




Lemma textures_ok_positive materials x :
  Forall textures_ok materials → x ∈ all_resolutions materials →
  0 < x.1 ∧ 0 < x.2.
Proof.
  intros Hok. unfold all_resolutions.
  rewrite list_elem_of_bind. intros (mat & Hx & Hmat).
  apply list_elem_of_fmap in Hx as (tex & -> & Htex).
  rewrite Forall_forall in Hok. specialize (Hok _ Hmat).
  unfold slot_resolution.
  destruct (mat !! tex) as [v|] eqn:Hv; [|simpl; lia].
  destruct (Hok tex v Htex Hv) as (t & -> & Hpos). exact Hpos.
Qed.

(** The textures of the merged material. *)
Lemma merge_materials_uber materials texcoords tfaces mfaces r :
  merge_materials materials texcoords tfaces mfaces = Ok r →
  ∃ mh mw first,
    elementwise_max (mh, mw) (all_resolutions materials) ∧
    0 < mh ∧ 0 < mw ∧
    materials_after r !! 0%nat = Some first ∧
    ∀ tex, tex ∈ textures →
      if py_in tex first
      then ∃ t, atlas_of (materials_after r) (mh, mw)
                  (2 ^ Z.log2_up mh,
                   2 ^ Z.log2_up (mw * Z.of_nat (length materials))) tex t ∧
                uber_material r !! tex = Some (VTex t)
      else uber_material r !! tex = None.
Proof.
  intros Hm.
  destruct (merge_materials_resolution _ _ _ _ _ Hm) as
    (mh & mw & st & Hmax & HH & HW & Hfind & _).
  apply merge_materials_Ok in Hm as
    (first & bsdf & mr & full & st' & Hne & Hnorm & Hfirst & Hcheck &
     Hbsdf & Hmax' & Hfull & Huber & _).
  rewrite Hfind in Hmax'. injection Hmax' as <-.
  apply compute_full_res_Ok in Hfull as (_ & _ & ->). simpl in Huber.
  rewrite (normalize_normals_length _ _ Hnorm) in Huber.
  exists mh, mw, first. repeat (split; [done|]).
  destruct (merge_slots_Ok _ _ _ _ _ _ Hfirst Huber) as [_ Hslots].
  intros tex Htex. specialize (Hslots tex Htex).
  destruct (py_in tex first); [done|]. rewrite Hslots.
  unfold textures in Htex. rewrite !elem_of_cons, elem_of_nil in Htex.
  destruct Htex as [->|[->|[->|[]]]];
    by rewrite lookup_insert_ne, lookup_singleton_ne.
Qed.

(** C2.  For a non-empty sequence of materials whose [kd], [ks] and
    [normal] entries are textures, let [(H, W)] be the element-wise maximum
    of the resolutions of all slots of all materials (1x1 for an absent
    slot).  The canvas is [(2^ceil(log2 H), 2^ceil(log2 (W*m)))]: in each
    dimension the least power of two that is no smaller than [H],
    respectively [W*m].  A merge that returns has built, for every slot
    that material 0 has (and for [normal] as soon as one material has it),
    a texture of exactly that resolution; the merged material holds no
    texture of another resolution. *)
Theorem atlas_resolution materials :
  materials ≠ [] →
  Forall textures_ok materials →
  ∃ mh mw,
    elementwise_max (mh, mw) (all_resolutions materials) ∧
    let m := Z.of_nat (length materials) in
    let full_res := (2 ^ Z.log2_up mh, 2 ^ Z.log2_up (mw * m)) in
    find_max_res materials = Ok (Some (mh, mw)) ∧
    compute_full_res (mh, mw) (length materials) = Ok full_res ∧
    power_of_two full_res.1 ∧ power_of_two full_res.2 ∧
    mh ≤ full_res.1 ∧ mw * m ≤ full_res.2 ∧
    (∀ p, power_of_two p → mh ≤ p → full_res.1 ≤ p) ∧
    (∀ p, power_of_two p → mw * m ≤ p → full_res.2 ≤ p) ∧
    ∀ texcoords tfaces mfaces r,
      merge_materials materials texcoords tfaces mfaces = Ok r →
      (∀ tex t, tex ∈ textures → uber_material r !! tex = Some (VTex t) →
                getRes t = full_res) ∧
      (∀ tex first,
         tex ∈ textures → materials !! 0%nat = Some first →
         is_Some (first !! tex) →
         ∃ t, uber_material r !! tex = Some (VTex t) ∧ getRes t = full_res) ∧
      (∀ m, m ∈ materials → is_Some (m !! "normal") →
         ∃ t, uber_material r !! "normal" = Some (VTex t) ∧
              getRes t = full_res).
Proof.
  intros Hne Hok.
  destruct (foldl_max_step_None (all_resolutions materials)) as
    ([mh mw] & Hfold & Hmax); [by apply all_resolutions_nonempty|].
  exists mh, mw. split; [done|]. cbv zeta.
  assert (0 < mh ∧ 0 < mw) as [HH HW].
  { destruct Hmax as (_ & (x & Hx & Hx1) & (y & Hy & Hy2)).
    apply (textures_ok_positive _ _ Hok) in Hx, Hy. simpl in *. lia. }
  assert (0 < mw * Z.of_nat (length materials)) as HWm.
  { destruct materials; [done|]. simpl length. lia. }
  destruct (pot_ceil_bound mh HH) as (Hp1 & Hle1 & Hmin1).
  destruct (pot_ceil_bound _ HWm) as (Hp2 & Hle2 & Hmin2).
  split; [by rewrite find_max_res_textures_ok, Hfold|].
  split; [by apply compute_full_res_Ok|].
  repeat (split; [done|]).
  intros texcoords tfaces mfaces r Hm.
  destruct (merge_materials_uber _ _ _ _ _ Hm) as
    (mh' & mw' & first' & Hmax' & _ & _ & Hfirst' & Hslots).
  pose proof (elementwise_max_unique _ _ _ Hmax Hmax') as [= <- <-].
  apply merge_materials_Ok in Hm as
    (_ & _ & _ & _ & _ & _ & Hnorm & _).
  assert (∀ tex, tex ∈ textures → py_in tex first' = true →
            ∃ t, uber_material r !! tex = Some (VTex t) ∧
                 getRes t = (2 ^ Z.log2_up mh,
                             2 ^ Z.log2_up
                               (mw * Z.of_nat (length materials))))
    as Hbuilt.
  { intros tex Htex Hin. specialize (Hslots tex Htex). rewrite Hin in Hslots.
    destruct Hslots as (t & Hatlas & Ht). exists t. split; [done|].
    by apply atlas_of_res in Hatlas. }
  split; [|split].
  - intros tex t Htex Ht. specialize (Hslots tex Htex).
    destruct (py_in tex first').
    + destruct Hslots as (t' & Hatlas & Ht'). rewrite Ht in Ht'.
      injection Ht' as <-. by apply atlas_of_res in Hatlas.
    + congruence.
  - intros tex first Htex Hfirst Hsome. apply Hbuilt; [done|].
    destruct (normalize_normals_lookup _ _ _ _ Hnorm Hfirst')
      as (first0 & Hfirst0 & Hor & Hk).
    rewrite Hfirst in Hfirst0. injection Hfirst0 as <-.
    destruct Hor as [->| ->]; [by apply py_in_true|].
    destruct (decide (tex = "normal")) as [->|Hnn].
    + apply with_normal_has.
    + apply py_in_true. by rewrite with_normal_other.
  - intros m (i & Hi)%list_elem_of_lookup Hsome.
    apply Hbuilt; [unfold textures; right; right; by left|].
    destruct (lookup_lt_is_Some_2 (materials_after r) i) as [m' Hm'].
    { rewrite (normalize_normals_length _ _ Hnorm). by eapply lookup_lt_Some. }
    rewrite <- (normalize_normals_uniform _ _ m' first' Hnorm);
      [|apply list_elem_of_lookup; eauto|by eapply first_elem_of].
    destruct (normalize_normals_lookup _ _ _ _ Hnorm Hm')
      as (m0 & Hm0 & Hor & _).
    rewrite Hi in Hm0. injection Hm0 as <-.
    destruct Hor as [->| ->]; [by apply py_in_true|apply with_normal_has].
Qed.


(** ** The cells of an atlas *)

Lemma foldl_cat2_cells w cs acc prefix :
  Forall (λ c, t_w c = w) cs →
  t_w acc = Z.of_nat (length prefix) * w →
  (∀ i cell, prefix !! i = Some cell → ∀ r c ch, 0 ≤ c < w →
     t_at acc r (Z.of_nat i * w + c) ch = t_at cell r c ch) →
  t_h (foldl cat2 acc cs) = t_h acc ∧
  t_w (foldl cat2 acc cs) = Z.of_nat (length (prefix ++ cs)) * w ∧
  ∀ i cell, (prefix ++ cs) !! i = Some cell → ∀ r c ch, 0 ≤ c < w →
    t_at (foldl cat2 acc cs) r (Z.of_nat i * w + c) ch = t_at cell r c ch.
Proof.
  intros Hcs. revert acc prefix.
  induction Hcs as [|c1 cs Hw _ IH]; intros acc prefix Hacc Hat.
  - rewrite app_nil_r. done.
  - cbn [foldl].
    destruct (IH (cat2 acc c1) (prefix ++ [c1])) as (Hh & Hwd & Hcells).
    + rewrite length_app. cbn. lia.
    + intros i cell Hi r c ch Hc. cbn.
      apply lookup_app_Some in Hi as [Hi|[Hge Hi]].
      * pose proof (lookup_lt_Some _ _ _ Hi) as Hlt.
        destruct (Z.ltb_spec (Z.of_nat i * w + c) (t_w acc)); [by apply Hat|].
        nia.
      * destruct (i - length prefix)%nat eqn:Hd; [|done].
        injection Hi as <-. assert (i = length prefix) as -> by lia.
        destruct (Z.ltb_spec (Z.of_nat (length prefix) * w + c) (t_w acc));
          [lia|].
        f_equal. lia.
    + rewrite <- app_assoc in Hwd, Hcells. done.
Qed.

Lemma cat_width_cells w cells cat :
  Forall (λ c, t_w c = w) cells →
  cat_width cells = Ok cat →
  (∀ c0, cells !! 0%nat = Some c0 → t_h cat = t_h c0) ∧
  t_w cat = Z.of_nat (length cells) * w ∧
  ∀ i cell, cells !! i = Some cell → ∀ r c ch, 0 ≤ c < w →
    t_at cat r (Z.of_nat i * w + c) ch = t_at cell r c ch.
Proof.
  intros Hall Hcat. apply cat_width_Ok in Hcat as (c0 & cs & -> & _ & ->).
  inversion Hall as [|? ? Hw0 Hcs]. subst.
  destruct (foldl_cat2_cells (t_w c0) cs c0 [c0] Hcs) as (Hh & Hwd & Hcells).
  - cbn. lia.
  - intros [|i] cell Hi r c ch Hc; [|done]. injection Hi as <-.
    f_equal; lia.
  - split; [|done]. by intros c0' [= <-].
Qed.

(** ** Putting a call together *)

Lemma merge_materials_intro materials texcoords tfaces mfaces
    materials' first bsdf max_res full_res uber st out :
  materials ≠ [] →
  normalize_normals materials = Ok materials' →
  materials' !! 0%nat = Some first →
  (∀ m, m ∈ materials' → check_material first tt m = Ok tt) →
  first !! "bsdf" = Some bsdf →
  find_max_res materials' = Ok (Some max_res) →
  compute_full_res max_res (length materials') = Ok full_res →
  for_each (merge_slot materials' max_res full_res) textures
           (<["bsdf" := bsdf]> {[ "name" := VStr "uber_material" ]})
    = Ok uber →
  rewrite_faces texcoords (s_coeff max_res full_res) tfaces mfaces
    = Ok (st, out) →
  merge_materials materials texcoords tfaces mfaces
    = Ok (mkMerged uber (new_tverts_data st) out materials').
Proof.
  intros Hne Hnorm Hfirst Hcheck Hbsdf Hmax Hfull Huber Hfaces.
  unfold merge_materials.
  rewrite bool_decide_eq_true_2 by (destruct materials; [done|simpl; lia]).
  cbn [assert rbind]. rewrite Hnorm. cbn [rbind].
  rewrite py_index_0, Hfirst. cbn [rbind].
  rewrite (proj2 (for_each_unit_Ok _ _) Hcheck). cbn [rbind].
  unfold py_getitem. rewrite Hbsdf. cbn [rbind].
  rewrite Hmax. cbn [rbind]. rewrite Hfull. cbn [rbind].
  rewrite Huber. cbn [rbind]. rewrite Hfaces. done.
Qed.

Lemma merge_slots_succeed materials first max_res full_res uber :
  scale_exact → scale_keeps_channels → channels_agree materials →
  materials !! 0%nat = Some first →
  (∀ tex, tex ∈ textures → py_in tex first = true →
     ∀ m, m ∈ materials → ∃ t, m !! tex = Some (VTex t)) →
  ∃ uber', for_each (merge_slot materials max_res full_res) textures uber
           = Ok uber'.
Proof.
  intros Hscale Hchan Hagree Hfirst Hall. unfold textures in *.
  cbn [for_each].
  destruct (merge_slot_succeeds materials first max_res full_res uber "kd")
    as [u1 ->]; [done|done|done|apply Hall; by left| |].
  { intros m1 m2 t1 t2. apply Hagree. by left. }
  cbn [rbind].
  destruct (merge_slot_succeeds materials first max_res full_res u1 "ks")
    as [u2 ->]; [done|done|done|apply Hall; right; by left| |].
  { intros m1 m2 t1 t2. apply Hagree. right. by left. }
  cbn [rbind].
  destruct (merge_slot_succeeds materials first max_res full_res u2 "normal")
    as [u3 ->]; [done|done|done|apply Hall; right; right; by left| |].
  { intros m1 m2 t1 t2. apply Hagree. right. right. by left. }
  cbn [rbind]. eauto.
Qed.


(** ** Presence of normal maps *)

Lemma merge_never_normal_assert materials texcoords tfaces mfaces :
  merge_materials materials texcoords tfaces mfaces
  ≠ Raise (AssertionError (Some msg_normal)).
Proof.
  unfold merge_materials.
  destruct (bool_decide (0 < length materials)%nat); cbn [assert rbind];
    [|done].
  destruct (normalize_normals materials) as [mats'|e] eqn:Hn; cbn [rbind].
  2: { intros [= ->]. by apply (no_assert_normalize_normals materials
                                  (Some msg_normal)). }
  destruct (py_index mats' 0) as [first|e] eqn:Hfirst; cbn [rbind].
  2: { intros [= ->]. by apply (no_assert_py_index mats' 0 (Some msg_normal)). }
  rewrite py_index_0 in Hfirst.
  destruct (mats' !! 0%nat) as [first'|] eqn:H0; [|done].
  apply Ok_inj in Hfirst. subst first'.
  destruct (for_each (check_material first) mats' tt) as [[]|e] eqn:Hc;
    cbn [rbind].
  2: { intros [= ->]. apply for_each_unit_Raise in Hc as (x & Hx & Hc).
       apply check_material_normal_assert in Hc. apply Hc.
       eapply normalize_normals_uniform; [exact Hn|exact Hx|].
       by eapply first_elem_of. }
  match goal with |- ?r ≠ _ => cut (no_assert r); [intros Hna; apply Hna|] end.
  apply no_assert_bind; [apply no_assert_py_getitem|intros bsdf].
  apply no_assert_bind; [apply no_assert_find_max_res|intros mr].
  apply no_assert_bind; [by destruct mr|intros max_res].
  apply no_assert_bind; [apply no_assert_compute_full_res|intros full_res].
  apply no_assert_bind; [apply no_assert_merge_slots|intros uber].
  apply no_assert_bind; [apply no_assert_rewrite_faces|intros [st out]].
  apply no_assert_Ok.
Qed.

(** C5.  The normal-presence assertion never fails.  When some materials
    have a normal map and some do not, each one without receives the flat
    1x1 buffer (0, 0, 1) before the check; and in the merged material the
    normal buffer is made of one cell per material, in material order,
    the cell of a material being its own (or its synthesized) normal map
    resampled to the maximum resolution. *)
Theorem missing_normals_synthesized materials texcoords tfaces mfaces :
  merge_materials materials texcoords tfaces mfaces
    ≠ Raise (AssertionError (Some msg_normal)) ∧
  (mixed_normals materials = true →
   getRes flat_normal = (1, 1) ∧
   (∀ row col, t_at (data flat_normal) row col 0 = 0%Q ∧
               t_at (data flat_normal) row col 1 = 0%Q ∧
               t_at (data flat_normal) row col 2 = 1%Q) ∧
   ((∀ m, m ∈ materials → m !! "normal" = None →
          ∃ v, m !! "kd" = Some v ∧ data_device v = Ok tt) →
    normalize_normals materials = Ok (with_normal <$> materials)) ∧
   ∀ r, merge_materials materials texcoords tfaces mfaces = Ok r →
     materials_after r = with_normal <$> materials ∧
     ∃ mh mw t cells cat,
       elementwise_max (mh, mw) (all_resolutions materials) ∧
       uber_material r !! "normal" = Some (VTex t) ∧
       Forall2 (λ m cell,
                  ∃ n, with_normal m !! "normal" = Some (VTex n) ∧
                       (m !! "normal" = None → n = flat_normal) ∧
                       cell = scale_img_nhwc (data n) (mh, mw))
               materials cells ∧
       cat_width cells = Ok cat ∧
       t = Texture2D_of_tensor
             (_upscale_replicate cat
                (2 ^ Z.log2_up mh,
                 2 ^ Z.log2_up (mw * Z.of_nat (length materials)))) ∧
       (scale_exact →
        ∀ i cell row col ch,
          cells !! i = Some cell → 0 ≤ row < mh → 0 ≤ col < mw →
          t_at (data t) row (Z.of_nat i * mw + col) ch
          = t_at cell row col ch)).
Proof.
  split; [apply merge_never_normal_assert|]. intros Hmix.
  split; [done|]. split; [by intros row col|]. split.
  { intros Hkd. rewrite normalize_normals_succeeds by done. by rewrite Hmix. }
  intros r Hm.
  destruct (merge_materials_uber _ _ _ _ _ Hm) as
    (mh & mw & first & Hmax & HH & HW & Hfirst & Hslots).
  apply merge_materials_Ok in Hm as
    (_ & _ & _ & _ & _ & Hne & Hnorm & _).
  apply normalize_normals_Ok in Hnorm. rewrite Hmix in Hnorm.
  split; [done|].
  specialize (Hslots "normal"). rewrite Hnorm in Hfirst, Hslots.
  assert (py_in "normal" first = true) as Hhas.
  { apply first_elem_of, list_elem_of_fmap in Hfirst as (m & -> & _).
    apply with_normal_has. }
  rewrite Hhas in Hslots.
  destruct Hslots as (t & (cells & cat & Hcells & Hcat & Ht) & Hu).
  { unfold textures. set_solver. }
  exists mh, mw, t, cells, cat. repeat (split; [done|]).
  apply mapM_Ok, Forall2_fmap_l in Hcells.
  assert (Forall2 (λ m cell,
            ∃ n, with_normal m !! "normal" = Some (VTex n) ∧
                 (m !! "normal" = None → n = flat_normal) ∧
                 cell = scale_img_nhwc (data n) (mh, mw)) materials cells)
    as Hcells'.
  { eapply Forall2_impl; [exact Hcells|]. intros m cell.
    unfold compose, atlas_cell, py_getitem.
    destruct (with_normal m !! "normal") as [[| |n]|] eqn:Hn; try done.
    simpl. intros [= <-]. exists n. split; [done|]. split; [|done].
    intros Hnone. unfold with_normal in Hn.
    rewrite (proj2 (py_in_false _ _) Hnone), lookup_insert_eq in Hn.
    by injection Hn as <-. }
  repeat (split; [done|]).
  intros Hscale i cell row col ch Hi Hrow Hcol.
  assert (Forall (λ c, t_w c = mw) cells) as Hw.
  { apply Forall_forall. intros c Hc.
    apply list_elem_of_lookup in Hc as [j Hj].
    destruct (Forall2_lookup_r _ _ _ _ _ Hcells' Hj) as (m & _ & n & _ & _ & ->).
    apply (Hscale (data n) (mh, mw)). }
  destruct (cat_width_cells mw cells cat Hw Hcat) as (Hh & Hwd & Hat).
  assert (t_h cat = mh) as Hhc.
  { destruct cells as [|c0 cs]; [done|]. rewrite (Hh c0 eq_refl).
    destruct (Forall2_lookup_r _ _ _ 0%nat c0 Hcells' eq_refl)
      as (m & _ & n & _ & _ & ->).
    apply (Hscale (data n) (mh, mw)). }
  subst t. cbn [data Texture2D_of_tensor _upscale_replicate t_at].
  pose proof (lookup_lt_Some _ _ _ Hi) as Hlt.
  rewrite Z.min_l by lia. rewrite Z.min_l by nia.
  by apply Hat.
Qed.

(** ** Preconditions *)

Lemma normalize_normals_elem materials materials' m' :
  normalize_normals materials = Ok materials' → m' ∈ materials' →
  ∃ m, m ∈ materials ∧ (m' = m ∨ m' = with_normal m) ∧
       ∀ k, k ≠ "normal" → m' !! k = m !! k.
Proof.
  intros Hn (i & Hi)%list_elem_of_lookup.
  destruct (normalize_normals_lookup _ _ _ _ Hn Hi) as (m & Hm & Hor & Hk).
  exists m. split; [|done]. apply list_elem_of_lookup. eauto.
Qed.

Lemma merge_bsdf_mismatch materials texcoords tfaces mfaces first m :
  materials !! 0%nat = Some first → m ∈ materials →
  m !! "bsdf" ≠ first !! "bsdf" →
  string_tags materials →
  ∀ r, merge_materials materials texcoords tfaces mfaces ≠ Ok r.
Proof.
  intros Hfirst (i & Hi)%list_elem_of_lookup Hdiff Hstr r Hm.
  apply merge_materials_Ok in Hm as
    (first' & bsdf & _ & _ & _ & Hne & Hnorm & Hfirst' & Hcheck & _).
  pose proof (normalize_normals_length _ _ Hnorm) as Hlen.
  destruct (lookup_lt_is_Some_2 (materials_after r) i) as [m' Hm'].
  { rewrite Hlen. by eapply lookup_lt_Some. }
  destruct (normalize_normals_lookup _ _ _ _ Hnorm Hm') as (m0 & Hm0 & _ & Hk).
  destruct (normalize_normals_lookup _ _ _ _ Hnorm Hfirst')
    as (f0 & Hf0 & _ & Hkf).
  rewrite Hi in Hm0. injection Hm0 as <-.
  rewrite Hfirst in Hf0. injection Hf0 as <-.
  assert (m' ∈ materials_after r) as Hin by (apply list_elem_of_lookup; eauto).
  apply Hcheck, check_material_Ok in Hin as (a & b & Ha & Hb & Heq & _).
  rewrite Hk in Ha by done. rewrite Hkf in Hb by done.
  destruct (Hstr m) as [x Hx]; [apply list_elem_of_lookup; eauto|].
  destruct (Hstr first) as [y Hy]; [by eapply first_elem_of|].
  rewrite Hx in Ha. rewrite Hy in Hb.
  injection Ha as <-. injection Hb as <-.
  apply tag_eq_strings in Heq. apply Hdiff. congruence.
Qed.

Lemma for_each_unit_first_failure {A} (body : unit → A → result unit)
    (l : list A) e :
  (∀ x, x ∈ l → body tt x = Ok tt ∨ body tt x = Raise e) →
  (∃ x, x ∈ l ∧ body tt x ≠ Ok tt) →
  for_each body l tt = Raise e.
Proof.
  induction l as [|x l IH]; intros Hall (y & Hy & Hfail).
  - by apply elem_of_nil in Hy.
  - cbn [for_each]. destruct (Hall x) as [Hx|Hx]; [by left| |by rewrite Hx].
    rewrite Hx. cbn [rbind]. apply IH.
    + intros z Hz. apply Hall. by right.
    + apply elem_of_cons in Hy as [->|Hy]; [done|]. eauto.
Qed.

Lemma merge_bsdf_mismatch_assert materials texcoords tfaces mfaces first m :
  materials !! 0%nat = Some first → m ∈ materials →
  m !! "bsdf" ≠ first !! "bsdf" →
  Forall tagged materials →
  merge_materials materials texcoords tfaces mfaces
  = Raise (AssertionError (Some msg_bsdf)).
Proof.
  intros Hfirst Hm Hdiff Htag. rewrite Forall_forall in Htag.
  unfold merge_materials.
  rewrite bool_decide_eq_true_2 by (destruct materials; [done|simpl; lia]).
  cbn [assert rbind].
  pose proof (normalize_normals_succeeds materials
                (λ _ m0 Hm0 _, proj2 (Htag m0 Hm0))) as Hnorm.
  rewrite Hnorm. cbn [rbind].
  set (mats' := if mixed_normals materials then with_normal <$> materials
                else materials) in *.
  pose proof (normalize_normals_length _ _ Hnorm) as Hlen.
  destruct (lookup_lt_is_Some_2 mats' 0%nat) as [first' Hfirst'].
  { rewrite Hlen. by eapply lookup_lt_Some. }
  rewrite py_index_0, Hfirst'. cbn [rbind].
  destruct (normalize_normals_lookup _ _ _ _ Hnorm Hfirst')
    as (f0 & Hf0 & _ & Hkf).
  rewrite Hfirst in Hf0. injection Hf0 as <-.
  rewrite (for_each_unit_first_failure _ _ (AssertionError (Some msg_bsdf)));
    [done| |].
  - intros x Hx.
    destruct (normalize_normals_elem _ _ _ Hnorm Hx) as (x0 & Hx0 & _ & Hkx).
    destruct (Htag x0 Hx0) as [[s Hs] _].
    destruct (Htag first (first_elem_of _ _ Hfirst)) as [[s' Hs'] _].
    unfold check_material, py_getitem.
    rewrite Hkx, Hkf, Hs, Hs' by done. cbn [rbind tag_eq].
    case_bool_decide; cbn [assert rbind]; [|by right]. left.
    rewrite (normalize_normals_uniform _ _ x first' Hnorm Hx
               (first_elem_of _ _ Hfirst')).
    by rewrite eqb_reflx.
  - apply list_elem_of_lookup in Hm as [i Hi].
    destruct (lookup_lt_is_Some_2 mats' i) as [m' Hm'].
    { rewrite Hlen. by eapply lookup_lt_Some. }
    destruct (normalize_normals_lookup _ _ _ _ Hnorm Hm') as (m0 & Hm0 & _ & Hk).
    rewrite Hi in Hm0. injection Hm0 as <-.
    exists m'. split; [apply list_elem_of_lookup; eauto|].
    intros (a & b & Ha & Hb & Heq & _)%check_material_Ok.
    rewrite Hk in Ha by done. rewrite Hkf in Hb by done.
    destruct (Htag m) as [[x Hx] _]; [apply list_elem_of_lookup; eauto|].
    destruct (Htag first (first_elem_of _ _ Hfirst)) as [[y Hy] _].
    rewrite Hx in Ha. rewrite Hy in Hb.
    injection Ha as <-. injection Hb as <-.
    apply tag_eq_strings in Heq. apply Hdiff. congruence.
Qed.


Lemma merge_succeeds materials texcoords tfaces mfaces tag :
  materials ≠ [] →
  (∀ m, m ∈ materials → m !! "bsdf" = Some (VStr tag)) →
  Forall textures_ok materials →
  (∀ tex m1 m2, tex ∈ ["kd"; "ks"] → m1 ∈ materials → m2 ∈ materials →
                py_in tex m1 = py_in tex m2) →
  (mixed_normals materials = true →
   ∀ m, m ∈ materials → m !! "normal" = None → is_Some (m !! "kd")) →
  scale_exact → scale_keeps_channels →
  channels_agree (normalized materials) →
  mesh_ok texcoords tfaces mfaces →
  ∃ r, merge_materials materials texcoords tfaces mfaces = Ok r.
Proof.
  intros Hne Htag Hok Huni Hkd Hscale Hchan Hagree Hmesh.
  unfold normalized in Hagree.
  pose proof Hok as Hok'. rewrite Forall_forall in Hok'.
  assert (normalize_normals materials
          = Ok (if mixed_normals materials then with_normal <$> materials
                else materials)) as Hnorm.
  { apply normalize_normals_succeeds. intros Hmix m Hm Hnone.
    destruct (Hkd Hmix m Hm Hnone) as [v Hv]. exists v. split; [done|].
    destruct (Hok' m Hm "kd" v) as (t & -> & _); [by left|done|done]. }
  set (mats' := if mixed_normals materials then with_normal <$> materials
                else materials) in *.
  pose proof (normalize_normals_length _ _ Hnorm) as Hlen.
  destruct (lookup_lt_is_Some_2 mats' 0%nat) as [first Hfirst].
  { rewrite Hlen. destruct materials; [done|simpl; lia]. }
  pose proof (first_elem_of _ _ Hfirst) as Hfin.
  assert (∀ m', m' ∈ mats' → m' !! "bsdf" = Some (VStr tag)) as Htag'.
  { intros m' Hm'.
    destruct (normalize_normals_elem _ _ _ Hnorm Hm') as (m & Hm & _ & Hk).
    rewrite Hk by done. by apply Htag. }
  assert (Forall textures_ok mats') as Hoks.
  { apply Forall_forall. intros m' Hm'.
    destruct (normalize_normals_elem _ _ _ Hnorm Hm') as (m & Hm & [->| ->] & _).
    - by apply Hok'.
    - by apply textures_ok_with_normal, Hok'. }
  pose proof Hoks as Hoks'. rewrite Forall_forall in Hoks'.
  assert (∀ tex m1 m2, tex ∈ textures → m1 ∈ mats' → m2 ∈ mats' →
            py_in tex m1 = py_in tex m2) as Huni'.
  { intros tex m1 m2 Htex H1 H2. unfold textures in Htex.
    rewrite !elem_of_cons, elem_of_nil in Htex.
    destruct Htex as [->|[->|[->|[]]]].
    - destruct (normalize_normals_elem _ _ _ Hnorm H1) as (x1 & Hx1 & _ & Hk1).
      destruct (normalize_normals_elem _ _ _ Hnorm H2) as (x2 & Hx2 & _ & Hk2).
      unfold py_in. rewrite Hk1, Hk2 by done.
      apply (Huni "kd" x1 x2); [by left|done|done].
    - destruct (normalize_normals_elem _ _ _ Hnorm H1) as (x1 & Hx1 & _ & Hk1).
      destruct (normalize_normals_elem _ _ _ Hnorm H2) as (x2 & Hx2 & _ & Hk2).
      unfold py_in. rewrite Hk1, Hk2 by done.
      apply (Huni "ks" x1 x2); [right; by left|done|done].
    - by eapply normalize_normals_uniform. }
  destruct (foldl_max_step_None (all_resolutions mats')) as
    ([mh mw] & Hfold & Hmax).
  { apply all_resolutions_nonempty. intros Hnil. by rewrite Hnil in Hfirst. }
  assert (0 < mh ∧ 0 < mw) as [HH HW].
  { destruct Hmax as (_ & (x & Hx & Hx1) & (y & Hy & Hy2)).
    apply (textures_ok_positive _ _ Hoks) in Hx, Hy. simpl in *. lia. }
  destruct (merge_slots_succeed mats' first (mh, mw)
              (2 ^ Z.log2_up mh, 2 ^ Z.log2_up (mw * Z.of_nat (length mats')))
              (<["bsdf" := VStr tag]> {[ "name" := VStr "uber_material" ]})
              Hscale Hchan Hagree Hfirst) as [uber Huber].
  { intros tex Htex Hin m' Hm'.
    rewrite <- (Huni' tex m' first Htex Hm' Hfin) in Hin.
    apply py_in_true in Hin as [v Hv].
    destruct (Hoks' m' Hm' tex v Htex Hv) as (t & -> & _). eauto. }
  destruct (rewrite_faces_succeeds texcoords
              (s_coeff (mh, mw)
                 (2 ^ Z.log2_up mh,
                  2 ^ Z.log2_up (mw * Z.of_nat (length mats'))))
              tfaces mfaces Hmesh) as [[st out] Hfaces].
  eexists. eapply merge_materials_intro; try done.
  - intros m' Hm'. apply check_material_Ok. exists (VStr tag), (VStr tag).
    split; [by apply Htag'|]. split; [by apply Htag'|].
    split; [by apply tag_eq_strings|].
    apply Huni'; [|done|done]. unfold textures. right. right. by left.
  - by apply Htag'.
  - by rewrite find_max_res_textures_ok, Hfold.
  - apply compute_full_res_Ok. simpl. split; [done|]. split; [|done].
    rewrite Hlen. destruct materials; [done|simpl length; lia].
Qed.

(** C6 (amended).  An empty sequence of materials fails the first
    assertion; with shader tags that are strings, a material whose tag
    differs from that of the first material makes the call fail (on the
    shader assertion, for materials as the loader produces them); in both
    cases nothing is returned.  With one common shader tag, texture slots
    that hold textures with at least one pixel, [kd] and [ks] present
    everywhere or nowhere (and [kd] present where a normal map has to be
    synthesized), the call returns a merged result provided also that the
    textures of each slot agree in channel count (the synthesized normal
    maps included; the resampling keeps sizes and channels), that every
    face has a material index and that every corner index addresses the
    texture-coordinate table. *)
Theorem merge_preconditions materials texcoords tfaces mfaces :
  (materials = [] →
   merge_materials materials texcoords tfaces mfaces
   = Raise (AssertionError None)) ∧
  (∀ first m,
     materials !! 0%nat = Some first → m ∈ materials →
     m !! "bsdf" ≠ first !! "bsdf" →
     string_tags materials →
     (∃ e, merge_materials materials texcoords tfaces mfaces = Raise e) ∧
     (Forall tagged materials →
      merge_materials materials texcoords tfaces mfaces
      = Raise (AssertionError (Some msg_bsdf)))) ∧
  (∀ tag,
     materials ≠ [] →
     (∀ m, m ∈ materials → m !! "bsdf" = Some (VStr tag)) →
     Forall textures_ok materials →
     (∀ tex m1 m2, tex ∈ ["kd"; "ks"] → m1 ∈ materials → m2 ∈ materials →
                   py_in tex m1 = py_in tex m2) →
     (mixed_normals materials = true →
      ∀ m, m ∈ materials → m !! "normal" = None → is_Some (m !! "kd")) →
     scale_exact → scale_keeps_channels →
     channels_agree (normalized materials) →
     mesh_ok texcoords tfaces mfaces →
     ∃ r, merge_materials materials texcoords tfaces mfaces = Ok r).
Proof.
  split; [by intros ->|]. split.
  - intros first m Hfirst Hm Hdiff Hstr. split.
    + pose proof (merge_bsdf_mismatch _ texcoords tfaces mfaces _ _
                    Hfirst Hm Hdiff Hstr) as Hno.
      destruct (merge_materials materials texcoords tfaces mfaces) as [r|e];
        [by destruct (Hno r)|eauto].
    + by apply merge_bsdf_mismatch_assert with first m.
  - intros tag. apply merge_succeeds.
Qed.

(** Where the patch loop stops, and what it leaves. *)
Lemma patch_loop_spec materials :
  ∃ n, (n ≤ length materials)%nat ∧
       (patch_loop materials).1
       = take n (with_normal <$> materials) ++ drop n materials ∧
       (((patch_loop materials).2 = Ok tt ∧ n = length materials) ∨
        ∃ m e, materials !! n = Some m ∧ m !! "normal" = None ∧
               inject_normal m = Raise e ∧
               (patch_loop materials).2 = Raise e).
Proof.
  induction materials as [|m ms (n & Hn & Hleft & Hstop)].
  - exists 0%nat. split; [done|]. split; [done|]. by left.
  - cbn [patch_loop]. destruct (inject_normal m) as [m'|e] eqn:Hinj.
    + exists (S n). cbn [length fst snd]. split; [lia|].
      apply inject_normal_Ok in Hinj. subst m'.
      split; [by rewrite fmap_cons, Hleft|].
      destruct Hstop as [[Hok ->]|(m0 & e & Hm0 & Hnone & Hfail & Hraise)];
        [by left|right; eauto 10].
    + exists 0%nat. cbn [length fst snd]. split; [lia|]. split; [done|].
      right. exists m, e. split; [done|]. split; [|done].
      unfold inject_normal in Hinj.
      destruct (py_in "normal" m) eqn:Hin; [done|]. by apply py_in_false.
Qed.

(** C7 (amended).  Merging writes into its input records.  Whether the
    call returns or raises, it leaves the list [materials_left]: nothing
    has changed unless some materials have a normal map and some do not;
    in that case every record without one, up to the place where the patch
    stopped, has gained the entry [normal] holding the flat 1x1 buffer.
    The patch stops before the end only at a record without a normal map
    on which it raises, and the call then raises the same error.  After a
    call that returns, every record that had no normal map has gained
    one.  No other entry of any record changes, and no record is added or
    removed. *)
Theorem merge_changes_only_missing_normals
    materials texcoords tfaces mfaces :
  let left := materials_left materials in
  (∀ r, merge_materials materials texcoords tfaces mfaces = Ok r →
     materials_after r = left ∧ left = normalized materials ∧
     ∀ i m m',
       materials !! i = Some m → materials_after r !! i = Some m' →
       mixed_normals materials = true → m !! "normal" = None →
       m' = <["normal" := VTex flat_normal]> m) ∧
  length left = length materials ∧
  (mixed_normals materials = false → left = materials) ∧
  (mixed_normals materials = true →
     ∃ n, (n ≤ length materials)%nat ∧
          left = take n (with_normal <$> materials) ++ drop n materials ∧
          ∀ m, materials !! n = Some m →
               m !! "normal" = None ∧
               ∃ e, inject_normal m = Raise e ∧
                    merge_materials materials texcoords tfaces mfaces
                    = Raise e) ∧
  ∀ i m m',
    materials !! i = Some m → left !! i = Some m' →
    (∀ k, k ≠ "normal" → m' !! k = m !! k) ∧
    (is_Some (m !! "normal") → m' = m) ∧
    (m !! "normal" = None →
     m' = m ∨ m' = <["normal" := VTex flat_normal]> m).
Proof.
  cbv zeta. unfold materials_left.
  destruct (patch_loop_spec materials) as (n & Hn & Hleft & Hstop).
  split; [|split; [|split; [|split]]].
  - intros r Hm. apply merge_materials_Ok in Hm as
      (_ & _ & _ & _ & _ & Hne & Hnorm & _).
    pose proof (normalize_normals_Ok _ _ Hnorm) as Heq.
    unfold normalized. rewrite Heq.
    assert ((if mixed_normals materials then (patch_loop materials).1
             else materials)
            = if mixed_normals materials then with_normal <$> materials
              else materials) as Hsame.
    { destruct (mixed_normals materials) eqn:Hmix; [|done].
      unfold normalize_normals in Hnorm. rewrite Hmix in Hnorm.
      cbv zeta in Hnorm.
      destruct (patch_loop materials).2 as [[]|e]; [|done].
      cbn [rbind] in Hnorm. injection Hnorm as ->. done. }
    split; [done|]. split; [done|].
    intros i m m' Hi Hi' Hmix Hnone. rewrite Hmix in Hi'.
    rewrite list_lookup_fmap, Hi in Hi'. injection Hi' as <-.
    unfold with_normal. by rewrite (proj2 (py_in_false _ _) Hnone).
  - destruct (mixed_normals materials); [|done]. rewrite Hleft.
    rewrite length_app, length_take, length_drop, length_fmap. lia.
  - by intros ->.
  - intros Hmix. rewrite Hmix. exists n. split; [done|]. split; [done|].
    intros m Hm.
    destruct Hstop as [[_ ->]|(m0 & e & Hm0 & Hnone & Hfail & Hraise)].
    { apply lookup_lt_Some in Hm. lia. }
    rewrite Hm in Hm0. injection Hm0 as <-. split; [done|].
    exists e. split; [done|]. unfold merge_materials.
    rewrite bool_decide_eq_true_2
      by (apply lookup_lt_Some in Hm; destruct materials; simpl in *; lia).
    cbn [assert rbind]. unfold normalize_normals. rewrite Hmix. cbv zeta.
    by rewrite Hraise.
  - intros i m m' Hi Hi'.
    assert (m' = m ∨ m' = with_normal m) as Hor.
    { destruct (mixed_normals materials); [|left; congruence].
      rewrite Hleft in Hi'.
      destruct (decide (i < n)%nat) as [Hlt|Hge].
      - rewrite lookup_app_l in Hi'
          by (rewrite length_take, length_fmap; lia).
        rewrite lookup_take_lt, list_lookup_fmap, Hi in Hi' by done.
        right. by injection Hi' as <-.
      - rewrite lookup_app_r in Hi'
          by (rewrite length_take, length_fmap; lia).
        rewrite length_take, length_fmap in Hi'.
        rewrite lookup_drop in Hi'.
        replace (n + (i - n `min` length materials))%nat with i in Hi'
          by lia.
        left. congruence. }
    destruct Hor as [->| ->].
    + split; [done|]. split; [done|]. by left.
    + split; [apply with_normal_other|]. unfold with_normal. split.
      * intros Hs. by rewrite (proj2 (py_in_true _ _) Hs).
      * intros Hnone. rewrite (proj2 (py_in_false _ _) Hnone). by right.
Qed.

End merged.

(** ** The statements on a concrete mesh *)

(** The demonstration mesh merges. *)
Lemma demo_merge :
  ∃ r, @merge_materials Demo.platform [Demo.matA; Demo.matB]
         Demo.texcoords Demo.tfaces Demo.mfaces = Ok r.
Proof. vm_compute. eexists. reflexivity. Defined.

Lemma demo_tables :
  ∃ r, @merge_materials Demo.platform [Demo.matA; Demo.matB]
         Demo.texcoords Demo.tfaces Demo.mfaces = Ok r ∧
       ret_tverts_data r =
         [(0 # 4, 0 # 2); (2 # 4, 0 # 2); (0 # 4, 2 # 2);
          (2 # 4, 0 # 2); (4 # 4, 0 # 2); (2 # 4, 2 # 2)]%Q ∧
       ret_tfaces r = [(0, 1, 2); (3, 4, 5)].
Proof.
  eexists. split; [vm_compute; reflexivity|].
  split; vm_compute; reflexivity.
Defined.

Lemma demo_textures_ok : Forall textures_ok [Demo.matA; Demo.matB].
Proof.
  repeat constructor; intros tex v Htex Hv; unfold textures in Htex;
    rewrite !elem_of_cons, elem_of_nil in Htex;
    destruct Htex as [->|[->|[->|[]]]]; vm_compute in Hv;
    try discriminate; injection Hv as <-;
    (eexists; split; [reflexivity|]; vm_compute; done).
Defined.

Lemma demo_scale_exact : @scale_exact Demo.platform.
Proof. intros x size. split; reflexivity. Defined.

Lemma demo_keeps_channels : @scale_keeps_channels Demo.platform.
Proof. intros x size. reflexivity. Defined.

Lemma demo_channels_agree :
  channels_agree (normalized [Demo.matA; Demo.matB]).
Proof.
  assert (∀ tex m t, tex ∈ textures →
            m ∈ normalized [Demo.matA; Demo.matB] →
            m !! tex = Some (VTex t) → t_c (data t) = 3) as Hthree.
  { intros tex m t Htex Hm Ht. unfold textures in Htex.
    change (normalized [Demo.matA; Demo.matB])
      with [with_normal Demo.matA; with_normal Demo.matB] in Hm.
    rewrite !elem_of_cons, elem_of_nil in Htex.
    rewrite !elem_of_cons, elem_of_nil in Hm.
    destruct Htex as [->|[->|[->|[]]]], Hm as [->|[->|[]]];
      vm_compute in Ht; injection Ht as <-; reflexivity. }
  intros tex m1 m2 t1 t2 Htex H1 H2 Ht1 Ht2.
  rewrite (Hthree tex m1 t1), (Hthree tex m2 t2); done.
Defined.

Lemma demo_mesh_ok : mesh_ok Demo.texcoords Demo.tfaces Demo.mfaces.
Proof.
  split; [simpl; lia|]. intros f ti Hf Hti. unfold Demo.tfaces in Hf.
  rewrite !elem_of_cons, elem_of_nil in Hf.
  destruct Hf as [->|[->|[]]]; unfold corners in Hti; simpl in Hti;
    rewrite !elem_of_cons, elem_of_nil in Hti;
    destruct Hti as [->|[->|[->|[]]]]; simpl; lia.
Defined.

Lemma rewritten_coordinates_witness :
  ∃ r, @merge_materials Demo.platform [Demo.matA; Demo.matB]
         Demo.texcoords Demo.tfaces Demo.mfaces = Ok r ∧
       length (ret_tfaces r) = 2%nat.
Proof.
  destruct demo_merge as [r Hr]. exists r. split; [exact Hr|].
  destruct (@rewritten_coordinates Demo.platform _ _ _ _ _ Hr)
    as (mh & mw & _ & Hlen & _).
  exact Hlen.
Defined.

Lemma atlas_resolution_witness :
  ∃ mh mw r t,
    @find_max_res [Demo.matA; Demo.matB] = Ok (Some (mh, mw)) ∧
    @compute_full_res (mh, mw) 2
    = Ok (2 ^ Z.log2_up mh, 2 ^ Z.log2_up (mw * 2)) ∧
    @merge_materials Demo.platform [Demo.matA; Demo.matB]
      Demo.texcoords Demo.tfaces Demo.mfaces = Ok r ∧
    uber_material r !! "kd" = Some (VTex t) ∧
    getRes t = (2 ^ Z.log2_up mh, 2 ^ Z.log2_up (mw * 2)).
Proof.
  destruct (@atlas_resolution Demo.platform [Demo.matA; Demo.matB])
    as (mh & mw & _ & Hfind & Hfull & _ & _ & _ & _ & _ & _ & Hbuilt).
  - discriminate.
  - exact demo_textures_ok.
  - destruct demo_merge as [r Hr].
    destruct (Hbuilt _ _ _ r Hr) as (_ & Hfirst & _).
    destruct (Hfirst "kd" Demo.matA) as (t & Ht & Hres).
    + by left.
    + reflexivity.
    + vm_compute. eauto.
    + exists mh, mw, r, t. split; [exact Hfind|]. split; [exact Hfull|].
      split; [exact Hr|]. split; [exact Ht|exact Hres].
Defined.

Lemma one_entry_per_pair_witness :
  ∃ r, @merge_materials Demo.platform [Demo.matA; Demo.matB]
         Demo.texcoords Demo.tfaces Demo.mfaces = Ok r ∧
       length (ret_tverts_data r) = 6%nat.
Proof.
  destruct demo_merge as [r Hr]. exists r. split; [exact Hr|].
  destruct (@one_entry_per_pair Demo.platform _ _ _ _ _ Hr)
    as (_ & Hlen & _).
  rewrite Hlen. vm_compute. reflexivity.
Defined.



Lemma missing_normals_synthesized_witness :
  @normalize_normals [Demo.matA; Demo.matB]
  = Ok (with_normal <$> [Demo.matA; Demo.matB]).
Proof.
  destruct (@missing_normals_synthesized Demo.platform
              [Demo.matA; Demo.matB] Demo.texcoords Demo.tfaces Demo.mfaces)
    as (_ & Hmixed).
  destruct Hmixed as (_ & _ & Hnorm & _); [reflexivity|].
  apply Hnorm. intros m Hm Hnone.
  rewrite !elem_of_cons, elem_of_nil in Hm. destruct Hm as [->|[->|[]]].
  - eexists. split; reflexivity.
  - vm_compute in Hnone. discriminate.
Defined.

(** C6 (as stated) fails: one shader tag, [kd] and [ks] everywhere, normal
    maps made uniform by the patch, and still no merged result, because
    the only face points into an empty texture-coordinate table. *)
Lemma merge_fails_on_dangling_corner :
  let materials := [Demo.matA; Demo.matB] in
  materials ≠ [] ∧
  (∀ m, m ∈ materials → m !! "bsdf" = Some (VStr "pbr")) ∧
  (∀ m, m ∈ materials → is_Some (m !! "kd") ∧ is_Some (m !! "ks")) ∧
  (∀ m, m ∈ with_normal <$> materials → is_Some (m !! "normal")) ∧
  @merge_materials Demo.platform materials [] [(-1, -1, -1)] [0]
  = Raise IndexError.
Proof.
  cbv zeta. split; [discriminate|].
  split; [|split; [|split]].
  - intros m Hm. rewrite !elem_of_cons, elem_of_nil in Hm.
    destruct Hm as [->|[->|[]]]; reflexivity.
  - intros m Hm. rewrite !elem_of_cons, elem_of_nil in Hm.
    destruct Hm as [->|[->|[]]]; split; vm_compute; eauto.
  - intros m Hm. simpl in Hm. rewrite !elem_of_cons, elem_of_nil in Hm.
    destruct Hm as [->|[->|[]]]; vm_compute; eauto.
  - vm_compute. reflexivity.
Qed.

Lemma merge_preconditions_witness :
  @merge_materials Demo.platform [] Demo.texcoords Demo.tfaces Demo.mfaces
  = Raise (AssertionError None) ∧
  ∃ r, @merge_materials Demo.platform [Demo.matA; Demo.matB]
         Demo.texcoords Demo.tfaces Demo.mfaces = Ok r.
Proof.
  split.
  - apply (@merge_preconditions Demo.platform []). reflexivity.
  - destruct (@merge_preconditions Demo.platform [Demo.matA; Demo.matB]
                Demo.texcoords Demo.tfaces Demo.mfaces) as (_ & _ & Hok).
    apply (Hok "pbr").
    + discriminate.
    + intros m Hm. rewrite !elem_of_cons, elem_of_nil in Hm.
      destruct Hm as [->|[->|[]]]; reflexivity.
    + exact demo_textures_ok.
    + intros tex m1 m2 Htex H1 H2.
      rewrite !elem_of_cons, elem_of_nil in Htex.
      rewrite !elem_of_cons, elem_of_nil in H1.
      rewrite !elem_of_cons, elem_of_nil in H2.
      destruct Htex as [->|[->|[]]], H1 as [->|[->|[]]], H2 as [->|[->|[]]];
        reflexivity.
    + intros _ m Hm Hnone. rewrite !elem_of_cons, elem_of_nil in Hm.
      destruct Hm as [->|[->|[]]]; vm_compute; eauto.
    + exact demo_scale_exact.
    + exact demo_keeps_channels.
    + exact demo_channels_agree.
    + exact demo_mesh_ok.
Defined.

(** C7 (as stated) fails: after the merge the first input record has an
    entry [normal] that it did not have before. *)
Lemma merge_writes_into_inputs :
  ∃ r m',
    @merge_materials Demo.platform [Demo.matA; Demo.matB]
      Demo.texcoords Demo.tfaces Demo.mfaces = Ok r ∧
    Demo.matA !! "normal" = None ∧
    materials_after r !! 0%nat = Some m' ∧
    m' !! "normal" = Some (VTex flat_normal) ∧
    materials_after r ≠ [Demo.matA; Demo.matB].
Proof.
  destruct demo_merge as [r Hr].
  destruct (@merge_materials_Ok Demo.platform _ _ _ _ _ Hr)
    as (_ & _ & _ & _ & _ & _ & Hnorm & _).
  apply normalize_normals_Ok in Hnorm.
  change (mixed_normals [Demo.matA; Demo.matB]) with true in Hnorm.
  exists r, (with_normal Demo.matA). split; [exact Hr|].
  split; [reflexivity|]. rewrite Hnorm. split; [reflexivity|].
  split; [vm_compute; reflexivity|].
  intros Heq. apply (f_equal (λ l, l !! 0%nat ≫= (.!! "normal"))) in Heq.
  vm_compute in Heq. discriminate.
Qed.

Lemma merge_changes_only_missing_normals_witness :
  ∃ r, @merge_materials Demo.platform [Demo.matA; Demo.matB]
         Demo.texcoords Demo.tfaces Demo.mfaces = Ok r ∧
       materials_after r = materials_left [Demo.matA; Demo.matB] ∧
       length (materials_left [Demo.matA; Demo.matB]) = 2%nat.
Proof.
  destruct demo_merge as [r Hr]. exists r. split; [exact Hr|].
  destruct (@merge_changes_only_missing_normals Demo.platform
              [Demo.matA; Demo.matB] Demo.texcoords Demo.tfaces Demo.mfaces)
    as (Hret & Hlen & _).
  destruct (Hret r Hr) as (Hafter & _).
  split; [exact Hafter|exact Hlen].
Defined.

(** A call that raises has written all the same: with a second material
    of another shader the shader assertion fails, after the first record
    has received its flat normal map. *)
Lemma raising_merge_has_written :
  let materials := [Demo.matA; <["bsdf" := VStr "other"]> Demo.matB] in
  @merge_materials Demo.platform materials
    Demo.texcoords Demo.tfaces Demo.mfaces
  = Raise (AssertionError (Some msg_bsdf)) ∧
  Demo.matA !! "normal" = None ∧
  materials_left materials !! 0%nat
  = Some (<["normal" := VTex flat_normal]> Demo.matA).
Proof.
  cbv zeta. split; [vm_compute; reflexivity|].
  split; vm_compute; reflexivity.
Qed.

(** Cells of different channel counts cannot be joined: a constant colour
    of three channels next to a texture of four makes the call raise. *)
Lemma merge_fails_on_channel_mismatch :
  let four : material :=
    <["kd" := VTex (Texture2D_of_tensor (Demo.image 4))]> Demo.matA in
  @merge_materials Demo.platform [Demo.matA; four]
    Demo.texcoords Demo.tfaces Demo.mfaces = Raise RuntimeError.
Proof. vm_compute. reflexivity. Qed.

(** * Further properties of merge_materials *)

Lemma py_index_Ok_inv {A} (l : list A) (i : Z) (x : A) :
  py_index l i = Ok x →
  - Z.of_nat (length l) ≤ i < Z.of_nat (length l).
Proof.
  unfold py_index. cbv zeta.
  destruct (Z.ltb_spec i 0);
    destruct (Z.ltb_spec (i + Z.of_nat (length l)) 0);
    destruct (Z.leb_spec (Z.of_nat (length l)) (i + Z.of_nat (length l)));
    destruct (Z.leb_spec (Z.of_nat (length l)) i);
    cbn [orb]; try done; try lia.
  all: destruct (Z.ltb_spec i 0); try lia; cbn [orb]; try done; lia.
Qed.

Section merge_extras.
Context `{!Externals}.

(** X1.  The rewritten faces only use indices of the new table. *)
Theorem new_indices_in_range materials texcoords tfaces mfaces r :
  merge_materials materials texcoords tfaces mfaces = Ok r →
  ∀ f' idx, f' ∈ ret_tfaces r → idx ∈ corners f' →
    0 ≤ idx < Z.of_nat (length (ret_tverts_data r)).
Proof.
  intros Hm f' idx Hf' Hidx.
  apply merge_materials_resolution in Hm as
    (mh & mw & st & _ & _ & _ & _ & Hfaces & Hdata).
  apply rewrite_faces_inv in Hfaces as (Hlen & Hinv & Hall).
  apply list_elem_of_lookup in Hf' as [fi Hfi].
  destruct (Forall2_lookup_r _ _ _ _ _ Hall Hfi) as ([f i] & _ & Hface).
  apply list_elem_of_lookup in Hidx as [vi Hvi].
  destruct (Forall2_lookup_r _ _ _ _ _ Hface Hvi) as (k & _ & n & -> & Hn).
  rewrite Hdata, <- (Forall2_length _ _ _ (inv_data _ _ _ _ Hinv)).
  apply lookup_lt_Some in Hn. lia.
Qed.

(** X2.  A merge only returns for a mesh it could walk: every face has a
    material index and every corner addresses the texture-coordinate
    table. *)
Theorem merged_mesh_was_addressable materials texcoords tfaces mfaces r :
  merge_materials materials texcoords tfaces mfaces = Ok r →
  mesh_ok texcoords tfaces mfaces.
Proof.
  intros Hm.
  apply merge_materials_resolution in Hm as
    (mh & mw & st & _ & _ & _ & _ & Hfaces & Hdata).
  apply rewrite_faces_inv in Hfaces as (Hlen & Hinv & Hall).
  split; [done|]. intros f ti Hf Hti.
  apply list_elem_of_lookup in Hf as [fi Hfi].
  destruct (lookup_lt_is_Some_2 mfaces fi) as [i Hi].
  { apply lookup_lt_Some in Hfi. lia. }
  assert (zip tfaces mfaces !! fi = Some (f, i)) as Hz.
  { apply lookup_zip_with_Some. eauto. }
  destruct (Forall2_lookup_l _ _ _ _ _ Hall Hz) as (f' & _ & Hface).
  apply list_elem_of_lookup in Hti as [vi Hvi].
  assert (face_keys f i !! vi = Some (ti, i)) as Hk.
  { unfold face_keys. by rewrite list_lookup_fmap, Hvi. }
  destruct (Forall2_lookup_l _ _ _ _ _ Hface Hk) as (idx & _ & Hpl).
  destruct (placed_data _ _ _ _ _ _ Hinv Hpl) as (tc & Htc & _).
  by apply py_index_Ok_inv in Htc.
Qed.


Lemma s_coeff_bounds mh mw m :
  0 < mh → 0 < mw → 0 ≤ m →
  let sc := s_coeff (mh, mw) (2 ^ Z.log2_up mh, 2 ^ Z.log2_up (mw * m)) in
  (1 <= sc.1)%Q ∧ (inject_Z m <= sc.2)%Q ∧ (0 < sc.1)%Q ∧ (0 < sc.2)%Q.
Proof.
  intros HH HW Hm. cbn [s_coeff fst snd].
  assert (0 < inject_Z mh)%Q as HHq.
  { change 0%Q with (inject_Z 0). by rewrite <- Zlt_Qlt. }
  assert (0 < inject_Z mw)%Q as HWq.
  { change 0%Q with (inject_Z 0). by rewrite <- Zlt_Qlt. }
  split; [|split; [|split]].
  - apply Qle_shift_div_l; [done|]. rewrite Qmult_1_l, <- Zle_Qle.
    apply Z.log2_up_le_pow2; [done|lia].
  - apply Qle_shift_div_l; [done|]. rewrite <- inject_Z_mult, <- Zle_Qle.
    destruct (Z.eq_dec m 0) as [->|Hne].
    + rewrite Z.mul_0_l. apply Z.pow_nonneg. lia.
    + rewrite Z.mul_comm. apply Z.log2_up_le_pow2; [nia|lia].
  - by apply s_col_pos.
  - by apply s_col_pos.
Qed.

Lemma keeps_zero fl n x :
  monotone fl → keeps_integers fl n → 0 ≤ n → (0 <= x)%Q → (0 <= fl x)%Q.
Proof.
  intros Hfl Hk Hn Hx. eapply Qle_trans; [|apply (Hfl 0%Q x Hx)].
  change 0%Q with (inject_Z 0). rewrite (Hk 0) by lia. apply Qle_refl.
Qed.

Lemma keeps_below fl n z x :
  monotone fl → keeps_integers fl n → 0 ≤ z ≤ n →
  (x <= inject_Z z)%Q → (fl x <= inject_Z z)%Q.
Proof.
  intros Hfl Hk Hz Hx. eapply Qle_trans; [apply (Hfl _ _ Hx)|].
  rewrite (Hk z) by done. apply Qle_refl.
Qed.

(** Rounded or not, a coordinate of the unit square stays in it when the
    scale along [u] is at least the number [n] of cells and the scale
    along [v] is at least one. *)
Lemma rounded_coord_unit fl sc n i u v :
  monotone fl → keeps_integers fl n → 0 ≤ i < n →
  (1 <= sc.1)%Q → (inject_Z n <= sc.2)%Q →
  (0 <= u)%Q → (u <= 1)%Q → (0 <= v)%Q → (v <= 1)%Q →
  let c := rounded_coord fl sc i (u, v) in
  (0 <= c.1)%Q ∧ (c.1 <= 1)%Q ∧ (0 <= c.2)%Q ∧ (c.2 <= 1)%Q.
Proof.
  intros Hfl Hk Hi Hs1 Hs2 Hu0 Hu1 Hv0 Hv1. cbv zeta.
  unfold rounded_coord. cbn [fst snd].
  assert (0 < sc.1)%Q as Hp1.
  { eapply Qlt_le_trans; [|exact Hs1]. reflexivity. }
  assert (1 <= inject_Z n)%Q as Hn1.
  { change 1%Q with (inject_Z 1). rewrite <- Zle_Qle. lia. }
  assert (0 < sc.2)%Q as Hp2.
  { eapply Qlt_le_trans; [|exact Hs2].
    eapply Qlt_le_trans; [|exact Hn1]. reflexivity. }
  assert (0 <= inject_Z i)%Q as Hi0.
  { change 0%Q with (inject_Z 0). rewrite <- Zle_Qle. lia. }
  assert (0 <= fl (inject_Z i + u))%Q as Hlo.
  { apply (keeps_zero fl n); [done|done|lia|].
    rewrite <- (Qplus_0_r 0). by apply Qplus_le_compat. }
  assert (fl (inject_Z i + u) <= inject_Z (i + 1))%Q as Hhi.
  { apply (keeps_below fl n); [done|done|lia|].
    rewrite inject_Z_plus. by apply Qplus_le_r. }
  split; [|split; [|split]].
  - apply (keeps_zero fl n); [done|done|lia|].
    apply Qle_shift_div_l; [done|]. by rewrite Qmult_0_l.
  - apply (keeps_below fl n 1); [done|done|lia|].
    apply Qle_shift_div_r; [done|]. rewrite Qmult_1_l.
    eapply Qle_trans; [exact Hhi|]. eapply Qle_trans; [|exact Hs2].
    rewrite <- Zle_Qle. lia.
  - apply (keeps_zero fl n); [done|done|lia|].
    apply Qle_shift_div_l; [done|]. by rewrite Qmult_0_l.
  - apply (keeps_below fl n 1); [done|done|lia|].
    apply Qle_shift_div_r; [done|]. rewrite Qmult_1_l.
    eapply Qle_trans; [exact Hv1|exact Hs1].
Qed.

(** X3.  Coordinates of the unit square stay in the unit square: when the
    material index of the face is one of the merged materials and the
    original pair lies in [0, 1] x [0, 1], so does the rewritten pair.
    This does not depend on exact arithmetic: it also holds when the scale
    factors and every operation on the coordinates are rounded, by
    roundings that keep the order and the integers up to the number of
    materials. *)
Theorem coordinates_stay_in_unit_square
    materials texcoords tfaces mfaces r :
  merge_materials materials texcoords tfaces mfaces = Ok r →
  ∃ H W,
    elementwise_max (H, W) (all_resolutions materials) ∧
    let m := Z.of_nat (length materials) in
    let sc := s_coeff (H, W) (2 ^ Z.log2_up H, 2 ^ Z.log2_up (W * m)) in
    (∀ fi f i f' vi ti ti' u v,
       tfaces !! fi = Some f → mfaces !! fi = Some i →
       ret_tfaces r !! fi = Some f' →
       corners f !! vi = Some ti → corners f' !! vi = Some ti' →
       py_index texcoords ti = Ok (u, v) →
       0 ≤ i < m →
       (0 <= u)%Q → (u <= 1)%Q → (0 <= v)%Q → (v <= 1)%Q →
       ∃ u' v', ret_tverts_data r !! Z.to_nat ti' = Some (u', v') ∧
                (u', v') = new_coord sc i (u, v) ∧
                (0 <= u')%Q ∧ (u' <= 1)%Q ∧ (0 <= v')%Q ∧ (v' <= 1)%Q) ∧
    (∀ fl fls i u v,
       monotone fl → keeps_integers fl m →
       monotone fls → keeps_integers fls m →
       0 ≤ i < m →
       (0 <= u)%Q → (u <= 1)%Q → (0 <= v)%Q → (v <= 1)%Q →
       let c := rounded_coord fl (fls sc.1, fls sc.2) i (u, v) in
       (0 <= c.1)%Q ∧ (c.1 <= 1)%Q ∧ (0 <= c.2)%Q ∧ (c.2 <= 1)%Q).
Proof.
  intros Hm.
  destruct (corner_entry _ _ _ _ _ Hm) as
    (mh & mw & Hmax & HH & HW & _ & Hall).
  exists mh, mw. split; [done|]. cbv zeta.
  destruct (s_coeff_bounds mh mw (Z.of_nat (length materials)) HH HW)
    as (Hrow & Hcol & Hrow0 & Hcol0); [lia|].
  set (sc := s_coeff (mh, mw)
               (2 ^ Z.log2_up mh,
                2 ^ Z.log2_up (mw * Z.of_nat (length materials)))) in *.
  split.
  - intros fi f i f' vi ti ti' u v Hf Hi Hf' Hti Hti' Htc Hrange
           Hu0 Hu1 Hv0 Hv1.
    destruct (Hall fi f i f' vi ti ti' Hf Hi Hf' Hti Hti')
      as (tc & Htc2 & Hd).
    rewrite Htc in Htc2. injection Htc2 as <-.
    eexists _, _. split; [exact Hd|]. split; [reflexivity|].
    apply (rounded_coord_unit (λ x, x) sc (Z.of_nat (length materials)) i u v);
      first [done|by intros x y Hxy|intros z _; reflexivity].
  - intros fl fls i u v Hfl Hk Hfls Hks Hrange Hu0 Hu1 Hv0 Hv1.
    assert (1 <= fls sc.1)%Q as Hrow'.
    { eapply Qle_trans; [|apply (Hfls _ _ Hrow)].
      change 1%Q with (inject_Z 1). rewrite (Hks 1) by lia. apply Qle_refl. }
    assert (inject_Z (Z.of_nat (length materials)) <= fls sc.2)%Q as Hcol'.
    { eapply Qle_trans; [|apply (Hfls _ _ Hcol)].
      rewrite (Hks (Z.of_nat (length materials))) by lia. apply Qle_refl. }
    apply (rounded_coord_unit fl _ (Z.of_nat (length materials))); done.
Qed.

(** X4.  The merged record: its name is fixed, its shader tag is that of
    material 0, with which the tag of every material compares equal (so
    that tags that are strings are all the same string); it has no entry
    besides the name, the tag and the three texture slots, and it has a
    slot exactly when material 0 has it (for [normal]: exactly when some
    material has it). *)
Theorem uber_material_record materials texcoords tfaces mfaces r :
  merge_materials materials texcoords tfaces mfaces = Ok r →
  ∃ first bsdf,
    materials !! 0%nat = Some first ∧
    first !! "bsdf" = Some bsdf ∧
    (∀ m, m ∈ materials →
       ∃ a, m !! "bsdf" = Some a ∧ tag_eq a bsdf = Ok true) ∧
    (string_tags materials →
     ∀ m, m ∈ materials → m !! "bsdf" = Some bsdf) ∧
    uber_material r !! "name" = Some (VStr "uber_material") ∧
    uber_material r !! "bsdf" = Some bsdf ∧
    dom (uber_material r) ⊆ {[ "name"; "bsdf"; "kd"; "ks"; "normal" ]} ∧
    (is_Some (uber_material r !! "kd") ↔ is_Some (first !! "kd")) ∧
    (is_Some (uber_material r !! "ks") ↔ is_Some (first !! "ks")) ∧
    (is_Some (uber_material r !! "normal") ↔
       ∃ m, m ∈ materials ∧ is_Some (m !! "normal")).
Proof.
  intros Hm.
  destruct (merge_materials_Ok _ _ _ _ _ Hm) as
    (first' & bsdf & mr & full & st & Hne & Hnorm & Hfirst' & Hcheck &
     Hbsdf & _ & _ & Huber & _).
  destruct (merge_slots_Ok _ _ _ _ _ _ Hfirst' Huber) as [Hother Hslots].
  destruct (normalize_normals_lookup _ _ _ _ Hnorm Hfirst')
    as (first & Hfirst & Hfor & Hk).
  exists first, bsdf. split; [done|].
  split; [by rewrite <- Hk|].
  assert (∀ m, m ∈ materials →
            ∃ a, m !! "bsdf" = Some a ∧ tag_eq a bsdf = Ok true) as Hsame.
  { intros m (i & Hi)%list_elem_of_lookup.
    destruct (lookup_lt_is_Some_2 (materials_after r) i) as [m' Hm'].
    { rewrite (normalize_normals_length _ _ Hnorm). by eapply lookup_lt_Some. }
    destruct (normalize_normals_lookup _ _ _ _ Hnorm Hm')
      as (m0 & Hm0 & _ & Hk0).
    rewrite Hi in Hm0. injection Hm0 as <-.
    assert (m' ∈ materials_after r) as Hin
      by (apply list_elem_of_lookup; eauto).
    apply Hcheck, check_material_Ok in Hin as (a & b & Ha & Hb & Heq & _).
    rewrite Hbsdf in Hb. injection Hb as <-.
    exists a. split; [|done]. by rewrite <- Hk0. }
  assert (∀ tex, tex ∈ textures →
            is_Some (uber_material r !! tex) ↔ is_Some (first' !! tex))
    as Hpresent.
  { intros tex Htex. specialize (Hslots tex Htex).
    rewrite <- (py_in_true tex first').
    destruct (py_in tex first').
    - destruct Hslots as (t & _ & ->). split; eauto.
    - rewrite Hslots. unfold textures in Htex.
      rewrite !elem_of_cons, elem_of_nil in Htex.
      destruct Htex as [->|[->|[->|[]]]];
        rewrite lookup_insert_ne, lookup_singleton_ne by done;
        split; try done; by intros []. }
  split; [done|].
  split; [|split; [|split; [|split; [|split; [|split]]]]].
  - intros Hstr m Hin. destruct (Hsame m Hin) as (a & Ha & Heq).
    destruct (Hstr m Hin) as [x Hx].
    destruct (Hstr first) as [y Hy]; [by eapply first_elem_of|].
    rewrite Hk in Hbsdf by done. rewrite Hy in Hbsdf. injection Hbsdf as <-.
    rewrite Hx in Ha. injection Ha as <-.
    apply tag_eq_strings in Heq. by subst.
  - rewrite Hother; [by rewrite lookup_insert_ne, lookup_singleton_eq|].
    unfold textures. rewrite !elem_of_cons, elem_of_nil. by intros [|[|[|]]].
  - rewrite Hother; [by rewrite lookup_insert_eq|].
    unfold textures. rewrite !elem_of_cons, elem_of_nil. by intros [|[|[|]]].
  - intros k Hkdom. apply elem_of_dom in Hkdom.
    rewrite !elem_of_union, !elem_of_singleton.
    destruct (decide (k ∈ textures)) as [Hin|Hnin].
    + unfold textures in Hin. rewrite !elem_of_cons, elem_of_nil in Hin. tauto.
    + rewrite (Hother k Hnin) in Hkdom.
      destruct (decide (k = "bsdf")) as [->|Hnb]; [tauto|].
      rewrite lookup_insert_ne in Hkdom by done.
      destruct (decide (k = "name")) as [->|Hnn]; [tauto|].
      rewrite lookup_singleton_ne in Hkdom by done. by destruct Hkdom.
  - rewrite Hpresent by (unfold textures; by left). by rewrite Hk.
  - rewrite Hpresent by (unfold textures; right; by left). by rewrite Hk.
  - rewrite Hpresent by (unfold textures; right; right; by left).
    rewrite <- (py_in_true "normal" first'). split.
    + intros Hhas.
      destruct (decide (is_Some (first !! "normal"))) as [Hs|Hn].
      { exists first. split; [by eapply first_elem_of|done]. }
      apply normalize_normals_Ok in Hnorm.
      destruct (mixed_normals materials) eqn:Hmix.
      * unfold mixed_normals in Hmix. apply andb_true_iff in Hmix as [Hex _].
        apply existsb_exists in Hex as (b & Hb & Hid). unfold has_norm in Hb.
        apply in_map_iff in Hb as (m & <- & Hin). exists m.
        split; [by apply list_elem_of_In|]. by apply py_in_true.
      * rewrite Hnorm in Hfirst'. rewrite Hfirst in Hfirst'.
        injection Hfirst' as <-. by apply py_in_true in Hhas.
    + intros (m & (i & Hi)%list_elem_of_lookup & Hs).
      destruct (lookup_lt_is_Some_2 (materials_after r) i) as [m' Hm'].
      { rewrite (normalize_normals_length _ _ Hnorm). by eapply lookup_lt_Some. }
      rewrite <- (normalize_normals_uniform _ _ m' first' Hnorm);
        [|apply list_elem_of_lookup; eauto|by eapply first_elem_of].
      destruct (normalize_normals_lookup _ _ _ _ Hnorm Hm')
        as (m0 & Hm0 & Hor & _).
      rewrite Hi in Hm0. injection Hm0 as <-.
      destruct Hor as [->| ->]; [by apply py_in_true|].
      * apply with_normal_has.
Qed.


(** X5.  The layout of a merged texture: the cell of material [i] fills
    columns [i * W, (i + 1) * W) of the first [H] rows, and outside the
    live area every pixel repeats the nearest pixel of its border. *)
Theorem atlas_layout materials texcoords tfaces mfaces r tex t :
  merge_materials materials texcoords tfaces mfaces = Ok r →
  scale_exact →
  tex ∈ textures →
  uber_material r !! tex = Some (VTex t) →
  ∃ mh mw cells,
    elementwise_max (mh, mw) (all_resolutions materials) ∧
    let m := Z.of_nat (length materials) in
    Forall2 (λ mat cell, ∃ n, mat !! tex = Some (VTex n) ∧
                              cell = scale_img_nhwc (data n) (mh, mw))
            (materials_after r) cells ∧
    (∀ i cell row col ch,
       cells !! i = Some cell → 0 ≤ row < mh → 0 ≤ col < mw →
       t_at (data t) row (Z.of_nat i * mw + col) ch = t_at cell row col ch) ∧
    (∀ row col ch, mw * m ≤ col →
       t_at (data t) row col ch = t_at (data t) row (mw * m - 1) ch) ∧
    (∀ row col ch, mh ≤ row →
       t_at (data t) row col ch = t_at (data t) (mh - 1) col ch).
Proof.
  intros Hm Hscale Htex Ht.
  destruct (merge_materials_uber _ _ _ _ _ Hm) as
    (mh & mw & first & Hmax & HH & HW & Hfirst & Hslots).
  apply merge_materials_Ok in Hm as (_ & _ & _ & _ & _ & _ & Hnorm & _).
  pose proof (normalize_normals_length _ _ Hnorm) as Hlen.
  specialize (Hslots tex Htex). destruct (py_in tex first); [|congruence].
  destruct Hslots as (t' & (cells & cat & Hcells & Hcat & Heq) & Ht').
  rewrite Ht in Ht'. injection Ht' as <-.
  exists mh, mw, cells. split; [done|]. cbv zeta.
  apply mapM_Ok in Hcells.
  assert (Forall2 (λ mat cell, ∃ n, mat !! tex = Some (VTex n) ∧
                     cell = scale_img_nhwc (data n) (mh, mw))
                  (materials_after r) cells) as Hcells'.
  { eapply Forall2_impl; [exact Hcells|]. intros mat cell.
    unfold atlas_cell, py_getitem.
    destruct (mat !! tex) as [[| |n]|]; try done. simpl.
    intros [= <-]. eauto. }
  split; [done|].
  assert (Forall (λ c, t_w c = mw) cells) as Hw.
  { apply Forall_forall. intros c Hc.
    apply list_elem_of_lookup in Hc as [j Hj].
    destruct (Forall2_lookup_r _ _ _ _ _ Hcells' Hj) as (mat & _ & n & _ & ->).
    apply (Hscale (data n) (mh, mw)). }
  destruct (cat_width_cells mw cells cat Hw Hcat) as (Hh & Hwd & Hat).
  assert (t_h cat = mh) as Hhc.
  { destruct cells as [|c0 cs]; [done|]. rewrite (Hh c0 eq_refl).
    destruct (Forall2_lookup_r _ _ _ 0%nat c0 Hcells' eq_refl)
      as (mat & _ & n & _ & ->).
    apply (Hscale (data n) (mh, mw)). }
  assert (t_w cat = mw * Z.of_nat (length materials)) as Hwc.
  { rewrite Hwd, <- (Forall2_length _ _ _ Hcells'), Hlen. lia. }
  subst t. cbn [data Texture2D_of_tensor _upscale_replicate t_at].
  rewrite Hhc, Hwc. split; [|split].
  - intros i cell row col ch Hi Hrow Hcol.
    pose proof (lookup_lt_Some _ _ _ Hi) as Hlt.
    rewrite <- (Forall2_length _ _ _ Hcells'), Hlen in Hlt.
    rewrite Z.min_l by lia. rewrite Z.min_l by nia. by apply Hat.
  - intros row col ch Hcol. f_equal; lia.
  - intros row col ch Hrow. f_equal; lia.
Qed.

Lemma mapM_Ok_or {A B} (f : A → result B) (l : list A) e :
  (∀ x, x ∈ l → (∃ y, f x = Ok y) ∨ f x = Raise e) →
  (∃ ys, mapM f l = Ok ys) ∨ mapM f l = Raise e.
Proof.
  induction l as [|x l IH]; intros Hall; [left; by exists []|].
  cbn [mapM]. destruct (Hall x) as [[y ->]| ->]; [by left| |by right].
  cbn [rbind]. destruct IH as [[ys ->]| ->].
  - intros z Hz. apply Hall. by right.
  - left. by eexists.
  - by right.
Qed.

Lemma mapM_first_failure {A B} (f : A → result B) (l : list A) e :
  (∀ x, x ∈ l → (∃ y, f x = Ok y) ∨ f x = Raise e) →
  (∃ x, x ∈ l ∧ f x = Raise e) →
  mapM f l = Raise e.
Proof.
  intros Hall (x & Hx & Hfx).
  destruct (mapM_Ok_or f l e Hall) as [[ys Hys]|]; [|done].
  apply mapM_Ok in Hys. apply list_elem_of_lookup in Hx as [i Hi].
  destruct (Forall2_lookup_l _ _ _ _ _ Hys Hi) as (y & _ & Hy). congruence.
Qed.

(** With one shader tag and texture slots that hold textures, a call gets
    as far as building the merged textures. *)
Lemma merge_upto_slots materials texcoords tfaces mfaces tag mats' :
  materials ≠ [] →
  (∀ m, m ∈ materials → m !! "bsdf" = Some (VStr tag)) →
  Forall textures_ok materials →
  normalize_normals materials = Ok mats' →
  ∃ first mh mw,
    mats' !! 0%nat = Some first ∧
    Forall textures_ok mats' ∧
    merge_materials materials texcoords tfaces mfaces =
      (uber ←! for_each
                 (merge_slot mats' (mh, mw)
                    (2 ^ Z.log2_up mh,
                     2 ^ Z.log2_up (mw * Z.of_nat (length mats'))))
                 textures
                 (<["bsdf" := VStr tag]> {[ "name" := VStr "uber_material" ]});
       ' (st, tfaces') ←!
         rewrite_faces texcoords
           (s_coeff (mh, mw)
              (2 ^ Z.log2_up mh,
               2 ^ Z.log2_up (mw * Z.of_nat (length mats'))))
           tfaces mfaces;
       Ok (mkMerged uber (new_tverts_data st) tfaces' mats')).
Proof.
  intros Hne Htag Hok Hnorm.
  pose proof Hok as Hok'. rewrite Forall_forall in Hok'.
  pose proof (normalize_normals_length _ _ Hnorm) as Hlen.
  destruct (lookup_lt_is_Some_2 mats' 0%nat) as [first Hfirst].
  { rewrite Hlen. destruct materials; [done|simpl; lia]. }
  pose proof (first_elem_of _ _ Hfirst) as Hfin.
  assert (∀ m', m' ∈ mats' → m' !! "bsdf" = Some (VStr tag)) as Htag'.
  { intros m' Hm'.
    destruct (normalize_normals_elem _ _ _ Hnorm Hm') as (m & Hm & _ & Hk).
    rewrite Hk by done. by apply Htag. }
  assert (Forall textures_ok mats') as Hoks.
  { apply Forall_forall. intros m' Hm'.
    destruct (normalize_normals_elem _ _ _ Hnorm Hm') as (m & Hm & [->| ->] & _).
    - by apply Hok'.
    - by apply textures_ok_with_normal, Hok'. }
  destruct (foldl_max_step_None (all_resolutions mats')) as
    ([mh mw] & Hfold & Hmax).
  { apply all_resolutions_nonempty. intros Hnil. by rewrite Hnil in Hfirst. }
  assert (0 < mh ∧ 0 < mw) as [HH HW].
  { destruct Hmax as (_ & (x & Hx & Hx1) & (y & Hy & Hy2)).
    apply (textures_ok_positive _ _ Hoks) in Hx, Hy. simpl in *. lia. }
  exists first, mh, mw. split; [done|]. split; [done|].
  unfold merge_materials.
  rewrite bool_decide_eq_true_2 by (destruct materials; [done|simpl; lia]).
  cbn [assert rbind]. rewrite Hnorm. cbn [rbind].
  rewrite py_index_0, Hfirst. cbn [rbind].
  rewrite (proj2 (for_each_unit_Ok (check_material first) mats')).
  2: { intros m' Hm'. apply check_material_Ok.
       exists (VStr tag), (VStr tag).
       split; [by apply Htag'|]. split; [by apply Htag'|].
       split; [by apply tag_eq_strings|].
       by eapply normalize_normals_uniform. }
  cbn [rbind]. unfold py_getitem at 1. rewrite (Htag' first Hfin).
  cbn [rbind]. rewrite find_max_res_textures_ok, Hfold by done.
  cbn [rbind].
  rewrite (proj2 (compute_full_res_Ok (mh, mw) (length mats')
                    (2 ^ Z.log2_up mh,
                     2 ^ Z.log2_up (mw * Z.of_nat (length mats'))))).
  2: { split; [done|]. split; [|reflexivity]. simpl.
       rewrite Hlen. destruct materials; [done|simpl length; lia]. }
  reflexivity.
Qed.

(** X6.  A [kd] texture in material 0 commits the whole set: if any other
    material has none, the call fails with [KeyError] on that key. *)
Theorem merge_missing_kd materials texcoords tfaces mfaces tag first m :
  (∀ m, m ∈ materials → m !! "bsdf" = Some (VStr tag)) →
  Forall textures_ok materials →
  materials !! 0%nat = Some first →
  is_Some (first !! "kd") →
  m ∈ materials → m !! "kd" = None →
  merge_materials materials texcoords tfaces mfaces = Raise (KeyError "kd").
Proof.
  intros Htag Hok Hfirst Hkd Hm Hnone.
  assert (materials ≠ []) as Hne by (intros ->; done).
  pose proof Hok as Hok'. rewrite Forall_forall in Hok'.
  assert ((∃ mats', normalize_normals materials = Ok mats') ∨
          normalize_normals materials = Raise (KeyError "kd")) as [[mats' Hnorm]|Hnorm].
  { rewrite normalize_normals_eq.
    destruct (mixed_normals materials); [|eauto].
    apply mapM_Ok_or. intros x Hx. unfold inject_normal, py_getitem.
    destruct (py_in "normal" x); cbn; [eauto|].
    destruct (x !! "kd") as [v|] eqn:Hv; cbn; [|by right].
    destruct (Hok' x Hx "kd" v) as (t & -> & _); [by left|done|].
    cbn. eauto. }
  2: { unfold merge_materials.
       rewrite bool_decide_eq_true_2 by (destruct materials; [done|simpl; lia]).
       cbn [assert rbind]. by rewrite Hnorm. }
  destruct (merge_upto_slots _ texcoords tfaces mfaces _ _ Hne Htag Hok Hnorm)
    as (first' & mh & mw & Hfirst' & Hoks & ->).
  rewrite Forall_forall in Hoks.
  destruct (normalize_normals_lookup _ _ _ _ Hnorm Hfirst')
    as (f0 & Hf0 & _ & Hk).
  rewrite Hfirst in Hf0. injection Hf0 as <-.
  unfold textures. cbn [for_each]. unfold merge_slot at 1.
  rewrite py_index_0, Hfirst'. cbn [rbind].
  rewrite (proj2 (py_in_true "kd" first')) by (by rewrite Hk).
  rewrite (mapM_first_failure _ mats' (KeyError "kd")); [done| |].
  - intros x Hx. unfold atlas_cell, py_getitem.
    destruct (x !! "kd") as [v|] eqn:Hv; cbn; [|by right].
    destruct (Hoks x Hx "kd" v) as (t & -> & _); [by left|done|].
    cbn. eauto.
  - apply list_elem_of_lookup in Hm as [i Hi].
    destruct (lookup_lt_is_Some_2 mats' i) as [m' Hm'].
    { rewrite (normalize_normals_length _ _ Hnorm). by eapply lookup_lt_Some. }
    destruct (normalize_normals_lookup _ _ _ _ Hnorm Hm') as (m0 & Hm0 & _ & Hk0).
    rewrite Hi in Hm0. injection Hm0 as <-.
    exists m'. split; [apply list_elem_of_lookup; eauto|].
    unfold atlas_cell, py_getitem. by rewrite Hk0, Hnone.
Qed.

End merge_extras.

(** * Further properties of load_mtl *)

Section parser_extras.
Context `{!Externals}.

Lemma mapM_to_float_or data :
  (∃ v, mapM to_float data = Ok v) ∨ mapM to_float data = Raise ValueError.
Proof.
  apply mapM_Ok_or. intros d _. unfold to_float.
  destruct (py_float d); eauto.
Qed.

(** X7.  A line stops the parser exactly in one of the three ways of
    [line_fault], with the error named there; and a file with such a line
    cannot be loaded. *)
Theorem malformed_line materials line e :
  (parse_line materials line = Raise e ↔ line_fault materials line e) ∧
  (line_fault materials line e →
   ∀ fn clear_ks before after,
     read_lines fn = Ok (before ++ line :: after) →
     parse_lines before = Ok materials →
     load_mtl fn clear_ks = Raise e).
Proof.
  assert (line_fault materials line e → parse_line materials line = Raise e)
    as Hfault.
  { intros Hf. rewrite parse_line_eq.
    destruct Hf as [Hn Hd|Hne Hn Hs Hd|d Hne Hn Hs Hd Hfl].
    - by rewrite Hn, Hd.
    - rewrite Hn, bool_decide_eq_true_2, Hs, Hd by done. done.
    - rewrite Hn, bool_decide_eq_true_2, Hs by done.
      rewrite (mapM_first_failure to_float (line_data line) ValueError);
        [done| |].
      + intros x _. unfold to_float. destruct (py_float x); eauto.
      + exists d. split; [done|]. unfold to_float. by rewrite Hfl. }
  split; [split; [|done]|].
  - rewrite parse_line_eq. destruct (is_newmtl line) eqn:Hn.
    + destruct (line_data line) as [|d0 ds] eqn:Hd.
      * intros [= <-]. by constructor.
      * by rewrite py_index_0_cons.
    + case_bool_decide as Hne; [|done].
      destruct (string_valued (line_key line)) eqn:Hs.
      * destruct (line_data line) as [|d0 ds] eqn:Hd.
        -- intros [= <-]. by constructor 2.
        -- by rewrite py_index_0_cons.
      * destruct (mapM to_float (line_data line)) as [v|e'] eqn:Hv; [done|].
        intros [= ->].
        destruct (mapM_to_float_or (line_data line)) as [[v Hv']|Hv'];
          [congruence|].
        rewrite Hv in Hv'. injection Hv' as ->.
        assert (∃ d, d ∈ line_data line ∧ py_float d = None) as (d & Hd & Hfl).
        { clear -Hv. induction (line_data line) as [|d ds IH]; [done|].
          cbn [mapM] in Hv. unfold to_float at 1 in Hv.
          destruct (py_float d) eqn:Hd; cbn [rbind] in Hv.
          - destruct (mapM to_float ds) eqn:Hds; [done|].
            destruct IH as (d' & Hd' & Hfl); [done|].
            exists d'. split; [by right|done].
          - exists d. split; [by left|done]. }
        by econstructor 3.
  - intros Hf fn clear_ks before after Hread Hbefore.
    unfold load_mtl. rewrite Hread. cbn [rbind].
    unfold parse_lines in *. rewrite for_each_app, Hbefore. cbn [rbind for_each].
    by rewrite (Hfault Hf).
Qed.

(** X8.  Of two lines with the same key in one material, the later one
    decides: reading both leaves what reading the later one alone leaves. *)
Theorem later_line_overwrites materials l1 l2 materials1 :
  is_newmtl l1 = false → is_newmtl l2 = false →
  line_key l1 = line_key l2 →
  parse_line materials l1 = Ok materials1 →
  parse_line materials1 l2 = parse_line materials l2.
Proof.
  intros Hn1 Hn2 Hkey. rewrite !parse_line_eq, Hn1, Hn2, <- Hkey.
  case_bool_decide as Hne.
  - destruct (nonempty_snoc materials Hne) as (rest & cur & ->).
    intros H1.
    assert (∃ v1, materials1 = rest ++ [<[line_key l1 := v1]> cur])
      as (v1 & ->).
    { destruct (string_valued (line_key l1)); inv_ok; subst;
        rewrite set_current_snoc; eauto. }
    rewrite bool_decide_eq_true_2 by (by destruct rest).
    destruct (string_valued (line_key l1)).
    + destruct (py_index (line_data l2) 0); cbn [rbind]; [|done].
      by rewrite !set_current_snoc, insert_insert_eq.
    + destruct (mapM to_float (line_data l2)); cbn [rbind]; [|done].
      by rewrite !set_current_snoc, insert_insert_eq.
  - intros [= <-]. subst.
    rewrite bool_decide_eq_false_2; [done|]. intros Hx. by apply Hx.
Qed.

(** The loop keeps the kinds of the stored values apart. *)
Lemma parse_line_kinds materials line materials' :
  Forall parsed_record_ok materials →
  parse_line materials line = Ok materials' →
  Forall parsed_record_ok materials'.
Proof.
  intros Hall. rewrite parse_line_eq. destruct (is_newmtl line).
  - intros Hp. inv_ok. subst. apply Forall_app. split; [done|].
    constructor; [|done]. intros k v.
    destruct (decide (k = "name")) as [->|Hk].
    + rewrite lookup_singleton_eq. intros [= <-]. unfold parsed_entry_ok.
      change (string_valued "name") with false. right. eauto.
    + by rewrite lookup_singleton_ne.
  - case_bool_decide as Hne; [|by intros [= <-]].
    destruct (nonempty_snoc materials Hne) as (rest & cur & ->).
    apply Forall_app in Hall as [Hrest Hcur].
    apply Forall_cons in Hcur as [Hcur _].
    assert (∀ v, parsed_entry_ok (line_key line) v →
                 Forall parsed_record_ok
                        (rest ++ [<[line_key line := v]> cur])) as Hset.
    { intros v Hv. apply Forall_app. split; [done|].
      constructor; [|done]. intros k w.
      destruct (decide (k = line_key line)) as [->|Hk].
      - rewrite lookup_insert_eq. by intros [= <-].
      - rewrite lookup_insert_ne by done. apply Hcur. }
    destruct (string_valued (line_key line)) eqn:Hs; intros Hp; inv_ok; subst;
      rewrite set_current_snoc; apply Hset; unfold parsed_entry_ok;
      rewrite Hs; eauto.
Qed.

Lemma parse_lines_kinds lines result :
  parse_lines lines = Ok result → Forall parsed_record_ok result.
Proof.
  unfold parse_lines.
  assert (Forall parsed_record_ok (@nil material)) as Hnil by constructor.
  revert Hnil. generalize (@nil material) as mats. revert result.
  induction lines as [|l ls IH]; intros result mats Hmats.
  - by intros [= <-].
  - cbn [for_each]. intros Hp. apply rbind_Ok in Hp as (m1 & H1 & Hp).
    eapply IH; [|exact Hp]. by eapply parse_line_kinds.
Qed.

(** What the conversion loop makes of one parsed record. *)
Lemma convert_material_Ok mtl_path clear_ks p m :
  convert_material mtl_path clear_ks p = Ok m →
  m !! "bsdf" = Some (default (VStr "pbr") (p !! "bsdf")) ∧
  (∃ t, m !! "kd" = Some (VTex t)) ∧
  (∃ t, m !! "ks" = Some (VTex t)) ∧
  (is_Some (p !! "bump") → ∃ t, m !! "normal" = Some (VTex t)) ∧
  (p !! "bump" = None → m !! "normal" = p !! "normal") ∧
  ∀ k, k ∉ [ "bsdf"; "kd"; "ks"; "normal" ] → m !! k = p !! k.
Proof.
  unfold convert_material. intros Hc.
  set (p0 := if negb (py_in "bsdf" p) then <["bsdf" := VStr "pbr"]> p else p)
    in *.
  assert (p0 !! "bsdf" = Some (default (VStr "pbr") (p !! "bsdf")) ∧
          ∀ k, k ≠ "bsdf" → p0 !! k = p !! k) as [Hb0 Hk0].
  { unfold p0. destruct (py_in "bsdf" p) eqn:Hin; cbn.
    - apply py_in_true in Hin as [v Hv]. by rewrite Hv.
    - apply py_in_false in Hin. rewrite Hin, lookup_insert_eq.
      split; [done|]. intros k Hk. by rewrite lookup_insert_ne. }
  apply rbind_Ok in Hc as (m1 & H1 & Hc).
  apply rbind_Ok in Hc as (m2 & H2 & Hc).
  apply rbind_Ok in Hc as (m3 & H3 & Hc).
  apply rbind_Ok in Hc as (kd & Hkd & Hc).
  apply rbind_Ok in Hc as (kdt & Hkdt & Hc).
  assert (∃ t1, m1 = <["kd" := VTex t1]> p0) as (t1 & ->).
  { destruct (py_in "map_kd" p0); inv_ok; subst; eauto. }
  assert (∃ t2, m2 = <["ks" := VTex t2]> (<["kd" := VTex t1]> p0))
    as (t2 & ->).
  { destruct (py_in "map_ks" _); inv_ok; subst; eauto. }
  set (m2 := <["ks" := VTex t2]> (<["kd" := VTex t1]> p0)) in *.
  assert (py_in "bump" m2 = py_in "bump" p) as Hbump.
  { unfold py_in, m2. rewrite !lookup_insert_ne by done. by rewrite Hk0. }
  assert ((is_Some (p !! "bump") → ∃ t, m3 !! "normal" = Some (VTex t)) ∧
          (p !! "bump" = None → m3 !! "normal" = p !! "normal") ∧
          ∀ k, k ≠ "normal" → m3 !! k = m2 !! k) as (Hn1 & Hn2 & Hk3).
  { rewrite Hbump in H3. destruct (py_in "bump" p) eqn:Hin.
    - apply py_in_true in Hin. inv_ok. subst.
      split; [intros _; rewrite lookup_insert_eq; eauto|].
      split; [intros Hnone; rewrite Hnone in Hin; by destruct Hin|].
      intros k Hk. by rewrite lookup_insert_ne.
    - apply py_in_false in Hin. apply Ok_inj in H3. subst m3.
      split; [intros Hs; rewrite Hin in Hs; by destruct Hs|].
      split; [|done]. intros _. unfold m2.
      rewrite !lookup_insert_ne by done. by apply Hk0. }
  assert (∃ ks', m = <["ks" := VTex ks']>
                       (<["kd" := VTex (srgb_to_rgb kdt)]> m3) ∨
                 (m = <["kd" := VTex (srgb_to_rgb kdt)]> m3 ∧ ks' = t2))
    as (ks' & Hm).
  { destruct clear_ks; inv_ok; subst; eauto. }
  assert (m !! "bsdf" = m3 !! "bsdf" ∧ m !! "normal" = m3 !! "normal" ∧
          (∃ t, m !! "kd" = Some (VTex t)) ∧
          (∃ t, m !! "ks" = Some (VTex t)) ∧
          ∀ k, k ∉ [ "bsdf"; "kd"; "ks"; "normal" ] → m !! k = m3 !! k)
    as (Hmb & Hmn & Hmkd & Hmks & Hmk).
  { assert (m2 !! "ks" = Some (VTex t2)) as Hks2
      by (unfold m2; by rewrite lookup_insert_eq).
    destruct Hm as [->|[-> ->]].
    - split; [by rewrite !lookup_insert_ne by done|].
      split; [by rewrite !lookup_insert_ne by done|].
      split; [rewrite lookup_insert_ne by done; rewrite lookup_insert_eq;
              eauto|].
      split; [rewrite lookup_insert_eq; eauto|].
      intros k Hk. rewrite !elem_of_cons in Hk.
      rewrite !lookup_insert_ne by (intros <-; tauto). done.
    - split; [by rewrite !lookup_insert_ne by done|].
      split; [by rewrite !lookup_insert_ne by done|].
      split; [rewrite lookup_insert_eq; eauto|].
      split; [rewrite lookup_insert_ne by done; rewrite Hk3 by done; eauto|].
      intros k Hk. rewrite !elem_of_cons in Hk.
      rewrite !lookup_insert_ne by (intros <-; tauto). done. }
  rewrite Hmb, Hmn, Hk3 by done. unfold m2 at 1.
  rewrite !lookup_insert_ne by done.
  repeat (split; [done|]).
  intros k Hk. rewrite Hmk by done. rewrite !elem_of_cons in Hk.
  rewrite Hk3 by (intros ->; tauto). unfold m2.
  rewrite !lookup_insert_ne by (intros <-; tauto).
  apply Hk0. intros ->. tauto.
Qed.

(** X9.  Every material the loader returns has a shader tag that is a string
    ("pbr" unless the file names one) and textures for [kd] and [ks]; its
    [normal] is a texture when the file gives a [bump] map; all its other
    entries are those read from the file. *)
Theorem loaded_materials fn clear_ks lines result :
  read_lines fn = Ok lines →
  load_mtl fn clear_ks = Ok result →
  ∃ parsed,
    parse_lines lines = Ok parsed ∧
    Forall2 (λ p m,
      (∃ tag, m !! "bsdf" = Some (VStr tag) ∧
              (p !! "bsdf" = None → tag = "pbr") ∧
              (is_Some (p !! "bsdf") → p !! "bsdf" = Some (VStr tag))) ∧
      (∃ t, m !! "kd" = Some (VTex t)) ∧
      (∃ t, m !! "ks" = Some (VTex t)) ∧
      (is_Some (p !! "bump") → ∃ t, m !! "normal" = Some (VTex t)) ∧
      (p !! "bump" = None → m !! "normal" = p !! "normal") ∧
      ∀ k, k ∉ [ "bsdf"; "kd"; "ks"; "normal" ] → m !! k = p !! k)
      parsed result.
Proof.
  unfold load_mtl. intros -> Hl. cbn [rbind] in Hl.
  apply rbind_Ok in Hl as (parsed & Hparsed & Hl).
  exists parsed. split; [done|].
  pose proof (parse_lines_kinds _ _ Hparsed) as Hkinds.
  apply mapM_Ok in Hl. clear Hparsed.
  induction Hl as [|p m ps ms Hc _ IH]; [constructor|].
  inversion Hkinds as [|? ? Hp Hps]. subst.
  constructor; [|by apply IH].
  apply convert_material_Ok in Hc as (Hb & Hrest). split; [|done].
  destruct (p !! "bsdf") as [v|] eqn:Hv; cbn in Hb.
  - pose proof (Hp "bsdf" v Hv) as Hentry. unfold parsed_entry_ok in Hentry.
    change (string_valued "bsdf") with true in Hentry.
    destruct Hentry as [s ->]. exists s. split; [done|]. split; [done|]. done.
  - exists "pbr". split; [done|]. split; [done|]. by intros [].
Qed.

(** X10.  A material without [Kd] and without [map_Kd] stops the loader with
    [KeyError]. *)
Theorem load_mtl_missing_kd fn clear_ks lines p parsed :
  read_lines fn = Ok lines →
  parse_lines lines = Ok (p :: parsed) →
  p !! "map_kd" = None → p !! "kd" = None →
  load_mtl fn clear_ks = Raise (KeyError "kd").
Proof.
  intros Hread Hparsed Hmap Hkd. unfold load_mtl.
  rewrite Hread. cbn [rbind]. rewrite Hparsed. cbn [rbind mapM].
  unfold convert_material.
  set (p0 := if negb (py_in "bsdf" p) then <["bsdf" := VStr "pbr"]> p else p).
  assert (p0 !! "map_kd" = None ∧ p0 !! "kd" = None) as [Hmap0 Hkd0].
  { unfold p0. destruct (negb (py_in "bsdf" p));
      rewrite ?lookup_insert_ne by done; done. }
  rewrite (proj2 (py_in_false "map_kd" p0) Hmap0).
  unfold py_getitem at 1. by rewrite Hkd0.
Qed.

End parser_extras.

(** * The tokenizer of load_mtl *)

Section text_extras.
Context `{!Externals}.

Lemma parse_line_tokens materials l1 l2 :
  line_tokens l1 = line_tokens l2 →
  parse_line materials l1 = parse_line materials l2.
Proof.
  intros Heq. rewrite !parse_line_eq.
  unfold is_newmtl, line_key, line_data. by rewrite Heq.
Qed.

(** X11.  White space around a line, the line ending included, does not change
    what the line does. *)
Theorem surrounding_whitespace_ignored materials pre line post :
  all_space pre = true → all_space post = true →
  parse_line materials (pre ++ line ++ post)%string =
  parse_line materials line.
Proof.
  intros Hpre Hpost. apply parse_line_tokens. unfold line_tokens.
  by rewrite strip_app.
Qed.

(** X12.  The fields of a line are the texts between its runs of separators: a
    run of one separator character, however long, separates two fields, and
    two runs of different characters next to each other enclose an empty
    field. *)
Theorem line_fields line first fs :
  Text.strip line = (first ++ fields_text fs)%string →
  no_sep first = true → fields_wf None fs = true →
  line_tokens line = first :: map snd fs ∧
  line_key line = Text.lower first ∧
  line_data line = map snd fs.
Proof.
  intros Hline Hfirst Hwf.
  assert (line_tokens line = first :: map snd fs) as Htok.
  { unfold line_tokens. rewrite Hline. by apply re_split_fields. }
  unfold line_key, line_data. by rewrite Htok.
Qed.

(** X13.  A string-valued key followed by spaces and then tabs stores the
    empty string, not the text that follows (key and text being tokens of
    printable ASCII). *)
Theorem space_then_tab_stores_empty rest cur key n k val :
  printable key = true → key ≠ "" →
  printable val = true → val ≠ "" →
  Text.contains "newmtl" (Text.lower key) = false →
  string_valued (Text.lower key) = true →
  parse_line (rest ++ [cur])
             (key ++ run " " (S n) ++ run "009" (S k) ++ val)%string =
  Ok (rest ++ [<[Text.lower key := VStr ""]> cur]).
Proof.
  intros Hkey%printable_no_space Hkne Hval%printable_no_space Hvne Hnew Hstr.
  set (line := (key ++ run " " (S n) ++ run "009" (S k) ++ val)%string).
  set (fs := [(" "%char, n, ""); ("009"%char, k, val)]).
  assert (line = (key ++ fields_text fs)%string) as Hshape.
  { unfold line, fs. cbn [fields_text].
    by rewrite append_nil_l, append_nil_r. }
  assert (Text.strip line = (key ++ fields_text fs)%string) as Hstrip.
  { unfold Text.strip.
    assert (Text.lstrip line = line) as ->.
    { unfold line. destruct key as [|c key]; [done|].
      cbn in Hkey. apply andb_true_iff in Hkey as [Hc _].
      apply negb_true_iff in Hc. rewrite append_cons. cbn. by rewrite Hc. }
    rewrite <- Hshape. unfold line.
    rewrite <- !append_assoc. by apply rstrip_app_token. }
  assert (line_tokens line = key :: map snd fs) as Htok.
  { unfold line_tokens. rewrite Hstrip. apply re_split_fields.
    - by apply no_space_no_sep.
    - cbn. by rewrite (no_space_no_sep val Hval). }
  rewrite parse_line_eq. unfold is_newmtl, line_key, line_data.
  rewrite Htok. cbn [hd drop map snd fs]. rewrite Hnew.
  rewrite bool_decide_eq_true_2 by (by destruct rest).
  rewrite Hstr, py_index_0_cons. cbn [rbind].
  by rewrite set_current_snoc.
Qed.

End text_extras.

(** * save_mtl *)

Section save_thms.
Context `{!Externals} `{!SaveExternals}.

Lemma parse_line_newmtl materials line k name ds :
  line_tokens line = k :: name :: ds →
  Text.contains "newmtl" (Text.lower k) = true →
  parse_line materials line = Ok (materials ++ [ {[ "name" := VStr name ]} ]).
Proof.
  intros Htok Hnew. rewrite parse_line_eq.
  unfold is_newmtl, line_key, line_data. rewrite Htok. cbn [hd drop].
  by rewrite Hnew, py_index_0_cons.
Qed.

Lemma parse_line_string cur line k d ds :
  line_tokens line = k :: d :: ds →
  Text.contains "newmtl" (Text.lower k) = false →
  string_valued (Text.lower k) = true →
  parse_line [cur] line = Ok [<[Text.lower k := VStr d]> cur].
Proof.
  intros Htok Hnew Hstr. rewrite parse_line_eq.
  unfold is_newmtl, line_key, line_data. rewrite Htok. cbn [hd drop].
  rewrite Hnew, Hstr, py_index_0_cons. reflexivity.
Qed.

Lemma parse_line_numeric cur line k ds v :
  line_tokens line = k :: ds →
  Text.contains "newmtl" (Text.lower k) = false →
  string_valued (Text.lower k) = false →
  mapM to_float ds = Ok v →
  parse_line [cur] line = Ok [<[Text.lower k := VVec v]> cur].
Proof.
  intros Htok Hnew Hstr Hv. rewrite parse_line_eq.
  unfold is_newmtl, line_key, line_data. rewrite Htok. cbn [hd drop].
  change (drop 0 ds) with ds. rewrite Hnew, Hstr, Hv. reflexivity.
Qed.

Lemma bsdf_line_tokens tag :
  no_space tag = true → tag ≠ "" →
  line_tokens ("bsdf " ++ tag ++ nl)%string = ["bsdf"; tag].
Proof.
  intros Htag Hne. unfold line_tokens.
  assert (Text.strip ("bsdf " ++ tag ++ nl)%string = ("bsdf " ++ tag)%string)
    as ->.
  { replace ("bsdf " ++ tag ++ nl)%string
      with ("" ++ ("bsdf " ++ tag) ++ nl)%string
      by (by rewrite append_nil_l, append_assoc).
    rewrite (strip_app "" ("bsdf " ++ tag)%string nl) by done.
    unfold Text.strip.
    change (Text.lstrip ("bsdf " ++ tag)%string) with ("bsdf " ++ tag)%string.
    by apply rstrip_app_token. }
  replace ("bsdf " ++ tag)%string
    with ("bsdf" ++ fields_text [(" "%char, 0%nat, tag)])%string
    by (cbn [fields_text run]; by rewrite append_nil_r).
  rewrite re_split_fields; [done|done|].
  cbn. by rewrite (no_space_no_sep tag Htag).
Qed.

(** The lines of a material file read back as one record. *)
Lemma parse_mtl_lines tag kd ks normal q0 q1 :
  (∀ t, tag = Some t → no_space t = true ∧ t ≠ "") →
  py_float "0" = Some q0 → py_float "1" = Some q1 →
  parse_lines (mtl_lines tag kd ks normal)
  = Ok [reread tag kd ks normal q0 q1].
Proof.
  intros Htag Hq0 Hq1.
  assert (mapM to_float ["1"; "1"; "1"] = Ok [q1; q1; q1]) as H111
    by (cbn; unfold to_float; by rewrite Hq1).
  assert (mapM to_float ["0"; "0"; "0"] = Ok [q0; q0; q0]) as H000
    by (cbn; unfold to_float; by rewrite Hq0).
  assert (mapM to_float ["1"] = Ok [q1]) as H1'
    by (cbn; unfold to_float; by rewrite Hq1).
  unfold parse_lines, mtl_lines. cbn [app for_each].
  rewrite (parse_line_newmtl [] _ "newmtl" "defaultMat" []) by reflexivity.
  cbn [rbind app]. rewrite for_each_app.
  set (m0 := ({[ "name" := VStr "defaultMat" ]} : material)).
  assert (∃ m1, for_each parse_line
                  match tag with
                  | Some t => [("bsdf " ++ t ++ nl)%string]
                  | None => []
                  end [m0] = Ok [m1] ∧
                m1 = match tag with
                     | Some t => <["bsdf" := VStr t]> m0
                     | None => m0
                     end) as (m1 & -> & Hm1).
  { destruct tag as [t|]; [|by eexists].
    destruct (Htag t eq_refl) as [Ht Hne].
    eexists. split; [|reflexivity]. cbn [for_each].
    rewrite (parse_line_string m0 _ "bsdf" t []);
      [reflexivity|by apply bsdf_line_tokens|reflexivity|reflexivity]. }
  cbn [rbind for_each].
  assert (∃ m2, parse_line [m1]
                  (if kd then ("map_Kd texture_kd.png" ++ nl)%string
                   else ("Kd 1 1 1" ++ nl)%string) = Ok [m2] ∧
                m2 = if kd then <["map_kd" := VStr "texture_kd.png"]> m1
                     else <["kd" := VVec [q1; q1; q1]]> m1) as (m2 & -> & Hm2).
  { destruct kd; eexists; (split; [|reflexivity]).
    - by rewrite (parse_line_string m1 _ "map_Kd" "texture_kd.png" []).
    - by rewrite (parse_line_numeric m1 _ "Kd" ["1"; "1"; "1"] [q1; q1; q1]). }
  cbn [rbind].
  rewrite (parse_line_string m2 _ "Ka" "0" ["0"; "0"]) by reflexivity.
  cbn [rbind].
  set (m3 := <[Text.lower "Ka" := VStr "0"]> m2).
  assert (∃ m4, parse_line [m3]
                  (if ks then ("map_Ks texture_ks.png" ++ nl)%string
                   else ("Ks 0 0 0" ++ nl)%string) = Ok [m4] ∧
                m4 = if ks then <["map_ks" := VStr "texture_ks.png"]> m3
                     else <["ks" := VVec [q0; q0; q0]]> m3) as (m4 & -> & Hm4).
  { destruct ks; eexists; (split; [|reflexivity]).
    - by rewrite (parse_line_string m3 _ "map_Ks" "texture_ks.png" []).
    - by rewrite (parse_line_numeric m3 _ "Ks" ["0"; "0"; "0"] [q0; q0; q0]). }
  cbn [rbind].
  rewrite (parse_line_string m4 _ "Ns" "0" []) by reflexivity.
  cbn [rbind].
  rewrite (parse_line_numeric _ _ "Ni" ["1"] [q1]) by done.
  cbn [rbind].
  rewrite (parse_line_numeric _ _ "Tf" ["1"; "1"; "1"] [q1; q1; q1]) by done.
  cbn [rbind].
  assert (∀ m5 : material,
            m5 = <[Text.lower "Tf" := VVec [q1; q1; q1]]>
                   (<[Text.lower "Ni" := VVec [q1]]>
                      (<[Text.lower "Ns" := VStr "0"]> m4)) →
            (if normal then <["bump" := VStr "texture_n.png"]> m5 else m5)
            = reread tag kd ks normal q0 q1) as Hfinal.
  { intros m5 ->. subst m4. subst m3. subst m2. subst m1. reflexivity. }
  destruct normal; cbn [for_each].
  - rewrite (parse_line_string _ _ "bump" "texture_n.png" []) by reflexivity.
    cbn [rbind]. f_equal. f_equal. by apply Hfinal.
  - f_equal. f_equal. by apply Hfinal.
Qed.


Ltac save_step H :=
  match type of H with
  | context [open_write ?fn] =>
      destruct (open_write fn) as [[]|?] eqn:?
  | context [has_entry ?m "bsdf"] =>
      destruct (has_entry m "bsdf") as [[|]|?] eqn:?
  | context [subscript ?m "bsdf"] =>
      destruct (subscript m "bsdf") as [?|?] eqn:?
  | context [has_entry ?m "kd"] =>
      destruct (has_entry m "kd") as [[|]|?] eqn:?
  | context [subscript ?m "kd"] =>
      destruct (subscript m "kd") as [[?|?|?]|?] eqn:?
  | context [has_entry ?m "ks"] =>
      destruct (has_entry m "ks") as [[|]|?] eqn:?
  | context [subscript ?m "ks"] =>
      destruct (subscript m "ks") as [?|?] eqn:?
  | context [has_entry ?m "normal"] =>
      destruct (has_entry m "normal") as [[|]|?] eqn:?
  | context [subscript ?m "normal"] =>
      destruct (subscript m "normal") as [?|?] eqn:?
  | context [save_texture2D ?p ?v ?l] =>
      destruct (save_texture2D p v l) as [[]|?] eqn:?
  end;
  cbn [as_texture rbind] in H; cbv beta iota in H;
  cbn [file_text texture_files] in H; try discriminate H.

Ltac pick_bool k :=
  match goal with
  | H : has_entry _ k = Ok ?b |- _ => exists b
  end.

Ltac pick_value k d :=
  first [ match goal with
          | H : subscript _ k = Ok (VTex ?t) |- _ =>
              lazymatch k with "kd" => exists t end
          end
        | match goal with
          | H : subscript _ k = Ok ?v |- _ => exists v
          end
        | exists d ].

(** What a call that returns has done. *)
Lemma save_mtl_Ok fn material out :
  save_mtl fn material = (out, Ok tt) →
  ∃ b kd ks n v_b t_kd v_ks v_n,
    has_entry material "bsdf" = Ok b ∧
    has_entry material "kd" = Ok kd ∧
    has_entry material "ks" = Ok ks ∧
    has_entry material "normal" = Ok n ∧
    (b = true → subscript material "bsdf" = Ok v_b) ∧
    (kd = true → subscript material "kd" = Ok (VTex t_kd)) ∧
    (ks = true → subscript material "ks" = Ok v_ks) ∧
    (n = true → subscript material "normal" = Ok v_n) ∧
    file_text out
    = mtl_lines (if b then Some (py_format v_b) else None) kd ks n ∧
    texture_files out
    = (if kd then [(os_path_join (os_path_dirname fn) "texture_kd.png",
                    VTex (rgb_to_srgb t_kd), None)] else []) ++
      (if ks then [(os_path_join (os_path_dirname fn) "texture_ks.png",
                    v_ks, None)] else []) ++
      (if n then [(os_path_join (os_path_dirname fn) "texture_n.png",
                   v_n, Some (λ x, (x + 1) * (1 # 2))%Q)] else []).
Proof.
  intros Hs. unfold save_mtl, save_mtl_body in Hs.
  cbv [io_bind io_lift io_ret f_write io_save] in Hs.
  cbn [file_text texture_files] in Hs.
  repeat save_step Hs.
  all: injection Hs as <-.
  all: pick_bool "bsdf"; pick_bool "kd"; pick_bool "ks"; pick_bool "normal".
  all: pick_value "bsdf" (VStr ""); pick_value "kd" (Texture2D_of_tensor (const_tensor []));
       pick_value "ks" (VStr ""); pick_value "normal" (VStr "").
  all: repeat (split; [done|]); try done.
Qed.


Lemma saved_tag_spec material b v_b :
  plain_tag material →
  has_entry material "bsdf" = Ok b →
  (b = true → subscript material "bsdf" = Ok v_b) →
  (if b then Some (py_format v_b) else None) = saved_tag material ∧
  ∀ t, saved_tag material = Some t → no_space t = true ∧ t ≠ "".
Proof.
  intros Hplain Hb Hv. destruct material as [m|]; cbn in *.
  - case_bool_decide as Hsize.
    + injection Hb as <-. apply map_size_empty_iff in Hsize. subst m.
      by rewrite lookup_empty.
    + destruct (m !! "bsdf") as [v|] eqn:Hlook.
      * destruct (Hplain m v eq_refl Hlook) as (tag & -> & Htag).
        apply printable_no_space in Htag. cbn in Hb. injection Hb as <-.
        case_bool_decide as Hempty; cbn.
        -- split; [done|]. by intros t.
        -- unfold py_getitem in Hv. rewrite Hlook in Hv.
           specialize (Hv eq_refl). injection Hv as <-. cbn.
           split; [done|]. by intros t [= <-].
      * injection Hb as <-. split; [done|]. by intros t.
  - injection Hb as <-. split; [done|]. by intros t.
Qed.

(** X14.  The file written by a call that returns (every write is one line
    of it) reads back, through the parsing loop of [load_mtl], as exactly
    one record: it is named [defaultMat] whatever the material was called,
    keeps the shader tag (a string of printable ASCII characters: one
    token, which stripping and splitting leave alone), refers to a texture
    file for each of [kd], [ks] and [normal] the material had and gives the
    constants 1 1 1 and 0 0 0 for a missing [kd] and [ks]; nothing else of
    the material is kept. *)
Theorem saved_file_reads_back fn material out q0 q1 :
  save_mtl fn material = (out, Ok tt) →
  plain_tag material →
  py_float "0" = Some q0 → py_float "1" = Some q1 →
  ∃ kd ks normal,
    has_entry material "kd" = Ok kd ∧
    has_entry material "ks" = Ok ks ∧
    has_entry material "normal" = Ok normal ∧
    parse_lines (file_text out)
    = Ok [reread (saved_tag material) kd ks normal q0 q1].
Proof.
  intros Hs Hplain Hq0 Hq1.
  apply save_mtl_Ok in Hs as
    (b & kd & ks & n & v_b & t_kd & v_ks & v_n &
     Hb & Hkd & Hks & Hn & Hvb & _ & _ & _ & Hfile & _).
  exists kd, ks, n. repeat (split; [done|]).
  destruct (saved_tag_spec material b v_b Hplain Hb Hvb) as [Htag Hok].
  rewrite Hfile, Htag. by apply parse_mtl_lines.
Qed.

Lemma insert_py_in (k k' : string) (v : value) (m : material) :
  k ≠ k' → py_in k (<[k' := v]> m) = py_in k m.
Proof. intros Hne. unfold py_in. by rewrite lookup_insert_ne. Qed.

Lemma py_in_Some (k : string) (m : material) v :
  m !! k = Some v → py_in k m = true.
Proof. intros Hk. apply py_in_true. by rewrite Hk. Qed.

Lemma clear_occlusion_succeeds t :
  Forall (λ mip, 0 < t_c mip) (getMips t) →
  ∃ t', clear_occlusion t = Ok t'.
Proof.
  intros Hall. unfold clear_occlusion.
  assert (∃ mips, mapM zero_channel0 (getMips t) = Ok mips) as [mips ->].
  { induction Hall as [|mip l Hmip _ [mips IH]]; [by eexists|].
    cbn [mapM]. unfold zero_channel0 at 1.
    destruct (Z.leb_spec (t_c mip) 0); [lia|]. cbn [rbind].
    rewrite IH. by eexists. }
  cbn [rbind]. destruct mips; by eexists.
Qed.

(** The conversion loop completes a loadable record. *)
Lemma convert_material_succeeds mtl_path clear_ks p :
  loadable mtl_path p →
  ∃ m, convert_material mtl_path clear_ks p = Ok m.
Proof.
  intros (Hkd & Hks & Hbump). unfold convert_material.
  set (p0 := if negb (py_in "bsdf" p) then <["bsdf" := VStr "pbr"]> p else p).
  assert (∀ k, k ≠ "bsdf" → p0 !! k = p !! k) as Hp0.
  { intros k Hk. unfold p0. destruct (negb (py_in "bsdf" p)); [|done].
    by rewrite lookup_insert_ne. }
  assert (∀ k, k ≠ "bsdf" → py_in k p0 = py_in k p) as Hin0.
  { intros k Hk. unfold py_in. by rewrite Hp0. }
  assert (∃ t1, (if py_in "map_kd" p0 then
                   v ←! py_getitem p0 "map_kd";
                   path ←! texture_path mtl_path v;
                   t ←! load_texture2D path None None;
                   Ok (<["kd" := VTex t]> p0)
                 else
                   v ←! py_getitem p0 "kd";
                   t ←! Texture2D_of_value v;
                   Ok (<["kd" := VTex t]> p0))
                = Ok (<["kd" := VTex t1]> p0)) as [t1 ->].
  { rewrite Hin0 by done. unfold py_getitem. rewrite !Hp0 by done.
    destruct Hkd as [(name & t & Hname & Hload)|(Hnone & c & Hc)].
    - rewrite (py_in_Some _ _ _ Hname), Hname. cbn. rewrite Hload. by eexists.
    - rewrite (proj2 (py_in_false _ _) Hnone), Hc. cbn. by eexists. }
  cbn [rbind]. set (p1 := <["kd" := VTex t1]> p0).
  assert (∀ k, k ≠ "bsdf" → k ≠ "kd" → p1 !! k = p !! k) as Hp1.
  { intros k Hk Hk'. unfold p1. rewrite lookup_insert_ne by done.
    by apply Hp0. }
  assert (∃ t2, (if py_in "map_ks" p1 then
                   v ←! py_getitem p1 "map_ks";
                   path ←! texture_path mtl_path v;
                   t ←! load_texture2D path None (Some 3);
                   Ok (<["ks" := VTex t]> p1)
                 else
                   v ←! py_getitem p1 "ks";
                   t ←! Texture2D_of_value v;
                   Ok (<["ks" := VTex t]> p1))
                = Ok (<["ks" := VTex t2]> p1) ∧
                Forall (λ mip, 0 < t_c mip) (getMips t2)) as (t2 & -> & Hch).
  { unfold py_in, py_getitem. rewrite !Hp1 by done.
    destruct Hks as [(name & t & Hname & Hload & Hch)|(Hnone & c & Hc & Hne)].
    - rewrite Hname. rewrite bool_decide_eq_true_2 by done. cbn.
      rewrite Hload. by eexists.
    - rewrite Hnone, Hc. rewrite bool_decide_eq_false_2 by (by intros []).
      cbn. eexists. split; [done|]. repeat constructor. cbn.
      destruct c; [done|]. cbn [length]. lia. }
  cbn [rbind]. set (p2 := <["ks" := VTex t2]> p1).
  assert (∀ k, k ≠ "bsdf" → k ≠ "kd" → k ≠ "ks" → p2 !! k = p !! k) as Hp2.
  { intros k Hk Hk' Hk''. unfold p2. rewrite lookup_insert_ne by done.
    by apply Hp1. }
  assert (∃ p3, (if py_in "bump" p2 then
                   v ←! py_getitem p2 "bump";
                   path ←! texture_path mtl_path v;
                   t ←! load_texture2D path (Some (λ x, x * 2 - 1)%Q) (Some 3);
                   Ok (<["normal" := VTex t]> p2)
                 else Ok p2) = Ok p3 ∧
                p3 !! "kd" = Some (VTex t1) ∧ p3 !! "ks" = Some (VTex t2))
    as (p3 & -> & Hkd3 & Hks3).
  { assert (p2 !! "kd" = Some (VTex t1) ∧ p2 !! "ks" = Some (VTex t2))
      as [Hkd2 Hks2].
    { unfold p2, p1. rewrite lookup_insert_ne by done.
      by rewrite !lookup_insert_eq. }
    unfold py_in, py_getitem. rewrite !Hp2 by done.
    destruct Hbump as [Hnone|(name & t & Hname & Hload)].
    - rewrite Hnone. rewrite bool_decide_eq_false_2 by (by intros []).
      by eexists.
    - rewrite Hname. rewrite bool_decide_eq_true_2 by done. cbn.
      rewrite Hload. eexists. split; [done|].
      by rewrite !lookup_insert_ne by done. }
  cbn [rbind]. unfold py_getitem at 1. rewrite Hkd3. cbn [rbind as_texture].
  destruct clear_ks; [|by eexists].
  unfold py_getitem. rewrite lookup_insert_ne by done. rewrite Hks3.
  cbn [rbind as_texture].
  destruct (clear_occlusion_succeeds t2 Hch) as [t' ->]. by eexists.
Qed.


Lemma reread_lookup tag kd ks n q0 q1 :
  let r := reread tag kd ks n q0 q1 in
  r !! "name" = Some (VStr "defaultMat") ∧
  r !! "bsdf" = VStr <$> tag ∧
  r !! "map_kd" = (if kd then Some (VStr "texture_kd.png") else None) ∧
  r !! "kd" = (if kd then None else Some (VVec [q1; q1; q1])) ∧
  r !! "map_ks" = (if ks then Some (VStr "texture_ks.png") else None) ∧
  r !! "ks" = (if ks then None else Some (VVec [q0; q0; q0])) ∧
  r !! "bump" = (if n then Some (VStr "texture_n.png") else None) ∧
  r !! "normal" = None.
Proof. destruct tag, kd, ks, n; repeat split; reflexivity. Qed.

(** X15.  A file whose records all give colour and specular entries as a
    constant or as a readable texture, and a readable bump map if any,
    loads, one material per record. *)
Theorem load_mtl_succeeds fn clear_ks lines parsed :
  read_lines fn = Ok lines →
  parse_lines lines = Ok parsed →
  Forall (loadable (os_path_dirname fn)) parsed →
  ∃ result, load_mtl fn clear_ks = Ok result ∧
            length result = length parsed.
Proof.
  intros Hread Hparsed Hall. unfold load_mtl.
  rewrite Hread. cbn [rbind]. rewrite Hparsed. cbn [rbind].
  clear Hparsed. induction Hall as [|p ps Hp _ IH].
  - by exists [].
  - cbn [mapM].
    destruct (convert_material_succeeds (os_path_dirname fn) clear_ks p Hp)
      as [m ->].
    destruct IH as (result & -> & Hlen).
    cbn [rbind]. eexists. split; [done|]. cbn. by rewrite Hlen.
Qed.

(** X16.  Saving and then loading: when the file and the textures that
    [save_mtl] wrote are what [load_mtl] finds, the load returns one
    material; it is called [defaultMat], has the shader tag of the saved
    material (a string of printable ASCII characters; [pbr] if it had
    none), has [kd] and [ks] textures whether or
    not the saved material had them, and has a normal map exactly when the
    saved material had one. *)
Theorem save_then_load fn material clear_ks out q0 q1 :
  save_mtl fn material = (out, Ok tt) →
  read_lines fn = Ok (file_text out) →
  plain_tag material →
  py_float "0" = Some q0 → py_float "1" = Some q1 →
  (∀ path v lam, (path, v, lam) ∈ texture_files out →
     ∀ l c, c ∈ [None; Some 3] →
       ∃ t, load_texture2D path l c = Ok t ∧
            Forall (λ mip, 0 < t_c mip) (getMips t)) →
  ∃ m, load_mtl fn clear_ks = Ok [m] ∧
       m !! "name" = Some (VStr "defaultMat") ∧
       m !! "bsdf" = Some (VStr (default "pbr" (saved_tag material))) ∧
       (∃ t, m !! "kd" = Some (VTex t)) ∧
       (∃ t, m !! "ks" = Some (VTex t)) ∧
       (is_Some (m !! "normal") ↔ has_entry material "normal" = Ok true).
Proof.
  intros Hs Hread Hplain Hq0 Hq1 Hfiles.
  apply save_mtl_Ok in Hs as
    (b & kd & ks & n & v_b & t_kd & v_ks & v_n &
     Hb & Hkd & Hks & Hn & Hvb & _ & _ & _ & Hfile & Htex).
  destruct (saved_tag_spec material b v_b Hplain Hb Hvb) as [Htag Hok].
  rewrite Htag in Hfile.
  pose proof (parse_mtl_lines (saved_tag material) kd ks n q0 q1 Hok Hq0 Hq1)
    as Hparse.
  rewrite <- Hfile in Hparse.
  set (rec := reread (saved_tag material) kd ks n q0 q1) in *.
  destruct (reread_lookup (saved_tag material) kd ks n q0 q1)
    as (Rname & Rbsdf & Rmkd & Rkd & Rmks & Rks & Rbump & Rnormal).
  fold rec in Rname, Rbsdf, Rmkd, Rkd, Rmks, Rks, Rbump, Rnormal.
  assert (loadable (os_path_dirname fn) rec) as Hloadable.
  { split; [|split].
    - rewrite Rmkd, Rkd. destruct kd; [left|right; eauto].
      destruct (Hfiles (os_path_join (os_path_dirname fn) "texture_kd.png")
                  (VTex (rgb_to_srgb t_kd)) None) with (l := @None (Q → Q))
                  (c := @None Z) as (t & Ht & _).
      { rewrite Htex. apply elem_of_app. left. by left. }
      { by left. }
      by exists "texture_kd.png", t.
    - rewrite Rmks, Rks. destruct ks; [left|right].
      + destruct (Hfiles (os_path_join (os_path_dirname fn) "texture_ks.png")
                    v_ks None) with (l := @None (Q → Q)) (c := Some 3)
          as (t & Ht & Hch).
        { rewrite Htex. apply elem_of_app. right. apply elem_of_app.
          left. by left. }
        { right. by left. }
        by exists "texture_ks.png", t.
      + split; [done|]. by exists [q0; q0; q0].
    - rewrite Rbump. destruct n; [right|by left].
      destruct (Hfiles (os_path_join (os_path_dirname fn) "texture_n.png")
                  v_n (Some (λ x, (x + 1) * (1 # 2))%Q))
        with (l := Some (λ x, x * 2 - 1)%Q) (c := Some 3) as (t & Ht & _).
      { rewrite Htex. apply elem_of_app. right. apply elem_of_app.
        right. by left. }
      { right. by left. }
      by exists "texture_n.png", t. }
  destruct (convert_material_succeeds (os_path_dirname fn) clear_ks rec
              Hloadable) as [m Hm].
  exists m. split.
  { unfold load_mtl. rewrite Hread. cbn [rbind]. rewrite Hparse.
    cbn [rbind mapM]. by rewrite Hm. }
  apply convert_material_Ok in Hm as
    (Mbsdf & Mkd & Mks & Mbump & Mnobump & Mother).
  split.
  { rewrite Mother, Rname; [done|].
    rewrite !elem_of_cons, elem_of_nil. intros [?|[?|[?|[?|[]]]]]; done. }
  split.
  { rewrite Mbsdf, Rbsdf. by destruct (saved_tag material). }
  split; [done|]. split; [done|].
  rewrite Hn. destruct n.
  - split; [done|]. intros _. destruct Mbump as [t ->]; [|done].
    by rewrite Rbump.
  - split; [|done]. rewrite Mnobump, Rnormal by (by rewrite Rbump).
    by intros [].
Qed.

Lemma has_entry_subscript material key :
  has_entry material key = Ok true →
  ∃ v, subscript material key = Ok v.
Proof.
  destruct material as [m|]; cbn; [|done].
  case_bool_decide; [done|]. unfold py_getitem.
  destruct (m !! key); [by eexists|done].
Qed.

Ltac save_leaf :=
  lazymatch goal with
  | Hopen : open_write _ = Ok tt, Hfail : open_write _ = Raise _ |- _ =>
      rewrite Hfail in Hopen; discriminate Hopen
  | Htot : ∀ key, ∃ b, has_entry _ key = Ok b,
    Hfail : has_entry _ ?k = Raise _ |- _ =>
      destruct (Htot k) as [? Hb]; rewrite Hfail in Hb; discriminate Hb
  | Hhas : has_entry _ ?k = Ok true, Hfail : subscript _ ?k = Raise _ |- _ =>
      destruct (has_entry_subscript _ _ Hhas) as [? Hv];
      rewrite Hfail in Hv; discriminate Hv
  | |- _ =>
      eexists; split; [reflexivity|]; split; [|reflexivity];
      unfold texture_lines; rewrite !elem_of_cons; tauto
  end.

(** X17.  The file names a texture before the texture is saved.  After a
    call that returns, the texture files saved are as many as the lines
    that name one.  After a call that raises with the file open and the
    truth tests passed, the last line written names a texture that was not
    saved: there is one such line more than texture files. *)
Theorem references_and_texture_files fn material out r :
  save_mtl fn material = (out, r) →
  (r = Ok tt →
   length (references (file_text out)) = length (texture_files out)) ∧
  (∀ e, r = Raise e →
     open_write fn = Ok tt →
     (∀ key, ∃ b, has_entry material key = Ok b) →
     ∃ line, last (file_text out) = Some line ∧
             line ∈ texture_lines ∧
             length (references (file_text out))
             = S (length (texture_files out))).
Proof.
  intros Hs. unfold save_mtl, save_mtl_body in Hs.
  cbv [io_bind io_lift io_ret f_write io_save] in Hs.
  cbn [file_text texture_files] in Hs.
  repeat save_step Hs.
  all: injection Hs as <- <-.
  all: split; [intros Hr; try discriminate Hr; reflexivity|].
  all: intros e' Hr Hopen Htot; try discriminate Hr; try discriminate Hopen.
  all: save_leaf.
Qed.

End save_thms.

(** ** The further properties on concrete inputs *)

Lemma demo_uber :
  ∃ r t, @merge_materials Demo.platform [Demo.matA; Demo.matB]
           Demo.texcoords Demo.tfaces Demo.mfaces = Ok r ∧
         uber_material r !! "kd" = Some (VTex t).
Proof.
  eexists _, _. split; [vm_compute; reflexivity|].
  vm_compute. reflexivity.
Defined.

Lemma new_indices_in_range_witness :
  ∃ r, @merge_materials Demo.platform [Demo.matA; Demo.matB]
         Demo.texcoords Demo.tfaces Demo.mfaces = Ok r ∧
       ∀ f' idx, f' ∈ ret_tfaces r → idx ∈ corners f' →
         0 ≤ idx < Z.of_nat (length (ret_tverts_data r)).
Proof.
  destruct demo_merge as [r Hr]. exists r. split; [exact Hr|].
  exact (@new_indices_in_range Demo.platform _ _ _ _ _ Hr).
Defined.

Lemma merged_mesh_was_addressable_witness :
  (∃ r, @merge_materials Demo.platform [Demo.matA; Demo.matB]
          Demo.texcoords Demo.tfaces Demo.mfaces = Ok r) ∧
  mesh_ok Demo.texcoords Demo.tfaces Demo.mfaces.
Proof.
  destruct demo_merge as [r Hr]. split; [by exists r|].
  exact (@merged_mesh_was_addressable Demo.platform _ _ _ _ _ Hr).
Defined.

Lemma coordinates_stay_in_unit_square_witness :
  ∃ r u' v',
    @merge_materials Demo.platform [Demo.matA; Demo.matB]
      Demo.texcoords Demo.tfaces Demo.mfaces = Ok r ∧
    ret_tverts_data r !! 4%nat = Some (u', v') ∧
    (0 <= u')%Q ∧ (u' <= 1)%Q ∧ (0 <= v')%Q ∧ (v' <= 1)%Q.
Proof.
  destruct demo_tables as (r & Hr & Hdata & Hfaces).
  destruct (@coordinates_stay_in_unit_square Demo.platform _ _ _ _ _ Hr)
    as (mh & mw & _ & Hcell & _).
  destruct (Hcell 1%nat (0, 1, 2) 1 (3, 4, 5) 1%nat 1 4 1%Q 0%Q)
    as (u' & v' & Hd & _ & Hb).
  all: try reflexivity.
  all: try (by rewrite Hfaces).
  all: try (simpl; lia).
  all: try (unfold Qle; simpl; lia).
  exists r, u', v'. split; [exact Hr|]. split; [exact Hd|exact Hb].
Defined.

Lemma uber_material_record_witness :
  ∃ r, @merge_materials Demo.platform [Demo.matA; Demo.matB]
         Demo.texcoords Demo.tfaces Demo.mfaces = Ok r ∧
       uber_material r !! "name" = Some (VStr "uber_material") ∧
       dom (uber_material r) ⊆ {[ "name"; "bsdf"; "kd"; "ks"; "normal" ]}.
Proof.
  destruct demo_merge as [r Hr]. exists r. split; [exact Hr|].
  destruct (@uber_material_record Demo.platform _ _ _ _ _ Hr)
    as (first & tag & _ & _ & _ & _ & Hname & _ & Hdom & _).
  split; [exact Hname|exact Hdom].
Defined.

Lemma atlas_layout_witness :
  ∃ r t, @merge_materials Demo.platform [Demo.matA; Demo.matB]
           Demo.texcoords Demo.tfaces Demo.mfaces = Ok r ∧
         uber_material r !! "kd" = Some (VTex t) ∧
         ∃ mh, ∀ row col ch, mh ≤ row →
           t_at (data t) row col ch = t_at (data t) (mh - 1) col ch.
Proof.
  destruct demo_uber as (r & t & Hr & Hkd). exists r, t.
  split; [exact Hr|]. split; [exact Hkd|].
  destruct (@atlas_layout Demo.platform _ _ _ _ _ "kd" t Hr
              demo_scale_exact) as (mh & mw & cells & _ & _ & _ & _ & Hrow).
  - by left.
  - exact Hkd.
  - exists mh. exact Hrow.
Defined.

Lemma merge_missing_kd_witness :
  @merge_materials Demo.platform [Demo.matA; delete "kd" Demo.matA]
    Demo.texcoords Demo.tfaces Demo.mfaces = Raise (KeyError "kd").
Proof.
  apply (@merge_missing_kd Demo.platform _ _ _ _ "pbr" Demo.matA
           (delete "kd" Demo.matA)).
  - intros m Hm. rewrite !elem_of_cons, elem_of_nil in Hm.
    destruct Hm as [->|[->|[]]]; reflexivity.
  - repeat constructor; intros tex v Htex Hv; unfold textures in Htex;
      rewrite !elem_of_cons, elem_of_nil in Htex;
      destruct Htex as [->|[->|[->|[]]]]; vm_compute in Hv;
      try discriminate; injection Hv as <-;
      (eexists; split; [reflexivity|]; vm_compute; done).
  - reflexivity.
  - by eexists.
  - right. by left.
  - reflexivity.
Defined.

Lemma malformed_line_witness :
  @parse_line Demo.platform [] "newmtl" = Raise IndexError ∧
  @parse_line Demo.platform [ {[ "name" := VStr "A" ]} ] "Kd 1 x 0"
  = Raise ValueError.
Proof.
  split.
  - apply (@malformed_line Demo.platform). by constructor.
  - apply (@malformed_line Demo.platform).
    apply fault_not_a_number with "x"; try done.
    right. by left.
Defined.

Lemma later_line_overwrites_witness :
  ∃ materials1,
    @parse_line Demo.platform [ {[ "name" := VStr "A" ]} ] "Kd 1 0 0"
    = Ok materials1 ∧
    @parse_line Demo.platform materials1 "kd 5 6 7"
    = @parse_line Demo.platform [ {[ "name" := VStr "A" ]} ] "kd 5 6 7".
Proof.
  eexists. split; [vm_compute; reflexivity|].
  apply (@later_line_overwrites Demo.platform _ "Kd 1 0 0"); try reflexivity.
Defined.

Lemma loaded_materials_witness :
  ∃ result parsed,
    @load_mtl Demo.platform "scene/m.mtl" true = Ok result ∧
    @parse_lines Demo.platform Demo.file = Ok parsed ∧
    length parsed = length result.
Proof.
  destruct (@load_mtl Demo.platform "scene/m.mtl" true) as [ms|e] eqn:Hload.
  - destruct (@loaded_materials Demo.platform "scene/m.mtl" true Demo.file ms)
      as (parsed & Hparsed & Hall); [reflexivity|exact Hload|].
    exists ms, parsed. split; [reflexivity|]. split; [exact Hparsed|].
    by eapply Forall2_length.
  - exfalso. revert Hload. vm_compute. discriminate.
Defined.

Lemma load_mtl_missing_kd_witness :
  @load_mtl Samples.platform "scene/bare.mtl" true = Raise (KeyError "kd").
Proof.
  apply (@load_mtl_missing_kd Samples.platform "scene/bare.mtl" true
           Samples.bare_file
           (<["ks" := VVec [1%Q; 1%Q; 1%Q]]> {[ "name" := VStr "A" ]}) []).
  - reflexivity.
  - vm_compute. reflexivity.
  - reflexivity.
  - reflexivity.
Defined.

Lemma surrounding_whitespace_ignored_witness :
  @parse_line Demo.platform [ {[ "name" := VStr "A" ]} ]
    ("  " ++ "Kd 1 0 0" ++ Samples.crlf)%string
  = @parse_line Demo.platform [ {[ "name" := VStr "A" ]} ] "Kd 1 0 0".
Proof.
  apply (@surrounding_whitespace_ignored Demo.platform); reflexivity.
Defined.

Lemma line_fields_witness :
  line_tokens "map_Kd  tex.png" = ["map_Kd"; "tex.png"] ∧
  line_key "map_Kd  tex.png" = "map_kd" ∧
  line_data "map_Kd  tex.png" = ["tex.png"].
Proof.
  apply (line_fields "map_Kd  tex.png" "map_Kd" [(" "%char, 1%nat, "tex.png")]);
    reflexivity.
Defined.

Lemma space_then_tab_stores_empty_witness :
  @parse_line Demo.platform [ {[ "name" := VStr "A" ]} ]
    ("map_Kd" ++ run " " 1 ++ run "009" 1 ++ "tex.png")%string
  = Ok [ <["map_kd" := VStr ""]> {[ "name" := VStr "A" ]} ].
Proof.
  apply (@space_then_tab_stores_empty Demo.platform []
           {[ "name" := VStr "A" ]} "map_Kd" 0 0 "tex.png"); done.
Defined.

Lemma demo_plain_tag : plain_tag (Some Demo.matB).
Proof.
  intros m v [= <-] Hv. exists "pbr". split; [|reflexivity].
  revert Hv. vm_compute. intros [= <-]. reflexivity.
Defined.

Lemma saved_file_reads_back_witness :
  ∃ out kd ks normal,
    @save_mtl Demo.platform SaveDemo.disk "scene/out.mtl" (Some Demo.matB)
    = (out, Ok tt) ∧
    @parse_lines Demo.platform (file_text out)
    = Ok [reread (saved_tag (Some Demo.matB)) kd ks normal 0 1].
Proof.
  destruct (@save_mtl Demo.platform SaveDemo.disk "scene/out.mtl"
              (Some Demo.matB)) as [out r] eqn:Hs.
  assert (r = Ok tt) as ->.
  { revert Hs. vm_compute. intros [= _ <-]. reflexivity. }
  destruct (@saved_file_reads_back Demo.platform SaveDemo.disk
              "scene/out.mtl" (Some Demo.matB) out 0%Q 1%Q Hs
              demo_plain_tag eq_refl eq_refl)
    as (kd & ks & normal & _ & _ & _ & Hparse).
  exists out, kd, ks, normal. split; [reflexivity|exact Hparse].
Defined.

Lemma load_mtl_succeeds_witness :
  ∃ result, @load_mtl Demo.platform "scene/m.mtl" true = Ok result ∧
            length result = 2%nat.
Proof.
  assert (∃ parsed,
            @parse_lines Demo.platform Demo.file = Ok parsed ∧
            length parsed = 2%nat ∧
            Forall (@loadable Demo.platform "scene") parsed)
    as (parsed & Hparsed & Hlen & Hall).
  { eexists. split; [vm_compute; reflexivity|]. split; [reflexivity|].
    constructor; [|constructor; [|constructor]].
    - split; [right; split; [reflexivity|eexists; reflexivity]|].
      split; [right; split; [reflexivity|]|left; reflexivity].
      eexists. split; [reflexivity|discriminate].
    - split; [left; eexists _, _; split; reflexivity|].
      split; [left|left; reflexivity].
      eexists _, _. split; [reflexivity|]. split; [reflexivity|].
      constructor; [reflexivity|]. constructor; [reflexivity|constructor]. }
  destruct (@load_mtl_succeeds Demo.platform "scene/m.mtl" true Demo.file
              parsed eq_refl Hparsed Hall) as (result & Hload & Hres).
  exists result. split; [exact Hload|]. rewrite Hres. exact Hlen.
Defined.

Lemma save_then_load_witness :
  ∃ out m,
    @save_mtl SaveDemo.reader SaveDemo.disk "scene/out.mtl" (Some Demo.matB)
    = (out, Ok tt) ∧
    @load_mtl SaveDemo.reader "scene/out.mtl" true = Ok [m] ∧
    m !! "name" = Some (VStr "defaultMat").
Proof.
  assert (@read_lines SaveDemo.reader "scene/out.mtl"
          = Ok (file_text (@save_mtl SaveDemo.reader SaveDemo.disk
                             "scene/out.mtl" (Some Demo.matB)).1)) as Hread
    by reflexivity.
  destruct (@save_mtl SaveDemo.reader SaveDemo.disk "scene/out.mtl"
              (Some Demo.matB)) as [out r] eqn:Hs.
  assert (r = Ok tt) as ->.
  { revert Hs. clear. vm_compute. intros [= _ <-]. reflexivity. }
  destruct (@save_then_load SaveDemo.reader SaveDemo.disk "scene/out.mtl"
              (Some Demo.matB) true out 0%Q 1%Q Hs Hread
              demo_plain_tag eq_refl eq_refl)
    as (m & Hload & Hname & _).
  - intros path v lam _ l c Hc. eexists. split; [reflexivity|].
    rewrite !elem_of_cons, elem_of_nil in Hc.
    destruct Hc as [->|[->|[]]];
      (constructor; [reflexivity|]; constructor; [reflexivity|constructor]).
  - exists out, m. split; [reflexivity|]. split; [exact Hload|exact Hname].
Defined.

Lemma references_and_texture_files_witness :
  ∃ out e line,
    @save_mtl Demo.platform SaveDemo.disk "scene/out.mtl"
      (Some SaveDemo.by_name) = (out, Raise e) ∧
    last (file_text out) = Some line ∧
    line ∈ texture_lines ∧
    length (references (file_text out)) = S (length (texture_files out)).
Proof.
  destruct (@save_mtl Demo.platform SaveDemo.disk "scene/out.mtl"
              (Some SaveDemo.by_name)) as [out r] eqn:Hs.
  assert (r = Raise AttributeError) as ->.
  { revert Hs. clear. vm_compute. intros [= _ <-]. reflexivity. }
  destruct (@references_and_texture_files Demo.platform SaveDemo.disk
              "scene/out.mtl" (Some SaveDemo.by_name) out _ Hs) as [_ Hfail].
  destruct (Hfail AttributeError eq_refl eq_refl)
    as (line & Hlast & Hline & Hcount).
  - intros key. unfold has_entry.
    destruct (bool_decide (size SaveDemo.by_name = 0%nat));
      [eexists; reflexivity|].
    destruct (SaveDemo.by_name !! key) as [[]|]; eexists; reflexivity.
  - exists out, AttributeError, line.
    split; [reflexivity|]. split; [exact Hlast|]. split; [exact Hline|].
    exact Hcount.
Defined.
